(** * EventReport: the analytics pipeline of the web client

    A shallow embedding of the paginated event fetcher
    ([eventsApi.getAllForAnalytics], web [api] module) and of the
    analytics page ([processEventsBy...], [processTopTags],
    [processEventsTrend], [calculateStatistics], [loadEvents],
    [displayEvents]), together with the fragments of the ECMAScript
    semantics these functions rely on: plain objects used as dictionaries,
    [Array.prototype.sort], the [Date] arithmetic and [Number.prototype.toFixed].

    Conventions.
    - Integer-valued JavaScript numbers (counts, array lengths, time values
      in milliseconds) are [Z] or [nat]: in a run they are all below 2^53
      and so are binary64 numbers.  The other numbers are in [JS.number]:
      the rational value of a binary64 number, NaN or an infinity.  The
      operations [/], [*] and [-] round their exact result to the nearest
      number of 53 significant bits, ties to even ([JS.binary64]); the
      range of the exponent is not modelled, no quotient of these
      programs coming near 2^1024 or 2^-1022.
    - The answers of the backend are an explicit list, one per request, in
      the order the requests are made.
    - The clock, the parser of [new Date(string)] and the local time zone
      are parameters of the functions that use them.

    The last part of the development covers more of the clients: what
    the analytics page draws, the addresses and the stored token of the
    [api] module, the authentication context, the search and the "today"
    filter of the events page, the tags and the sending of a report, and
    the file type of an image on the mobile client. *)

From Stdlib Require Import ZArith List String Ascii Bool Lia QArith Qround Qabs Lqa.
From Stdlib Require Import Permutation Sorted.
Import ListNotations.

Local Open Scope string_scope.
Local Open Scope list_scope.

(* ================================================================== *)
(** * Fragments of ECMAScript                                            *)
(* ================================================================== *)

Module JS.

(** ** Numbers

    A JavaScript number that is not an integer count: the rational value
    of a finite binary64 number, NaN or an infinity.  Signed zeros are not
    distinguished. *)

Inductive number : Type :=
| Fin (q : Q)
| NaN
| PosInf
| NegInf.

Definition of_Z (z : Z) : number := Fin (inject_Z z).
Definition of_nat (n : nat) : number := of_Z (Z.of_nat n).

Definition is_finite (x : number) : bool :=
  match x with Fin _ => true | _ => false end.

Definition infinity (negative : bool) : number :=
  if negative then NegInf else PosInf.

Definition Qsign (q : Q) : comparison := Qcompare q 0.

(** *** Rounding to binary64 *)

(** The nearest integer, a tie going to the even one. *)
Definition nearest_even (x : Q) : Z :=
  let f := Qfloor x in
  match Qcompare (x - inject_Z f) (1 # 2) with
  | Lt => f
  | Gt => (f + 1)%Z
  | Eq => if Z.even f then f else (f + 1)%Z
  end.

(** [2^k], for an integer [k] of any sign. *)
Definition pow2 (k : Z) : Q :=
  if (0 <=? k)%Z then (2 ^ k) # 1 else 1 # Z.to_pos (2 ^ (- k)).

(** The number of 53 significant bits nearest to a positive rational [a],
    ties to even.  With [e] the exponent of [a] or one more
    ([exponent_estimate]), [a * 2^(53-e)] lies between 2^52 and 2^54, where
    the numbers of 53 bits are the integers below 2^53 and the even
    integers from there on. *)
Definition exponent_estimate (a : Q) : Z :=
  (Z.log2 (Qnum a) - Z.log2 (Z.pos (Qden a)))%Z.

Definition binary64_positive (a : Q) : Q :=
  let e := exponent_estimate a in
  let m := (a * pow2 (53 - e))%Q in
  match Qcompare m (inject_Z (2 ^ 53)) with
  | Lt => (inject_Z (nearest_even m) * pow2 (e - 53))%Q
  | _ => (inject_Z (2 * nearest_even (m * (1 # 2))) * pow2 (e - 53))%Q
  end.

(** The binary64 number nearest to [q], the exponent taken without
    bounds. *)
Definition binary64 (q : Q) : Q :=
  match Qcompare q 0 with
  | Eq => 0%Q
  | Gt => binary64_positive q
  | Lt => (- binary64_positive (- q))%Q
  end.

(** [x / y]: the quotient, rounded to binary64. *)
Definition div (x y : number) : number :=
  match x, y with
  | NaN, _ | _, NaN => NaN
  | Fin a, Fin b =>
      match Qsign b with
      | Eq => match Qsign a with
              | Eq => NaN | Gt => PosInf | Lt => NegInf
              end
      | _ => Fin (binary64 (a / b))
      end
  | Fin _, _ => Fin 0
  | PosInf, Fin b => infinity (match Qsign b with Lt => true | _ => false end)
  | NegInf, Fin b => infinity (match Qsign b with Lt => false | _ => true end)
  | _, _ => NaN
  end.

(** [x * y]: the product, rounded to binary64. *)
Definition mul (x y : number) : number :=
  match x, y with
  | NaN, _ | _, NaN => NaN
  | Fin a, Fin b => Fin (binary64 (a * b))
  | Fin a, PosInf | PosInf, Fin a =>
      match Qsign a with Eq => NaN | Gt => PosInf | Lt => NegInf end
  | Fin a, NegInf | NegInf, Fin a =>
      match Qsign a with Eq => NaN | Gt => NegInf | Lt => PosInf end
  | PosInf, PosInf | NegInf, NegInf => PosInf
  | _, _ => NegInf
  end.

(** [x - y]: the difference, rounded to binary64. *)
Definition sub (x y : number) : number :=
  match x, y with
  | NaN, _ | _, NaN => NaN
  | Fin a, Fin b => Fin (binary64 (a - b))
  | PosInf, PosInf | NegInf, NegInf => NaN
  | PosInf, _ | _, NegInf => PosInf
  | _, _ => NegInf
  end.

(** [x >= y]; false as soon as one side is NaN. *)
Definition ge (x y : number) : bool :=
  match x, y with
  | NaN, _ | _, NaN => false
  | Fin a, Fin b => match Qcompare a b with Lt => false | _ => true end
  | PosInf, _ | _, NegInf => true
  | _, _ => false
  end.

(** [x < y] *)
Definition lt (x y : number) : bool :=
  match x, y with
  | NaN, _ | _, NaN => false
  | _, _ => negb (ge x y)
  end.

Definition Math_max2 (x y : number) : number :=
  match x, y with
  | NaN, _ | _, NaN => NaN
  | _, _ => if ge x y then x else y
  end.

Definition Math_min2 (x y : number) : number :=
  match x, y with
  | NaN, _ | _, NaN => NaN
  | _, _ => if ge x y then y else x
  end.

(** [Math.max(...xs)] and [Math.min(...xs)] *)
Definition Math_max (xs : list number) : number := fold_left Math_max2 xs NegInf.
Definition Math_min (xs : list number) : number := fold_left Math_min2 xs PosInf.

Definition Math_ceil (x : number) : number :=
  match x with Fin q => of_Z (Qceiling q) | _ => x end.

(** The string [x.toFixed(1)], kept structured: a sign and a number of
    tenths, or the text of a non-finite number.  Of the two closest
    multiples of 0.1 the larger one is taken, on the absolute value. *)
Inductive fixed1 : Set :=
| Tenths (negative : bool) (n : Z)
| TextNaN
| TextInfinity (negative : bool).

Definition toFixed1 (x : number) : fixed1 :=
  match x with
  | Fin q =>
      Tenths (match Qsign q with Lt => true | _ => false end)
             (Qfloor (Qabs q * 10 + (1 # 2)))
  | NaN => TextNaN
  | PosInf => TextInfinity false
  | NegInf => TextInfinity true
  end.

(** ** Decimal digits *)

Definition digit_char (d : Z) : ascii := ascii_of_N (48 + Z.to_N d).

(** The last [width] decimal digits of [n], most significant first. *)
Fixpoint pad_digits (width : nat) (n : Z) (tail : string) : string :=
  match width with
  | O => tail
  | S w => pad_digits w (n / 10) (String (digit_char (n mod 10)) tail)
  end.

(** [n.toString()] for a natural number [n]. *)
Fixpoint decimal_digits (fuel : nat) (n : Z) (tail : string) : string :=
  match fuel with
  | O => tail
  | S fuel' =>
      let tail' := String (digit_char (n mod 10)) tail in
      if (n / 10 =? 0)%Z then tail' else decimal_digits fuel' (n / 10) tail'
  end.

Definition decimal (n : Z) : string :=
  decimal_digits (S (Z.to_nat (Z.log2 n))) n "".

Definition fixed1_text (f : fixed1) : string :=
  match f with
  | Tenths negative n =>
      (if negative then "-" else "") ++ decimal (n / 10) ++ "." ++ decimal (n mod 10)
  | TextNaN => "NaN"
  | TextInfinity negative => if negative then "-Infinity" else "Infinity"
  end.

(** ** Plain objects used as dictionaries

    An object created by [{}] or an object literal: its own properties in
    creation order, and [Object.prototype] behind it.  The values stored
    by the counting loops are primitives. *)

Inductive prim : Set :=
| PNum (n : Z)
| PStr (s : string).

Inductive any : Set :=
| Undefined
| Prim (p : prim)
| Obj (text : string).   (* an object or function; [text] is what [+] sees *)

Definition object : Set := list (string * prim).

Definition native_function (name : string) : string :=
  "function " ++ name ++ "() { [native code] }".

(** The members of [Object.prototype], each with the string it converts
    to: the source text of a built-in function and, for the accessor
    [__proto__], the text of [Object.prototype] itself. *)
Definition Object_prototype (key : string) : option string :=
  if key =? "__proto__" then Some "[object Object]"
  else if key =? "constructor" then Some (native_function "Object")
  else if existsb (String.eqb key)
            ["toString"; "toLocaleString"; "valueOf"; "hasOwnProperty";
             "isPrototypeOf"; "propertyIsEnumerable"; "__defineGetter__";
             "__defineSetter__"; "__lookupGetter__"; "__lookupSetter__"]
       then Some (native_function key)
  else None.

Fixpoint own (o : object) (key : string) : option prim :=
  match o with
  | [] => None
  | (k, v) :: rest => if k =? key then Some v else own rest key
  end.

(** [o[key]] *)
Definition get (o : object) (key : string) : any :=
  match own o key with
  | Some v => Prim v
  | None =>
      match Object_prototype key with
      | Some text => Obj text
      | None => Undefined
      end
  end.

Fixpoint put (o : object) (key : string) (v : prim) : object :=
  match o with
  | [] => [(key, v)]
  | (k, w) :: rest =>
      if k =? key then (k, v) :: rest else (k, w) :: put rest key v
  end.

(** [o[key] = v] for a primitive [v]: the setter of [__proto__] ignores a
    primitive; any other key becomes (or stays) an own property. *)
Definition set (o : object) (key : string) (v : prim) : object :=
  if key =? "__proto__" then o else put o key v.

(** [(v || 0) + 1] *)
Definition or_zero_plus_one (v : any) : prim :=
  match v with
  | Undefined => PNum 1
  | Prim (PNum n) => if (n =? 0)%Z then PNum 1 else PNum (n + 1)
  | Prim (PStr s) => if s =? "" then PNum 1 else PStr (s ++ "1")
  | Obj text => PStr (text ++ "1")
  end.

(** [o[key] = (o[key] || 0) + 1] *)
Definition count_up (o : object) (key : string) : object :=
  set o key (or_zero_plus_one (get o key)).

(** *** [Object.entries]

    Keys that are array indices come first, in ascending numeric order;
    the other keys follow in creation order. *)

Definition digit_value (c : ascii) : option N :=
  let n := N_of_ascii c in
  if ((48 <=? n) && (n <=? 57))%N then Some (n - 48)%N else None.

Fixpoint digits_value (s : string) (acc : N) : option N :=
  match s with
  | EmptyString => Some acc
  | String c rest =>
      match digit_value c with
      | Some d => digits_value rest (10 * acc + d)%N
      | None => None
      end
  end.

(** A canonical numeric string below 2^32 - 1. *)
Definition array_index (key : string) : option N :=
  match key with
  | EmptyString => None
  | String "0" EmptyString => Some 0%N
  | String "0" _ => None
  | _ =>
      match digits_value key 0 with
      | Some n => if (n <? 4294967295)%N then Some n else None
      | None => None
      end
  end.

Fixpoint insert_index (i : N) (p : string * prim) (l : list (N * (string * prim)))
  : list (N * (string * prim)) :=
  match l with
  | [] => [(i, p)]
  | (j, q) :: rest =>
      if (i <=? j)%N then (i, p) :: l else (j, q) :: insert_index i p rest
  end.

Fixpoint indexed_entries (o : object) : list (N * (string * prim)) :=
  match o with
  | [] => []
  | (k, v) :: rest =>
      match array_index k with
      | Some i => insert_index i (k, v) (indexed_entries rest)
      | None => indexed_entries rest
      end
  end.

Definition named_entries (o : object) : list (string * prim) :=
  filter (fun p => match array_index (fst p) with Some _ => false | None => true end) o.

Definition Object_entries (o : object) : list (string * prim) :=
  map snd (indexed_entries o) ++ named_entries o.

(** ** [Array.prototype.sort]

    The sort is stable, so for a consistent comparator its result is
    determined: it is the one insertion sort computes.  A comparator that
    answers NaN ([None]) is read as answering 0. *)

Section Sort.
Context {A : Type} (comparefn : A -> A -> option Z).

Definition before_or_equal (x y : A) : bool :=
  match comparefn x y with
  | Some v => (v <=? 0)%Z
  | None => true
  end.

Fixpoint sort_insert (x : A) (l : list A) : list A :=
  match l with
  | [] => [x]
  | y :: rest =>
      if before_or_equal x y then x :: l else y :: sort_insert x rest
  end.

Definition sort (l : list A) : list A := fold_right sort_insert [] l.
End Sort.

(** [b - a] on two stored values; a string stored by [count_up] starts with
    the text of an object, which is not a numeral. *)
Definition minus (b a : prim) : option Z :=
  match b, a with
  | PNum x, PNum y => Some (x - y)%Z
  | _, _ => None
  end.

(** [a.localeCompare(b)] on strings of ASCII digits and punctuation. *)
Definition localeCompare (a b : string) : option Z :=
  Some (match String.compare a b with Lt => -1 | Eq => 0 | Gt => 1 end)%Z.

(** [l.slice(0, n)] and [l.slice(-n)] *)
Definition slice_first {A : Type} (n : nat) (l : list A) : list A := firstn n l.
Definition slice_last {A : Type} (n : nat) (l : list A) : list A :=
  skipn (List.length l - n) l.

(** ** Time values and the calendar

    A time value is a number of milliseconds since 1970-01-01T00:00Z.
    The proleptic Gregorian calendar repeats every 146097 days; an era
    is counted from a 1 March, so that the leap day is its last day. *)

Local Open Scope Z_scope.

Definition msPerDay : Z := 86400000.
Definition msPerHour : Z := 3600000.

Definition Day (t : Z) : Z := t / msPerDay.
Definition TimeWithinDay (t : Z) : Z := t mod msPerDay.
Definition WeekDay (t : Z) : Z := (Day t + 4) mod 7.
Definition HourFromTime (t : Z) : Z := (t / msPerHour) mod 24.

Definition daysPerEra : Z := 146097.
(** Days from 0000-03-01 to 1970-01-01. *)
Definition epochShift : Z := 719468.

(** Day [doe] of an era (0 is a 1 March): the year of the era counted
    from March (0..399), the calendar month (1..12) and the day. *)
Definition date_of_era_day (doe : Z) : Z * Z * Z :=
  let yoe := (doe - doe / 1460 + doe / 36524 - doe / 146096) / 365 in
  let doy := doe - (365 * yoe + yoe / 4 - yoe / 100) in
  let mp := (5 * doy + 2) / 153 in
  let d := doy - (153 * mp + 2) / 5 + 1 in
  let m := if mp <? 10 then mp + 3 else mp - 9 in
  (yoe, m, d).

Definition era_day_of_date (yoe m d : Z) : Z :=
  let mp := if 2 <? m then m - 3 else m + 9 in
  let doy := (153 * mp + 2) / 5 + d - 1 in
  yoe * 365 + yoe / 4 - yoe / 100 + doy.

(** The civil date (year, month 1..12, day) of a day number. *)
Definition civil (day : Z) : Z * Z * Z :=
  let z := day + epochShift in
  let '(yoe, m, d) := date_of_era_day (z mod daysPerEra) in
  (yoe + 400 * (z / daysPerEra) + (if m <=? 2 then 1 else 0), m, d).

Definition YearFromTime (t : Z) : Z := fst (fst (civil (Day t))).
Definition MonthFromTime (t : Z) : Z := snd (fst (civil (Day t))) - 1.
Definition DateFromTime (t : Z) : Z := snd (civil (Day t)).

(** [MakeDay(year, month, date)], with [month] counted from 0. *)
Definition MakeDay (year month date : Z) : Z :=
  let ym := year + month / 12 in
  let m := month mod 12 + 1 in
  let y := if m <=? 2 then ym - 1 else ym in
  (y / 400) * daysPerEra + era_day_of_date (y mod 400) m 1 - epochShift
  + date - 1.

Definition MakeDate (day time : Z) : Z := day * msPerDay + time.

(** What the host decides: how [new Date(string)] reads a string ([None]
    for an invalid date) and the offset of local time from UTC, at a time
    value and at a local time. *)
Record Host : Type := {
  Date_parse : string -> option Z;
  LocalTZA_at_utc : Z -> Z;
  LocalTZA_at_local : Z -> Z
}.

(** A [Date] object: its time value, [None] when it is NaN. *)
Definition Date : Set := option Z.

Section Dates.
Variable host : Host.

Definition LocalTime (t : Z) : Z := t + LocalTZA_at_utc host t.
Definition UTC (t : Z) : Z := t - LocalTZA_at_local host t.

Definition new_Date (s : string) : Date := Date_parse host s.

(** The getters answer NaN ([None]) on an invalid date. *)
Definition getMonth (d : Date) : option Z :=
  option_map (fun t => MonthFromTime (LocalTime t)) d.
Definition getDay (d : Date) : option Z :=
  option_map (fun t => WeekDay (LocalTime t)) d.
Definition getHours (d : Date) : option Z :=
  option_map (fun t => HourFromTime (LocalTime t)) d.
Definition getDate (d : Date) : option Z :=
  option_map (fun t => DateFromTime (LocalTime t)) d.

Definition getTime (d : Date) : number :=
  match d with Some t => of_Z t | None => NaN end.

(** [d.setDate(dt)]: the same local time of day on day [dt] of the
    month of [d]. *)
Definition setDate (d : Date) (dt : option Z) : Date :=
  match d, dt with
  | Some u, Some dt =>
      let t := LocalTime u in
      Some (UTC (MakeDate (MakeDay (YearFromTime t) (MonthFromTime t) dt)
                          (TimeWithinDay t)))
  | _, _ => None
  end.

(** [d.setDate(d.getDate() - n)] *)
Definition days_earlier (d : Date) (n : Z) : Date :=
  setDate d (option_map (fun dt => dt - n) (getDate d)).

(** [a >= b] and [a < b] on two dates *)
Definition Date_ge (a b : Date) : bool := ge (getTime a) (getTime b).
Definition Date_lt (a b : Date) : bool := lt (getTime a) (getTime b).
End Dates.

(** The year of [toISOString]: four digits, or a sign and six digits
    outside 0..9999. *)
Definition iso_year (y : Z) : string :=
  if (0 <=? y) && (y <=? 9999) then pad_digits 4 y ""
  else ((if (y <? 0)%Z then "-" else "+") ++ pad_digits 6 (Z.abs y) "")%string.

(** [toISOString().split('T')[0]] of a valid date: the part before the
    time of day. *)
Definition isoDate (t : Z) : string :=
  (iso_year (YearFromTime t) ++ "-" ++ pad_digits 2 (MonthFromTime t + 1) ""
   ++ "-" ++ pad_digits 2 (DateFromTime t) "")%string.

Definition short_months : list string :=
  ["Jan"; "Feb"; "Mar"; "Apr"; "May"; "Jun";
   "Jul"; "Aug"; "Sep"; "Oct"; "Nov"; "Dec"]%string.

(** [toLocaleDateString('en-US', {day: '2-digit', month: 'short'})] *)
Definition toLocaleDateString_day_month (host : Host) (d : Date) : string :=
  match d with
  | None => "Invalid Date"%string
  | Some u =>
      let t := LocalTime host u in
      (nth (Z.to_nat (MonthFromTime t)) short_months "" ++ " "
       ++ pad_digits 2 (DateFromTime t) "")%string
  end.

End JS.

(* ================================================================== *)
(** * The [api] module: events and the paginated fetch                  *)
(* ================================================================== *)

Module Api.

(** [alert_code: 'GREEN' | 'YELLOW' | 'ORANGE' | 'RED'] *)
Inductive AlertCode : Set := GREEN | YELLOW | ORANGE | RED.

Record Location : Type := {
  type : string;
  coordinates : Q * Q;
  address : option string
}.

Record Event : Type := {
  id : string;
  location : Location;
  alert_code : AlertCode;
  description : string;
  tags : list string;
  reporter_id : string;
  image_id : option string;
  reported_at : string
}.

(** The string a severity is at run time; it is the key used in
    [alertCounts] and [ALERT_COLORS]. *)
Definition code_name (c : AlertCode) : string :=
  match c with
  | GREEN => "GREEN" | YELLOW => "YELLOW" | ORANGE => "ORANGE" | RED => "RED"
  end.

Definition ALERT_COLORS (code : string) : option string :=
  if code =? "GREEN" then Some "#22c55e"
  else if code =? "YELLOW" then Some "#eab308"
  else if code =? "ORANGE" then Some "#f97316"
  else if code =? "RED" then Some "#ef4444"
  else None.

(** ** The backend, as seen from one run of the client

    [api.get('/events', {params: {skip, limit}})] either resolves with a
    page ([res.data]) or rejects.  The client is sequential, so all a
    backend can do to one run is described by the list of its answers. *)

Inductive response : Type :=
| Data (page : list Event)
| Rejected.

(** The query parameters of one request ([skip.toString()],
    [limit.toString()], kept as numbers). *)
Record request : Set := { skip : nat; limit : nat }.

(** How an [async] function ends: its promise resolves, rejects, or stays
    pending because an awaited answer never arrives. *)
Inductive outcome (A : Type) : Type :=
| Resolved (a : A)
| Thrown
| Pending.
Arguments Resolved {A} a.
Arguments Thrown {A}.
Arguments Pending {A}.

Record run (A : Type) : Type := {
  result : outcome A;
  requests : list request;   (* the requests sent, oldest first *)
  unread : list response     (* the answers that were never asked for *)
}.
Arguments result {A} r.
Arguments requests {A} r.
Arguments unread {A} r.

Definition page_limit : nat := 100.

(** The [while (hasMore)] loop of [getAllForAnalytics]; one iteration per
    answer of the backend. *)
Fixpoint getAllForAnalytics_loop (backend : list response)
    (allEvents : list Event) (skip : nat) (sent : list request)
  : run (list Event) :=
  let sent' := sent ++ [ {| skip := skip; limit := page_limit |} ] in
  match backend with
  | [] => {| result := Pending; requests := sent'; unread := [] |}
  | Rejected :: rest =>
      {| result := Thrown; requests := sent'; unread := rest |}
  | Data page :: rest =>
      let allEvents' := allEvents ++ page in
      if (List.length page <? page_limit)%nat
      then {| result := Resolved allEvents'; requests := sent'; unread := rest |}
      else getAllForAnalytics_loop rest allEvents' (skip + page_limit) sent'
  end.

Definition getAllForAnalytics (backend : list response) : run (list Event) :=
  getAllForAnalytics_loop backend [] 0 [].

(** The requests [{skip: 0}, {skip: 100}, ..., {skip: 100 * (n - 1)}]. *)
Definition page_requests (from n : nat) : list request :=
  map (fun i => {| skip := i * page_limit; limit := page_limit |}) (seq from n).

End Api.

(* ================================================================== *)
(** * The analytics page                                                 *)
(* ================================================================== *)

Module Analytics.
Import JS Api.

Local Open Scope Z_scope.

(** [names[i]] used as a property key: the name, or ["undefined"] when
    [i] is NaN or not an index of [names]. *)
Definition name_key (names : list string) (i : option Z) : string :=
  match i with
  | Some i =>
      if (0 <=? i) && (i <? Z.of_nat (List.length names))
      then nth (Z.to_nat i) names "undefined"%string
      else "undefined"%string
  | None => "undefined"%string
  end.

(** [counts[i]++] on an array of counters.  With [i] NaN this creates a
    property named ["NaN"] and leaves the elements alone.  The indices
    come from [getDay] and [getHours]; they are never outside the array
    ([getDay_index], [getHours_index]). *)
Fixpoint increment_nth (counts : list Z) (i : nat) : list Z :=
  match counts, i with
  | [], _ => []
  | c :: rest, O => (c + 1) :: rest
  | c :: rest, S i' => c :: increment_nth rest i'
  end.

Definition increment (counts : list Z) (i : option Z) : list Z :=
  match i with
  | Some i => if 0 <=? i then increment_nth counts (Z.to_nat i) else counts
  | None => counts
  end.

(** [s.padStart(2, '0')] *)
Definition padStart2 (s : string) : string :=
  match String.length s with
  | O => "00" | S O => "0" ++ s | _ => s
  end%string.

(** [events.length || 1] *)
Definition length_or_1 {A : Type} (l : list A) : nat :=
  match List.length l with O => 1%nat | n => n end.

(** [ToNumber] of a stored value; see [JS.minus] for the strings. *)
Definition to_number (p : prim) : number :=
  match p with PNum n => of_Z n | PStr _ => NaN end.

Record MonthBucket : Set := { month : string; month_count : any }.
Record AlertBucket : Set :=
  { name : string; value : prim; percentage : fixed1; fill : option string }.
Record DayBucket : Set := { day : string; day_count : Z }.
Record HourBucket : Set := { hour : string; hour_count : Z }.
Record TagBucket : Set := { tag : string; tag_count : prim }.
Record DateBucket : Set := { date : string; date_count : prim }.

(** A field of the statistics: a number, or the string of [toFixed(1)]. *)
Inductive stat : Type :=
| Num (x : number)
| Text (f : fixed1).

Record Statistics : Type :=
  { total : nat; avgPerDay : stat; trend : stat; urgentPercent : stat }.

Inductive TimeRange : Set := Range7d | Range30d | Range90d | RangeAll.

(** [daysMap] *)
Definition daysMap (r : TimeRange) : option Z :=
  match r with
  | Range7d => Some 7 | Range30d => Some 30 | Range90d => Some 90
  | RangeAll => None
  end.

(** The state of the page ([useState]). *)
Record PageState : Type := {
  events : list Event;
  loading : bool;
  error : option string;
  timeRange : TimeRange
}.

Definition setEvents (v : list Event) (st : PageState) : PageState :=
  {| events := v; loading := loading st; error := error st;
     timeRange := timeRange st |}.
Definition setLoading (v : bool) (st : PageState) : PageState :=
  {| events := events st; loading := v; error := error st;
     timeRange := timeRange st |}.
Definition setError (v : option string) (st : PageState) : PageState :=
  {| events := events st; loading := loading st; error := v;
     timeRange := timeRange st |}.

(** [loadEvents]: one call of [getAllForAnalytics] inside [try]/[catch]/
    [finally].  While the fetch is pending neither handler has run. *)
Definition loadEvents (st : PageState) (backend : list response)
  : PageState * run (list Event) :=
  let st := setError None (setLoading true st) in
  let r := getAllForAnalytics backend in
  (match result r with
   | Resolved data => setLoading false (setEvents data st)
   | Thrown =>
       setLoading false (setError (Some "Could not load data from server"%string) st)
   | Pending => st
   end, r).

(** [f] applied to the elements of [l] in order, the clock moving on by
    [reads] readings from one element to the next: [clock k] is reading
    number [k] of [new Date()] from where the traversal starts. *)
Fixpoint filter_clocked {A : Type} (reads : nat)
    (f : (nat -> Z) -> A -> bool) (clock : nat -> Z) (l : list A) : list A :=
  match l with
  | [] => []
  | x :: rest =>
      let kept := filter_clocked reads f (fun k => clock (reads + k)%nat) rest in
      if f clock x then x :: kept else kept
  end.

Section Page.
Variable host : Host.

Definition monthNames : list string := short_months.

Definition processEventsByMonth (events : list Event) : list MonthBucket :=
  let monthCounts := fold_left (fun o m => set o m (PNum 0)) monthNames [] in
  let monthCounts :=
    fold_left (fun o event =>
                 let date := new_Date host (reported_at event) in
                 let month := name_key monthNames (getMonth host date) in
                 count_up o month)
              events monthCounts in
  map (fun month => {| month := month; month_count := get monthCounts month |})
      monthNames.

Definition processEventsByAlertCode (events : list Event) : list AlertBucket :=
  let alertCounts : object :=
    [("GREEN", PNum 0); ("YELLOW", PNum 0); ("ORANGE", PNum 0); ("RED", PNum 0)]%string in
  let alertCounts :=
    fold_left (fun o event => count_up o (code_name (alert_code event)))
              events alertCounts in
  let total := length_or_1 events in
  map (fun '(code, count) =>
         {| name := code;
            value := count;
            percentage :=
              toFixed1 (mul (div (to_number count) (of_nat total)) (of_Z 100));
            fill := ALERT_COLORS code |})
      (Object_entries alertCounts).

Definition dayNames : list string :=
  ["Sunday"; "Monday"; "Tuesday"; "Wednesday"; "Thursday"; "Friday"; "Saturday"]%string.

Definition processEventsByDayOfWeek (events : list Event) : list DayBucket :=
  let dayCounts :=
    fold_left (fun counts event =>
                 let date := new_Date host (reported_at event) in
                 increment counts (getDay host date))
              events [0; 0; 0; 0; 0; 0; 0] in
  map (fun '(day, idx) => {| day := day; day_count := nth idx dayCounts 0 |})
      (combine dayNames (seq 0 (List.length dayNames))).

Definition processEventsByHour (events : list Event) : list HourBucket :=
  let hourCounts :=
    fold_left (fun counts event =>
                 let date := new_Date host (reported_at event) in
                 increment counts (getHours host date))
              events (repeat 0 24) in
  map (fun '(count, hour) =>
         {| hour := (padStart2 (decimal (Z.of_nat hour)) ++ ":00")%string;
            hour_count := count |})
      (combine hourCounts (seq 0 (List.length hourCounts))).

Definition tagCounts (events : list Event) : object :=
  fold_left (fun o event => fold_left count_up (tags event) o) events [].

Definition processTopTags (events : list Event) : list TagBucket :=
  map (fun '(tag, count) => {| tag := tag; tag_count := count |})
      (slice_first 10
         (sort (fun a b => minus (snd b) (snd a))
               (Object_entries (tagCounts events)))).

(** [toISOString] throws a [RangeError] on an invalid date: [None]. *)
Definition dateGroups (events : list Event) : option object :=
  fold_left (fun groups event =>
               match groups, new_Date host (reported_at event) with
               | Some o, Some t => Some (count_up o (isoDate t))
               | _, _ => None
               end)
            events (Some []).

(** The buckets of [processEventsTrend] before they are labelled:
    [Object.entries(dateGroups).sort(...).slice(-30)]. *)
Definition trendBuckets (groups : object) : list (string * prim) :=
  slice_last 30
    (sort (fun a b => localeCompare (fst a) (fst b)) (Object_entries groups)).

Definition processEventsTrend (events : list Event) : option (list DateBucket) :=
  option_map
    (fun groups =>
       map (fun '(date, count) =>
              {| date := toLocaleDateString_day_month host (new_Date host date);
                 date_count := count |})
           (trendBuckets groups))
    (dateGroups events).

(** The callbacks of the two [filter] calls of [calculateStatistics]; each
    [new Date()] is a reading of the clock. *)
Definition in_lastWeek (clock : nat -> Z) (e : Event) : bool :=
  let date := new_Date host (reported_at e) in
  let weekAgo := days_earlier host (Some (clock 0%nat)) 7 in
  Date_ge date weekAgo.

Definition in_prevWeek (clock : nat -> Z) (e : Event) : bool :=
  let date := new_Date host (reported_at e) in
  let weekAgo := days_earlier host (Some (clock 0%nat)) 7 in
  let twoWeeksAgo := days_earlier host (Some (clock 1%nat)) 14 in
  Date_ge date twoWeeksAgo && Date_lt date weekAgo.

Definition is_urgent (e : Event) : bool :=
  match alert_code e with RED | ORANGE => true | _ => false end.

(** The divisor of [avgPerDay]: the days between the earliest and the
    latest event, at least 1. *)
Definition daysDiff (events : list Event) : number :=
  let dates := map (fun e => getTime (new_Date host (reported_at e))) events in
  let minDate := Math_min dates in
  let maxDate := Math_max dates in
  Math_max2 (of_Z 1)
            (Math_ceil (div (sub maxDate minDate) (of_Z (1000 * 60 * 60 * 24)))).

(** [clock k] is reading number [k] of the clock during the call. *)
Definition calculateStatistics (clock : nat -> Z) (events : list Event)
  : Statistics :=
  match events with
  | [] => {| total := 0; avgPerDay := Num (of_Z 0); trend := Num (of_Z 0);
             urgentPercent := Num (of_Z 0) |}
  | _ =>
      let n := List.length events in
      let daysDiff := daysDiff events in
      let lastWeek := List.length (filter_clocked 1 in_lastWeek clock events) in
      let prevWeek :=
        List.length (filter_clocked 2 in_prevWeek (fun k => clock (n + k)%nat) events) in
      let trend :=
        if (0 <? prevWeek)%nat
        then mul (div (sub (of_nat lastWeek) (of_nat prevWeek)) (of_nat prevWeek))
                 (of_Z 100)
        else of_Z 0 in
      let urgentCount := List.length (filter is_urgent events) in
      {| total := n;
         avgPerDay := Text (toFixed1 (div (of_nat n) daysDiff));
         trend := Text (toFixed1 trend);
         urgentPercent :=
           Text (toFixed1 (mul (div (of_nat urgentCount) (of_nat n)) (of_Z 100))) |}
  end.

(** [displayEvents], recomputed from the state at clock reading [now]. *)
Definition displayEvents (now : Z) (st : PageState) : list Event :=
  match daysMap (timeRange st) with
  | Some days =>
      let cutoff := days_earlier host (Some now) days in
      filter (fun e => Date_ge (new_Date host (reported_at e)) cutoff) (events st)
  | None => events st
  end.
End Page.

End Analytics.

Import JS Api Analytics.

Local Open Scope Z_scope.

(* ================================================================== *)
(** * Hosts and events for the examples                                  *)
(* ================================================================== *)

Module Sample.

(** A reader of the date-time format of ECMAScript,
    [YYYY-MM-DD], [YYYY-MM-DDTHH:mm], [...:ss], [...:ss.sss], with a year
    of four digits or a sign and six digits, and an optional final [Z].
    A date alone and a date-time ending in [Z] are UTC; other date-times
    are local times.  Anything else is an invalid date. *)

Definition bind {A B : Type} (x : option A) (f : A -> option B) : option B :=
  match x with Some a => f a | None => None end.

Notation "x <- c ;; k" := (bind c (fun x => k))
  (at level 61, c at next level, right associativity).
Notation "' p <- c ;; k" := (bind c (fun p => k))
  (at level 61, p pattern, c at next level, right associativity).

Fixpoint digits (n : nat) (s : string) (acc : Z) : option (Z * string) :=
  match n with
  | O => Some (acc, s)
  | S n' =>
      match s with
      | String c rest =>
          d <- digit_value c ;; digits n' rest (10 * acc + Z.of_N d)
      | EmptyString => None
      end
  end.

Definition expect (c : ascii) (s : string) : option string :=
  match s with
  | String c' rest => if Ascii.eqb c c' then Some rest else None
  | EmptyString => None
  end.

Definition year (s : string) : option (Z * string) :=
  match s with
  | String "+" rest => digits 6 rest 0
  | String "-" rest => '(y, rest') <- digits 6 rest 0 ;; Some (- y, rest')
  | _ => digits 4 s 0
  end.

(** Seconds and milliseconds, when present. *)
Definition seconds (s : string) : option (Z * string) :=
  match s with
  | String ":" rest =>
      '(ss, rest) <- digits 2 rest 0 ;;
      match rest with
      | String "." rest' =>
          '(ms, rest') <- digits 3 rest' 0 ;; Some (ss * 1000 + ms, rest')
      | _ => Some (ss * 1000, rest)
      end
  | _ => Some (0, s)
  end.

Definition parse (tza_local : Z -> Z) (s : string) : option Z :=
  '(y, s) <- year s ;;
  s <- expect "-" s ;;
  '(m, s) <- digits 2 s 0 ;;
  s <- expect "-" s ;;
  '(d, s) <- digits 2 s 0 ;;
  if negb ((1 <=? m) && (m <=? 12) && (1 <=? d) && (d <=? 31)) then None else
  let day := MakeDay y (m - 1) d in
  match s with
  | EmptyString => Some (MakeDate day 0)
  | _ =>
      s <- expect "T" s ;;
      '(hh, s) <- digits 2 s 0 ;;
      s <- expect ":" s ;;
      '(mm, s) <- digits 2 s 0 ;;
      '(ms, s) <- seconds s ;;
      if negb ((hh <=? 23) && (mm <=? 59) && (ms <=? 59999)) then None else
      let t := MakeDate day (hh * msPerHour + mm * 60000 + ms) in
      match s with
      | EmptyString => Some (t - tza_local t)
      | String "Z" EmptyString => Some t
      | _ => None
      end
  end.

(** A host whose local time is UTC. *)
Definition utc : Host :=
  {| Date_parse := parse (fun _ => 0);
     LocalTZA_at_utc := fun _ => 0;
     LocalTZA_at_local := fun _ => 0 |}.

(** A host in Bucharest around the end of summer time in 2026: three
    hours ahead of UTC until 2026-10-25T01:00Z, two hours afterwards. *)
Definition summer_time_ends : Z := 1792890000000.

Definition bucharest : Host :=
  let at_local t := if t <? summer_time_ends + 3 * msPerHour
                    then 3 * msPerHour else 2 * msPerHour in
  {| Date_parse := parse at_local;
     LocalTZA_at_utc :=
       fun t => if t <? summer_time_ends then 3 * msPerHour else 2 * msPerHour;
     LocalTZA_at_local := at_local |}.

Definition event (code : AlertCode) (tags : list string) (reported_at : string)
  : Event :=
  {| id := "1"; location := {| type := "Point"; coordinates := (26.1025, 44.4268)%Q;
                               address := None |};
     alert_code := code; description := ""; tags := tags;
     reporter_id := "u1"; image_id := None; reported_at := reported_at |}.

(** The two events of the scenario of the specification. *)
Definition fire : Event := event RED ["fire"]%string "2024-03-15T10:00".
Definition smoke : Event := event GREEN ["fire"; "smoke"]%string "2024-03-15T14:00".

End Sample.

(* ================================================================== *)
(** * What the analytics page draws from its results                     *)
(* ================================================================== *)

Module AnalyticsView.

(** [topTags[0]?.count || 1], the divisor of the bars of the tag list. *)
Definition first_count_or_1 (topTags : list TagBucket) : prim :=
  match topTags with
  | [] => PNum 1
  | first :: _ =>
      match tag_count first with
      | PNum n => if n =? 0 then PNum 1 else PNum n
      | PStr s => if (s =? "")%string then PNum 1 else PStr s
      end
  end.

(** The width of the bar of [tag], in percent:
    [(tag.count / (topTags[0]?.count || 1)) * 100]. *)
Definition bar_width (topTags : list TagBucket) (tag : TagBucket) : number :=
  mul (div (to_number (tag_count tag)) (to_number (first_count_or_1 topTags)))
      (of_Z 100).

End AnalyticsView.

(* ================================================================== *)
(** * Strings as the pages use them                                      *)
(* ================================================================== *)

Module JSString.

(** [s.slice(n)] *)
Fixpoint drop (n : nat) (s : string) : string :=
  match n, s with
  | O, _ => s
  | S n', String _ rest => drop n' rest
  | S _, EmptyString => EmptyString
  end.

(** [s.includes(q)]: [q] starts at some position of [s]. *)
Fixpoint includes (s q : string) : bool :=
  String.prefix q s ||
  match s with
  | String _ rest => includes rest q
  | EmptyString => false
  end.

(** [s.replace(pattern, replacement)] for a string [pattern] and a
    [replacement] without [$]: the first occurrence only. *)
Fixpoint replace (s pattern replacement : string) : string :=
  if String.prefix pattern s
  then (replacement ++ drop (String.length pattern) s)%string
  else match s with
       | String c rest => String c (replace rest pattern replacement)
       | EmptyString => EmptyString
       end.

(** [a.includes(x)] on an array of strings. *)
Definition Array_includes (a : list string) (x : string) : bool :=
  existsb (String.eqb x) a.

(** [s.toLowerCase()] for a text [s] of ASCII characters only: the
    letters A to Z become a to z and nothing else changes.  On other
    text [String.prototype.toLowerCase] follows the case mappings of
    Unicode, which do not go character by character (a capital sigma at
    the end of a word, for one).  The pages are therefore modelled over
    an arbitrary [toLowerCase], and this function stands for it only in
    examples whose texts are ASCII. *)
Definition lower (c : ascii) : ascii :=
  let n := N_of_ascii c in
  if ((65 <=? n) && (n <=? 90))%N then ascii_of_N (n + 32) else c.

Fixpoint toLowerCase_ASCII (s : string) : string :=
  match s with
  | EmptyString => EmptyString
  | String c rest => String (lower c) (toLowerCase_ASCII rest)
  end.

End JSString.

(* ================================================================== *)
(** * The rest of the [api] module                                       *)
(* ================================================================== *)

Module ApiClient.
Import JSString.




Inductive Role : Set := role_user | role_admin.

Record User : Set := {
  id : string;
  first_name : string;
  last_name : string;
  email : string;
  phone : string;
  role : Role
}.

(** A request as the backend sees it: the method and path, the
    [Authorization] header and, for a login, the credentials. *)
Inductive endpoint : Set :=
| POST_auth_login (email password : string)
| GET_auth_me.

Record sent_request : Set := {
  target : endpoint;
  Authorization : option string
}.

(** The browser and the backend around one client: the item ['token'] of
    [localStorage], the requests sent so far, oldest first, and the
    answers the backend will give to the logins and to the [getMe]
    calls, in order ([None] for a rejected request). *)
Record World : Set := {
  token : option string;
  sent : list sent_request;
  login_answers : list (option string);   (* [res.data.access_token] *)
  me_answers : list (option User)
}.

Definition setItem_token (v : string) (w : World) : World :=
  {| token := Some v; sent := sent w; login_answers := login_answers w;
     me_answers := me_answers w |}.

Definition removeItem_token (w : World) : World :=
  {| token := None; sent := sent w; login_answers := login_answers w;
     me_answers := me_answers w |}.

(** The request interceptor: a header when the stored token is truthy. *)
Definition interceptor (w : World) (target : endpoint) : sent_request :=
  {| target := target;
     Authorization :=
       match token w with
       | Some token => if (token =? "")%string then None
                       else Some ("Bearer " ++ token)%string
       | None => None
       end |}.

Definition answer {A : Type} (a : option (option A)) : outcome A :=
  match a with
  | Some (Some data) => Resolved data
  | Some None => Thrown
  | None => Pending
  end.

(** [authApi.login] and [authApi.getMe] *)
Definition login (email password : string) (w : World) : outcome string * World :=
  (answer (hd_error (login_answers w)),
   {| token := token w;
      sent := sent w ++ [interceptor w (POST_auth_login email password)];
      login_answers := tl (login_answers w);
      me_answers := me_answers w |}).

Definition getMe (w : World) : outcome User * World :=
  (answer (hd_error (me_answers w)),
   {| token := token w;
      sent := sent w ++ [interceptor w GET_auth_me];
      login_answers := login_answers w;
      me_answers := tl (me_answers w) |}).

End ApiClient.

(* ================================================================== *)
(** * The authentication context of the web client                      *)
(* ================================================================== *)

Module AuthContext.
Import ApiClient.

Record AuthState : Set := { user : option User; isLoading : bool }.

Definition setUser (v : option User) (st : AuthState) : AuthState :=
  {| user := v; isLoading := isLoading st |}.
Definition setIsLoading (v : bool) (st : AuthState) : AuthState :=
  {| user := user st; isLoading := v |}.

(** [!!user] *)
Definition isAuthenticated (st : AuthState) : bool :=
  match user st with Some _ => true | None => false end.

(** The state of the provider when it is mounted. *)
Definition mounted : AuthState := {| user := None; isLoading := true |}.

Definition checkAuth (st : AuthState) (w : World) : AuthState * World :=
  match token w with
  | Some (String _ _) =>
      match getMe w with
      | (Resolved userData, w) => (setIsLoading false (setUser (Some userData) st), w)
      | (Thrown, w) => (setIsLoading false st, removeItem_token w)
      | (Pending, w) => (st, w)
      end
  | _ => (setIsLoading false st, w)
  end.

Definition login (email password : string) (st : AuthState) (w : World)
  : outcome unit * AuthState * World :=
  match ApiClient.login email password w with
  | (Resolved access_token, w) =>
      let w := setItem_token access_token w in
      match getMe w with
      | (Resolved userData, w) => (Resolved tt, setUser (Some userData) st, w)
      | (Thrown, w) => (Thrown, st, w)
      | (Pending, w) => (Pending, st, w)
      end
  | (Thrown, w) => (Thrown, st, w)
  | (Pending, w) => (Pending, st, w)
  end.

Definition logout (st : AuthState) (w : World) : AuthState * World :=
  (setUser None st, removeItem_token w).

End AuthContext.

(* ================================================================== *)
(** * The events page of the web client and the list of the mobile one  *)
(* ================================================================== *)

Module HomePage.
Import JSString.

(** [a === b] on two numbers: false as soon as one is NaN. *)
Definition strict_eq (a b : option Z) : bool :=
  match a, b with
  | Some x, Some y => x =? y
  | _, _ => false
  end.

Inductive DateFilter : Set := date_today | date_all.

Record AlertStats : Set := {
  RED_events : nat;
  ORANGE_events : nat;
  YELLOW_events : nat;
  GREEN_events : nat
}.

(** [evts.filter(e => e.alert_code === code).length] *)
Definition with_code (code : string) (evts : list Event) : nat :=
  List.length (filter (fun e => (code_name (alert_code e) =? code)%string) evts).

Definition getAlertStats (evts : list Event) : AlertStats :=
  {| RED_events := with_code "RED" evts;
     ORANGE_events := with_code "ORANGE" evts;
     YELLOW_events := with_code "YELLOW" evts;
     GREEN_events := with_code "GREEN" evts |}.

Section Page.
Variable host : Host.
Variable toLowerCase : string -> string.

Definition getFullYear (d : Date) : option Z :=
  option_map (fun t => YearFromTime (LocalTime host t)) d.

(** [now] is the reading of the clock by [new Date()]. *)
Definition isEventFromToday (now : Z) (event : Event) : bool :=
  let eventDate := new_Date host (reported_at event) in
  let today : Date := Some now in
  strict_eq (getFullYear eventDate) (getFullYear today) &&
  strict_eq (getMonth host eventDate) (getMonth host today) &&
  strict_eq (getDate host eventDate) (getDate host today).

Definition searchFilteredEvents (events : list Event) (searchQuery : string)
  : list Event :=
  filter (fun e =>
            (searchQuery =? "")%string ||
            includes (toLowerCase (description e)) (toLowerCase searchQuery) ||
            existsb (fun t => includes (toLowerCase t) (toLowerCase searchQuery))
                    (tags e))
         events.

(** One reading of the clock for each event looked at under "today";
    under "all" the clock is not read and every event is kept. *)
Definition mapEvents (dateFilter : DateFilter) (clock : nat -> Z)
    (searchFilteredEvents : list Event) : list Event :=
  filter_clocked 1
    (fun clock e =>
       match dateFilter with
       | date_all => true
       | date_today => isEventFromToday (clock 0%nat) e
       end)
    clock searchFilteredEvents.
End Page.

End HomePage.

Module EventsListScreen.
Import JSString.

Section Screen.
Variable toLowerCase : string -> string.

Definition filteredEvents (events : list Event) (searchQuery : string)
  : list Event :=
  filter (fun event =>
            if negb (searchQuery =? "")%string
            then
              let query := toLowerCase searchQuery in
              includes (toLowerCase (description event)) query ||
              existsb (fun tag => includes (toLowerCase tag) query) (tags event)
            else true)
         events.
End Screen.

End EventsListScreen.

(* ================================================================== *)
(** * The tags of a report, on the web page and on the mobile screen     *)
(* ================================================================== *)

Module ReportPage.
Import JSString.

Record TagsState : Set := { tags : list string; tagInput : string }.

Definition setTagInput (v : string) (st : TagsState) : TagsState :=
  {| tags := tags st; tagInput := v |}.

Section Tags.
(** [String.prototype.trim] *)
Variable trim : string -> string.

Definition addTag (st : TagsState) : TagsState :=
  if negb (trim (tagInput st) =? "")%string
     && negb (Array_includes (tags st) (trim (tagInput st)))
  then {| tags := tags st ++ [trim (tagInput st)]; tagInput := "" |}
  else st.

Definition removeTag (tag : string) (st : TagsState) : TagsState :=
  {| tags := filter (fun t => negb (t =? tag)%string) (tags st);
     tagInput := tagInput st |}.

(** What the user can do to the tags. *)
Inductive action : Set :=
| type_text (text : string)
| press_add
| delete_chip (tag : string).

Definition step (st : TagsState) (a : action) : TagsState :=
  match a with
  | type_text text => setTagInput text st
  | press_add => addTag st
  | delete_chip tag => removeTag tag st
  end.
End Tags.

(** The state of a new form. *)
Definition empty_form : TagsState := {| tags := []; tagInput := "" |}.

End ReportPage.

(* ================================================================== *)
(** * Sending a report (web) and the image of a report (mobile)          *)
(* ================================================================== *)

Module ReportSubmit.

(** The body of [POST /events]. *)
Module EventCreate.
Record t : Type := {
  location : Location;
  alert_code : string;
  description : string;
  tags : list string
}.
End EventCreate.

(** What [handleSubmit] asks of the [api] module; a file is known by its
    name. *)
Inductive call : Type :=
| create (data : EventCreate.t)
| uploadImage (eventId : string) (file : string).

(** An answer of the backend: the data, or a rejection with
    [err.response?.data?.detail] when the answer has one. *)
Inductive reply (A : Type) : Type :=
| Answered (data : A)
| Refused (detail : option string).
Arguments Answered {A} data.
Arguments Refused {A} detail.

(** The answers the backend will give to the creations and to the
    uploads, in order, and the calls made so far, oldest first. *)
Record Backend : Type := {
  create_answers : list (reply Event);
  upload_answers : list (reply unit);
  calls : list call
}.

(** The state of the form; [position] is [lat, lng]. *)
Record Form : Type := {
  position : Q * Q;
  address : string;
  alertCode : string;
  description : string;
  tags : list string;
  image : option string;
  loading : bool;
  error : string;
  success : bool
}.

Definition setLoading (v : bool) (f : Form) : Form :=
  {| position := position f; address := address f; alertCode := alertCode f;
     description := description f; tags := tags f; image := image f;
     loading := v; error := error f; success := success f |}.
Definition setError (v : string) (f : Form) : Form :=
  {| position := position f; address := address f; alertCode := alertCode f;
     description := description f; tags := tags f; image := image f;
     loading := loading f; error := v; success := success f |}.
Definition setSuccess (v : bool) (f : Form) : Form :=
  {| position := position f; address := address f; alertCode := alertCode f;
     description := description f; tags := tags f; image := image f;
     loading := loading f; error := error f; success := v |}.

(** [err.response?.data?.detail || 'Error submitting report'] *)
Definition detail_or_default (detail : option string) : string :=
  match detail with
  | Some d => if (d =? "")%string then "Error submitting report" else d
  | None => "Error submitting report"
  end.

Definition eventData (f : Form) : EventCreate.t :=
  {| EventCreate.location :=
       {| type := "Point";
          coordinates := (snd (position f), fst (position f));
          Api.address := if (address f =? "")%string then None else Some (address f) |};
     EventCreate.alert_code := alertCode f;
     EventCreate.description := description f;
     EventCreate.tags := tags f |}.

Definition called (c : call) (b : Backend) : Backend :=
  {| create_answers := create_answers b; upload_answers := upload_answers b;
     calls := calls b ++ [c] |}.

(** [eventsApi.create] and [eventsApi.uploadImage]: the answer, [None]
    while it has not come, and the backend afterwards. *)
Definition eventsApi_create (data : EventCreate.t) (b : Backend)
  : option (reply Event) * Backend :=
  (hd_error (create_answers b),
   {| create_answers := tl (create_answers b); upload_answers := upload_answers b;
      calls := calls b ++ [create data] |}).

Definition eventsApi_uploadImage (eventId file : string) (b : Backend)
  : option (reply unit) * Backend :=
  (hd_error (upload_answers b),
   {| create_answers := create_answers b; upload_answers := tl (upload_answers b);
      calls := calls b ++ [uploadImage eventId file] |}).

Section Submit.
(** [String.prototype.trim] *)
Variable trim : string -> string.

(** [handleSubmit], up to the navigation that follows a success.  While
    an answer has not come the [finally] block has not run. *)
Definition handleSubmit (f : Form) (b : Backend) : Form * Backend :=
  if (trim (description f) =? "")%string
  then (setError "Description is required" f, b)
  else
    let f := setError "" (setLoading true f) in
    match eventsApi_create (eventData f) b with
    | (None, b) => (f, b)
    | (Some (Refused detail), b) =>
        (setLoading false (setError (detail_or_default detail) f), b)
    | (Some (Answered event), b) =>
        match image f with
        | None => (setLoading false (setSuccess true f), b)
        | Some file =>
            match eventsApi_uploadImage (id event) file b with
            | (None, b) => (f, b)
            | (Some (Refused detail), b) =>
                (setLoading false (setError (detail_or_default detail) f), b)
            | (Some (Answered _), b) => (setLoading false (setSuccess true f), b)
            end
        end
    end.
End Submit.

End ReportSubmit.

Module MobileApi.

(** [s.split(sep)] for a separator of one character. *)
Fixpoint split (sep : ascii) (s : string) : list string :=
  match s with
  | EmptyString => [EmptyString]
  | String c rest =>
      if Ascii.eqb c sep then EmptyString :: split sep rest
      else match split sep rest with
           | part :: parts => String c part :: parts
           | [] => [String c EmptyString]
           end
  end.

(** [uriParts[uriParts.length - 1]] of [imageUri.split('.')] *)
Definition fileType (imageUri : string) : string :=
  last (split "." imageUri) "undefined"%string.

(** The file part of the form sent by [uploadImage] outside the web. *)
Record FilePart : Set := { uri : string; name : string; type : string }.

Definition file_part (imageUri : string) : FilePart :=
  {| uri := imageUri;
     name := ("image." ++ fileType imageUri)%string;
     type := ("image/" ++ fileType imageUri)%string |}.

End MobileApi.

(* ================================================================== *)
(** * Vocabulary of the statements                                       *)
(* ================================================================== *)

(** A page that does not end the fetch. *)
Definition full_page (page : list Event) : Prop :=
  (page_limit <= List.length page)%nat.

(** A key that [Object.prototype] does not define. *)
Definition ordinary (key : string) : Prop := Object_prototype key = None.

(** An object whose own values are all numbers. *)
Definition numeric (o : object) : Prop :=
  Forall (fun p => exists n, snd p = PNum n) o.

(** The number stored under [key], 0 when there is none. *)
Definition stored (o : object) (key : string) : Z :=
  match own o key with Some (PNum n) => n | _ => 0 end.

(** How many times [key] occurs in [keys]. *)
Definition occurrences (key : string) (keys : list string) : Z :=
  Z.of_nat (count_occ string_dec keys key).

(** Counting where a predicate holds. *)
Definition count_where {A : Type} (p : A -> bool) (l : list A) : Z :=
  Z.of_nat (List.length (filter p l)).

(** [x] belongs to bucket [i] of the dimension [index]. *)
Definition falls_in {A : Type} (index : A -> option Z) (i : Z) (x : A) : bool :=
  match index x with Some j => j =? i | None => false end.

(** The sum of a list of counts. *)
Definition Zsum (l : list Z) : Z := fold_right Z.add 0 l.

(** Days before March-based year [y] of an era. *)
Definition days_before_year (y : Z) : Z := 365 * y + y / 4 - y / 100.

(** The civil date read as the number yyyymmdd. *)
Definition ymd (date : Z * Z * Z) : Z :=
  let '(y, m, d) := date in y * 10000 + m * 100 + d.

(** The same for day [doe] of an era, the year counted inside the era. *)
Definition era_ymd (doe : Z) : Z :=
  let '(yoe, m, d) := date_of_era_day doe in
  ymd (yoe + (if m <=? 2 then 1 else 0), m, d).

(** The calendar as ECMAScript words it, to compare [civil] with: the day
    number of 1 January of year [y], the length of a year, the day inside
    the year, and the days of a year before month [m] (0..12) when the
    year has [365 + leap] days. *)
Definition DayFromYear (y : Z) : Z :=
  365 * (y - 1970) + (y - 1969) / 4 - (y - 1901) / 100 + (y - 1601) / 400.

Definition DaysInYear (y : Z) : Z := DayFromYear (y + 1) - DayFromYear y.

Definition DayWithinYear (t : Z) : Z := Day t - DayFromYear (YearFromTime t).

Definition days_before_month (leap m : Z) : Z :=
  if m =? 0 then 0 else if m =? 1 then 31 else if m =? 2 then 59 + leap
  else if m =? 3 then 90 + leap else if m =? 4 then 120 + leap
  else if m =? 5 then 151 + leap else if m =? 6 then 181 + leap
  else if m =? 7 then 212 + leap else if m =? 8 then 243 + leap
  else if m =? 9 then 273 + leap else if m =? 10 then 304 + leap
  else if m =? 11 then 334 + leap else 365 + leap.

(** The month, weekday and hour of an event, as the getters see them. *)
Definition month_of (host : Host) (e : Event) : option Z :=
  getMonth host (new_Date host (reported_at e)).
Definition weekday_of (host : Host) (e : Event) : option Z :=
  getDay host (new_Date host (reported_at e)).
Definition hour_of (host : Host) (e : Event) : option Z :=
  getHours host (new_Date host (reported_at e)).

(** [reported_at] is a string [new Date] can read. *)
Definition parseable (host : Host) (e : Event) : Prop :=
  exists t, new_Date host (reported_at e) = Some t.

(** Equality of severities, and the events of one severity. *)
Definition code_eqb (a b : AlertCode) : bool :=
  match a, b with
  | GREEN, GREEN | YELLOW, YELLOW | ORANGE, ORANGE | RED, RED => true
  | _, _ => false
  end.

Definition has_code (c : AlertCode) (e : Event) : bool := code_eqb (alert_code e) c.

Definition alert_codes : list AlertCode := [GREEN; YELLOW; ORANGE; RED].

(** The labels of [processEventsByHour]. *)
Definition hourLabels : list string :=
  ["00:00"; "01:00"; "02:00"; "03:00"; "04:00"; "05:00"; "06:00"; "07:00";
   "08:00"; "09:00"; "10:00"; "11:00"; "12:00"; "13:00"; "14:00"; "15:00";
   "16:00"; "17:00"; "18:00"; "19:00"; "20:00"; "21:00"; "22:00"; "23:00"]%string.

(** A field that shows a number: not NaN, not an infinity. *)
Definition shows_number (s : stat) : Prop :=
  match s with
  | Num (Fin _) | Text (Tenths _ _) => True
  | _ => False
  end.

(** [reported_at] reads as a date at or after [cutoff]. *)
Definition reported_since (host : Host) (cutoff : Z) (e : Event) : bool :=
  match new_Date host (reported_at e) with
  | Some t => cutoff <=? t
  | None => false
  end.

(** A page showing one event reported on 23 October 2026 at 09:30 UTC,
    looked at on 30 October 2026 at 10:00 UTC (noon in Bucharest) with the
    range "7d": summer time ended in between. *)
Definition late_october_now : Z := 1793354400000.


(** The scenario of the specification for the range "7d", at the same
    instant: an event dated exactly 8 days before now and one dated exactly
    6 days 23 hours before now. *)
Definition eight_days_old : Event := Sample.event GREEN [] "2026-10-22T10:00:00Z".
Definition almost_seven_days_old : Event := Sample.event GREEN [] "2026-10-23T11:00:00Z".

Definition scenario_page : PageState :=
  {| events := [eight_days_old; almost_seven_days_old];
     loading := false; error := None; timeRange := Range7d |}.

(** The tags of all events, one after the other. *)
Definition all_tags (E : list Event) : list string := List.concat (map tags E).

(** The text of a civil date, as in [toISOString]. *)
Definition date_text (date : Z * Z * Z) : string :=
  let '(y, m, d) := date in
  (iso_year y ++ "-" ++ pad_digits 2 m "" ++ "-" ++ pad_digits 2 d "")%string.

(** A date with a year of four digits. *)
Definition four_digits (date : Z * Z * Z) : Prop :=
  let '(y, m, d) := date in 0 <= y <= 9999 /\ 1 <= m <= 12 /\ 1 <= d <= 31.

(** The date key of day number [d]. *)
Definition isoDay (d : Z) : string := isoDate (d * msPerDay).

(** The UTC day an event was reported on. *)
Definition day_of (host : Host) (e : Event) : option Z :=
  option_map Day (new_Date host (reported_at e)).

(** The event was reported on UTC day [d]. *)
Definition on_day (host : Host) (d : Z) (e : Event) : bool :=
  falls_in (day_of host) d e.

(** [reported_at] reads as a date in the years 0000 to 9999. *)
Definition four_digit_year (host : Host) (e : Event) : Prop :=
  exists t, new_Date host (reported_at e) = Some t /\ 0 <= YearFromTime t <= 9999.

(** The key under which [processEventsTrend] counts an event. *)
Definition date_key (host : Host) (e : Event) : string :=
  match new_Date host (reported_at e) with
  | Some t => isoDate t
  | None => ""%string
  end.

(** An event of the year 10000, whose date [toISOString] writes with a
    sign and six digits. *)
Definition year_10000 : Event :=
  Sample.event GREEN [] "+010000-01-01T00:00:00.000Z".

(** [x] may stand before [y] for [comparefn]: the answer is not positive. *)
Definition ordered_by {A : Type} (comparefn : A -> A -> option Z) (x y : A) : Prop :=
  before_or_equal comparefn x y = true.

(** [setTimeRange], the last setter of the state of the analytics page. *)
Definition setTimeRange (v : TimeRange) (st : PageState) : PageState :=
  {| events := events st; loading := loading st; error := error st;
     timeRange := v |}.

(** [reported_at] is a string [new Date] can read, as a test. *)
Definition readable (host : Host) (e : Event) : bool :=
  match new_Date host (reported_at e) with Some _ => true | None => false end.

(** The number a bucket shows. *)
Definition any_count (a : any) : Z :=
  match a with Prim (PNum n) => n | _ => 0 end.
Definition prim_count (p : prim) : Z :=
  match p with PNum n => n | PStr _ => 0 end.

(** The counts of the four fixed-dimension charts, as lists of integers. *)
Definition month_counts (host : Host) (E : list Event) : list Z :=
  map (fun b => any_count (month_count b)) (processEventsByMonth host E).
Definition alert_counts (E : list Event) : list Z :=
  map (fun b => prim_count (value b)) (processEventsByAlertCode E).
Definition weekday_counts (host : Host) (E : list Event) : list Z :=
  map day_count (processEventsByDayOfWeek host E).
Definition hour_counts (host : Host) (E : list Event) : list Z :=
  map hour_count (processEventsByHour host E).

(** Two lists of counts added position by position. *)
Definition pointwise_sum (l1 l2 : list Z) : list Z :=
  map (fun p => fst p + snd p) (combine l1 l2).



(** The range [r'] shows at least the days the range [r] shows. *)
Definition range_within (r r' : TimeRange) : bool :=
  match daysMap r, daysMap r' with
  | Some d, Some d' => d <=? d'
  | _, None => true
  | None, Some _ => false
  end.

(** The local calendar day an event was reported on, as a day number. *)
Definition local_day (host : Host) (e : Event) : option Z :=
  option_map (fun t => Day (LocalTime host t)) (new_Date host (reported_at e)).

(** The character [c] does not occur in [s]. *)
Fixpoint without (c : ascii) (s : string) : Prop :=
  match s with
  | EmptyString => True
  | String a rest => a <> c /\ without c rest
  end.

(** A backend that holds the events [db] and answers a request with the
    events it asks for: [limit] events from offset [skip]. *)
Definition serve (db : list Event) (r : request) : response :=
  Data (firstn (limit r) (skipn (skip r) db)).

(** [x] occurs in [keys] before any occurrence of [y]. *)
Definition appears_before (keys : list string) (x y : string) : Prop :=
  exists pre post, keys = pre ++ x :: post /\ ~ In y pre /\ x <> y.

(** [a] stands before [b] when its key is larger or, the keys being
    equal, when it came first. *)
Definition larger_then_earlier {A : Type} (key : A -> Z) (before : A -> A -> Prop)
    (a b : A) : Prop :=
  key b < key a \/ (key a = key b /\ before a b).

(** Half a unit in the last place of a number between 1 and 2: the
    bound of the relative error of one rounding. *)
Definition epsilon64 : Q := 1 # 9007199254740992.

Ltac decide_closed_tests :=
  repeat match goal with
         | |- context [if ?c then _ else _] =>
             let v := eval vm_compute in c in
             match v with
             | true => change c with true
             | false => change c with false
             end; cbv iota
         end.

Ltac digit_cases a :=
  let H := fresh in
  assert (H : a = 0 \/ a = 1 \/ a = 2 \/ a = 3 \/ a = 4 \/ a = 5 \/ a = 6 \/ a = 7
              \/ a = 8 \/ a = 9) by lia;
  decompose [or] H; clear H; subst a.

(* ================================================================== *)
(** * Properties of the paginated fetch                                  *)
(* ================================================================== *)

Local Open Scope nat_scope.

Lemma page_requests_snoc (from n : nat) :
  page_requests from (S n) =
  page_requests from n ++ [ {| skip := (from + n) * page_limit; limit := page_limit |} ].
Proof.
  unfold page_requests. rewrite seq_S, map_app. reflexivity.
Qed.

Lemma page_requests_cons (from n : nat) :
  page_requests from (S n) =
  {| skip := from * page_limit; limit := page_limit |} :: page_requests (S from) n.
Proof. reflexivity. Qed.

(** The loop, started at page number [k] with [acc] already collected,
    reads the full pages and fails or stops at the first answer that is
    not a full page. *)
Lemma loop_full_pages (full : list (list Event)) :
  Forall full_page full ->
  forall (tail : list response) (acc : list Event) (k : nat) (sent : list request),
    getAllForAnalytics_loop (map Data full ++ tail) acc (k * page_limit) sent =
    getAllForAnalytics_loop tail (acc ++ List.concat full)
      ((k + List.length full) * page_limit)
      (sent ++ page_requests k (List.length full)).
Proof.
  induction 1 as [| page full Hpage _ IH]; intros tail acc k sent.
  - cbn [map app List.concat List.length page_requests seq].
    rewrite !app_nil_r, Nat.add_0_r. reflexivity.
  - cbn [map app List.concat List.length getAllForAnalytics_loop].
    unfold full_page in Hpage.
    destruct (Nat.ltb_spec (List.length page) page_limit) as [Hlt | _]; [lia |].
    replace (k * page_limit + page_limit) with (S k * page_limit) by lia.
    rewrite IH, page_requests_cons, <- !app_assoc.
    replace (S k + List.length full) with (k + S (List.length full)) by lia.
    reflexivity.
Qed.

Lemma loop_short_page (last : list Event) (rest : list response)
    (acc : list Event) (skip : nat) (sent : list request) :
  List.length last < page_limit ->
  getAllForAnalytics_loop (Data last :: rest) acc skip sent =
  {| result := Resolved (acc ++ last);
     requests := sent ++ [ {| skip := skip; limit := page_limit |} ];
     unread := rest |}.
Proof.
  intros Hlt. cbn [getAllForAnalytics_loop].
  destruct (Nat.ltb_spec (List.length last) page_limit); [reflexivity | lia].
Qed.

Lemma getAllForAnalytics_resolves (full : list (list Event)) (last : list Event)
    (rest : list response) :
  Forall full_page full ->
  List.length last < page_limit ->
  getAllForAnalytics (map Data full ++ Data last :: rest) =
  {| result := Resolved (List.concat full ++ last);
     requests := page_requests 0 (S (List.length full));
     unread := rest |}.
Proof.
  intros Hfull Hlast. unfold getAllForAnalytics.
  pose proof (loop_full_pages full Hfull (Data last :: rest) [] 0 []) as Hloop.
  change (0 * page_limit) with 0 in Hloop. rewrite Hloop.
  rewrite loop_short_page by exact Hlast.
  rewrite page_requests_snoc, <- app_assoc. reflexivity.
Qed.

Lemma getAllForAnalytics_rejects (full : list (list Event)) (rest : list response) :
  Forall full_page full ->
  getAllForAnalytics (map Data full ++ Rejected :: rest) =
  {| result := Thrown;
     requests := page_requests 0 (S (List.length full));
     unread := rest |}.
Proof.
  intros Hfull. unfold getAllForAnalytics.
  pose proof (loop_full_pages full Hfull (Rejected :: rest) [] 0 []) as Hloop.
  change (0 * page_limit) with 0 in Hloop. rewrite Hloop.
  cbn [getAllForAnalytics_loop].
  rewrite page_requests_snoc, <- app_assoc. reflexivity.
Qed.

(** A backend that never sends a short page and never fails keeps the
    loop waiting: the fetch does not resolve on full pages alone. *)
Lemma getAllForAnalytics_pending (full : list (list Event)) :
  Forall full_page full ->
  result (getAllForAnalytics (map Data full)) = Pending.
Proof.
  intros Hfull. unfold getAllForAnalytics.
  pose proof (loop_full_pages full Hfull [] [] 0 []) as Hloop.
  change (0 * page_limit) with 0 in Hloop. rewrite app_nil_r in Hloop.
  rewrite Hloop. reflexivity.
Qed.

Lemma length_concat_sum {A : Type} (ls : list (list A)) :
  List.length (List.concat ls) = list_sum (map (@List.length A) ls).
Proof.
  induction ls as [| l ls IH]; [reflexivity |].
  cbn [List.concat map list_sum]. rewrite length_app, IH. reflexivity.
Qed.

(** C1.  Whatever the backend answers, [getAllForAnalytics] asks for pages
    of 100 at offsets 0, 100, 200, ..., appends the pages in the order of
    the requests and resolves at the first page shorter than 100; the
    answers after that page are never requested.  The result has as many
    events as the pages read. *)
Theorem getAllForAnalytics_pages
    (full : list (list Event)) (last : list Event) (rest : list response) :
  Forall (fun page => 100 <= List.length page) full ->
  List.length last < 100 ->
  let r := getAllForAnalytics (map Data full ++ Data last :: rest) in
  result r = Resolved (List.concat full ++ last) /\
  requests r =
    map (fun i => {| skip := i * 100; limit := 100 |}) (seq 0 (S (List.length full))) /\
  unread r = rest /\
  List.length (List.concat full ++ last) =
    list_sum (map (@List.length Event) full) + List.length last.
Proof.
  intros Hfull Hlast r. subst r.
  rewrite (getAllForAnalytics_resolves full last rest Hfull Hlast).
  cbn [result requests unread].
  repeat split. rewrite length_app, length_concat_sum. reflexivity.
Qed.

Lemma getAllForAnalytics_pages_witness :
  let r := getAllForAnalytics
             (map Data [repeat Sample.fire 100; repeat Sample.smoke 100]
              ++ Data (repeat Sample.fire 37) :: [Rejected]) in
  result r = Resolved (List.concat [repeat Sample.fire 100; repeat Sample.smoke 100]
                       ++ repeat Sample.fire 37) /\
  requests r = [ {| skip := 0; limit := 100 |}; {| skip := 100; limit := 100 |};
                 {| skip := 200; limit := 100 |} ] /\
  unread r = [Rejected] /\
  List.length (List.concat [repeat Sample.fire 100; repeat Sample.smoke 100]
               ++ repeat Sample.fire 37) = 237.
Proof.
  apply (getAllForAnalytics_pages
           [repeat Sample.fire 100; repeat Sample.smoke 100] (repeat Sample.fire 37)
           [Rejected]).
  - constructor; [| constructor; [| constructor]]; rewrite repeat_length; lia.
  - rewrite repeat_length. lia.
Defined.

(** The scenario of the specification: pages of 100, 100 and 37 events
    give 237 events after three requests. *)
Lemma getAllForAnalytics_100_100_37 (p1 p2 p3 : list Event) (rest : list response) :
  List.length p1 = 100 -> List.length p2 = 100 -> List.length p3 = 37 ->
  exists all : list Event,
    getAllForAnalytics (Data p1 :: Data p2 :: Data p3 :: rest) =
    {| result := Resolved all;
       requests := [ {| skip := 0; limit := 100 |}; {| skip := 100; limit := 100 |};
                     {| skip := 200; limit := 100 |} ];
       unread := rest |} /\
    List.length all = 237.
Proof.
  intros H1 H2 H3. exists (List.concat [p1; p2] ++ p3). split.
  - apply (getAllForAnalytics_resolves [p1; p2] p3 rest).
    + repeat constructor; unfold full_page, page_limit; lia.
    + unfold page_limit; lia.
  - cbn [List.concat]. rewrite !length_app, H1, H2, H3. reflexivity.
Qed.

(** C9.  When a page request fails, after any number of full pages, the
    promise of [getAllForAnalytics] rejects and carries no events;
    [loadEvents] then leaves [events] as it was, sets the message
    "Could not load data from server" and clears [loading].  The failed
    request is the last one sent: nothing is asked again. *)
Theorem loadEvents_failed_fetch
    (st : PageState) (full : list (list Event)) (rest : list response) :
  Forall (fun page => 100 <= List.length page) full ->
  let backend := map Data full ++ Rejected :: rest in
  let r := getAllForAnalytics backend in
  let st' := fst (loadEvents st backend) in
  result r = Thrown /\
  snd (loadEvents st backend) = r /\
  requests r =
    map (fun i => {| skip := i * 100; limit := 100 |}) (seq 0 (S (List.length full))) /\
  unread r = rest /\
  events st' = events st /\
  error st' = Some "Could not load data from server"%string /\
  loading st' = false /\
  timeRange st' = timeRange st.
Proof.
  intros Hfull backend r st'. subst st' r backend. unfold loadEvents.
  rewrite (getAllForAnalytics_rejects full rest Hfull).
  cbn. repeat split.
Qed.

Lemma loadEvents_failed_fetch_witness :
  let st := {| events := [Sample.fire]; loading := false; error := None;
               timeRange := RangeAll |} in
  let backend := map Data [repeat Sample.smoke 100] ++ Rejected :: [Data []] in
  result (getAllForAnalytics backend) = Thrown /\
  requests (getAllForAnalytics backend)
    = [ {| skip := 0; limit := 100 |}; {| skip := 100; limit := 100 |} ] /\
  unread (getAllForAnalytics backend) = [Data []] /\
  events (fst (loadEvents st backend)) = [Sample.fire] /\
  error (fst (loadEvents st backend)) = Some "Could not load data from server"%string /\
  loading (fst (loadEvents st backend)) = false.
Proof.
  intros st backend.
  destruct (loadEvents_failed_fetch st [repeat Sample.smoke 100] [Data []])
    as (H1 & _ & H3 & H4 & H5 & H6 & H7 & _).
  - constructor; [| constructor]. rewrite repeat_length. lia.
  - split; [exact H1 | split; [exact H3 | split; [exact H4 |
      split; [exact H5 | split; [exact H6 | exact H7]]]]].
Defined.

(** On success the page shows exactly the fetched events. *)
Lemma loadEvents_resolved
    (st : PageState) (full : list (list Event)) (last : list Event)
    (rest : list response) :
  Forall full_page full ->
  List.length last < page_limit ->
  fst (loadEvents st (map Data full ++ Data last :: rest)) =
  {| events := List.concat full ++ last; loading := false; error := None;
     timeRange := timeRange st |}.
Proof.
  intros Hfull Hlast. unfold loadEvents.
  rewrite (getAllForAnalytics_resolves full last rest Hfull Hlast). reflexivity.
Qed.

(* ================================================================== *)
(** * Objects as counters                                                *)
(* ================================================================== *)

Local Open Scope Z_scope.

Lemma ordinary_not_proto (key : string) :
  ordinary key -> (key =? "__proto__")%string = false.
Proof.
  unfold ordinary, Object_prototype. intros H.
  destruct (key =? "__proto__")%string; [discriminate | reflexivity].
Qed.

Lemma own_put_same (o : object) (key : string) (v : prim) :
  own (put o key v) key = Some v.
Proof.
  induction o as [| [k w] o IH]; cbn.
  - now rewrite String.eqb_refl.
  - destruct (k =? key)%string eqn:E; cbn; rewrite E; [reflexivity | exact IH].
Qed.

Lemma own_put_other (o : object) (key key' : string) (v : prim) :
  key' <> key -> own (put o key v) key' = own o key'.
Proof.
  intros Hne. induction o as [| [k w] o IH]; cbn.
  - destruct (String.eqb_spec key key'); [congruence | reflexivity].
  - destruct (String.eqb_spec k key) as [-> | Hk]; cbn.
    + destruct (String.eqb_spec key key'); [congruence | reflexivity].
    + rewrite IH. reflexivity.
Qed.

Lemma own_None_keys (o : object) (key : string) :
  own o key = None <-> ~ In key (map fst o).
Proof.
  induction o as [| [k w] o IH]; cbn.
  - tauto.
  - destruct (String.eqb_spec k key) as [-> | Hk].
    + split; [discriminate | intros H; exfalso; apply H; now left].
    + rewrite IH. tauto.
Qed.

Lemma keys_put_own (o : object) (key : string) (v : prim) :
  In key (map fst o) -> map fst (put o key v) = map fst o.
Proof.
  induction o as [| [k w] o IH]; cbn; [tauto |].
  intros [-> | Hin].
  - now rewrite String.eqb_refl.
  - destruct (String.eqb_spec k key) as [-> | Hk]; cbn; [reflexivity |].
    now rewrite IH.
Qed.

Lemma keys_put_new (o : object) (key : string) (v : prim) :
  ~ In key (map fst o) -> map fst (put o key v) = map fst o ++ [key].
Proof.
  induction o as [| [k w] o IH]; cbn; [reflexivity |].
  intros Hnin. destruct (String.eqb_spec k key) as [-> | Hk]; [tauto |].
  cbn. rewrite IH; tauto.
Qed.

Lemma numeric_put (o : object) (key : string) (n : Z) :
  numeric o -> numeric (put o key (PNum n)).
Proof.
  unfold numeric. induction 1 as [| [k w] o Hw Ho IH]; cbn.
  - repeat constructor. now exists n.
  - destruct (k =? key)%string; constructor; auto. now exists n.
Qed.

Lemma own_numeric (o : object) (key : string) (v : prim) :
  numeric o -> own o key = Some v -> exists n, v = PNum n.
Proof.
  unfold numeric. induction 1 as [| [k w] o Hw Ho IH]; cbn; [discriminate |].
  destruct (k =? key)%string; [| exact IH].
  intros [= <-]. exact Hw.
Qed.

(** On a numeric object an ordinary key is counted as intended. *)
Lemma count_up_ordinary (o : object) (key : string) :
  ordinary key -> numeric o ->
  count_up o key = put o key (PNum (stored o key + 1)).
Proof.
  intros Hord Hnum. unfold count_up, set, get, stored.
  rewrite (ordinary_not_proto key Hord).
  destruct (own o key) as [v |] eqn:Hown.
  - destruct (own_numeric o key v Hnum Hown) as [n ->]. cbn.
    destruct (Z.eqb_spec n 0) as [-> | _]; reflexivity.
  - unfold ordinary in Hord. rewrite Hord. reflexivity.
Qed.

Lemma occurrences_cons (key k : string) (keys : list string) :
  occurrences key (k :: keys) =
  (if (k =? key)%string then 1 else 0) + occurrences key keys.
Proof.
  unfold occurrences. cbn [count_occ].
  destruct (string_dec k key) as [-> | Hne].
  - rewrite String.eqb_refl. lia.
  - destruct (String.eqb_spec k key); [congruence | lia].
Qed.

Lemma occurrences_nonneg (key : string) (keys : list string) :
  0 <= occurrences key keys.
Proof. unfold occurrences. lia. Qed.

Lemma occurrences_pos (key : string) (keys : list string) :
  In key keys <-> 0 < occurrences key keys.
Proof.
  unfold occurrences. rewrite (count_occ_In string_dec). lia.
Qed.

(** Counting a list of ordinary keys into a numeric object. *)
Lemma count_all_ordinary (keys : list string) :
  Forall ordinary keys ->
  forall o : object,
    numeric o ->
    let o' := fold_left count_up keys o in
    numeric o' /\
    (forall key, stored o' key = stored o key + occurrences key keys) /\
    (forall key, In key (map fst o') <-> In key (map fst o) \/ In key keys) /\
    (incl keys (map fst o) -> map fst o' = map fst o) /\
    (NoDup (map fst o) -> NoDup (map fst o')).
Proof.
  induction 1 as [| k keys Hk _ IH]; intros o Hnum; cbn [fold_left].
  - split; [exact Hnum | split; [| split; [| split]]]; auto.
    + intros key. unfold occurrences. cbn. lia.
    + cbn. tauto.
  - rewrite (count_up_ordinary o k Hk Hnum).
    set (o1 := put o k (PNum (stored o k + 1))).
    assert (Hnum1 : numeric o1) by now apply numeric_put.
    destruct (IH o1 Hnum1) as (Hn & Hst & Hkeys & Hincl & Hnd).
    assert (Hkeys1 : forall key, In key (map fst o1) <-> In key (map fst o) \/ key = k).
    { intros key. subst o1.
      destruct (in_dec string_dec k (map fst o)) as [Hin | Hnin].
      - rewrite keys_put_own by exact Hin. split; [tauto |].
        intros [H | ->]; assumption.
      - rewrite keys_put_new by exact Hnin. rewrite in_app_iff. cbn.
        split; intros [H | H]; auto; try tauto. destruct H; [auto | tauto]. }
    split; [exact Hn | split; [| split; [| split]]].
    + intros key. rewrite Hst, occurrences_cons. subst o1. unfold stored.
      destruct (String.eqb_spec k key) as [-> | Hne].
      * rewrite own_put_same. lia.
      * rewrite own_put_other by congruence. lia.
    + intros key. rewrite Hkeys, Hkeys1. cbn. intuition auto.
    + intros Hsub.
      assert (Hin : In k (map fst o)) by (apply Hsub; now left).
      rewrite Hincl; subst o1; rewrite keys_put_own by exact Hin; [reflexivity |].
      intros x Hx. apply Hsub. now right.
    + intros Hnodup. apply Hnd. subst o1.
      destruct (in_dec string_dec k (map fst o)) as [Hin | Hnin].
      * now rewrite keys_put_own.
      * rewrite keys_put_new by exact Hnin.
        apply NoDup_app; [exact Hnodup | repeat constructor; cbn; tauto |].
        intros x Hx [<- | []]. tauto.
Qed.

Lemma get_stored (o : object) (key : string) :
  numeric o -> In key (map fst o) -> get o key = Prim (PNum (stored o key)).
Proof.
  intros Hnum Hin. unfold get, stored.
  destruct (own o key) as [v |] eqn:Hown.
  - destruct (own_numeric o key v Hnum Hown) as [n ->]. reflexivity.
  - apply own_None_keys in Hown. contradiction.
Qed.

Lemma own_first (o : object) (k : string) (v : prim) :
  NoDup (map fst o) -> In (k, v) o -> own o k = Some v.
Proof.
  induction o as [| [k' w] o IH]; cbn; [tauto |].
  intros Hnd [[= -> ->] | Hin].
  - now rewrite String.eqb_refl.
  - inversion Hnd as [| ? ? Hnin Hnd']; subst.
    destruct (String.eqb_spec k' k) as [-> | _]; [| now apply IH].
    exfalso. apply Hnin. apply (in_map fst) in Hin. exact Hin.
Qed.

(** A numeric object is determined by its keys and what is stored. *)
Lemma numeric_object_eq (o : object) :
  numeric o -> NoDup (map fst o) ->
  o = map (fun key => (key, PNum (stored o key))) (map fst o).
Proof.
  intros Hnum Hnd. rewrite map_map.
  rewrite <- (map_id o) at 1. apply map_ext_in.
  intros [k v] Hin. cbn. unfold stored.
  rewrite (own_first o k v Hnd Hin).
  unfold numeric in Hnum. rewrite Forall_forall in Hnum.
  destruct (Hnum _ Hin) as [n Hn]. cbn in Hn. now subst v.
Qed.

Lemma fold_left_keys {A : Type} (f : A -> string) (l : list A) (o : object) :
  fold_left (fun o x => count_up o (f x)) l o = fold_left count_up (map f l) o.
Proof.
  revert o. induction l as [| x l IH]; intros o; cbn; [reflexivity | apply IH].
Qed.

Lemma indexed_entries_named (o : object) :
  Forall (fun p => array_index (fst p) = None) o -> indexed_entries o = [].
Proof.
  induction 1 as [| [k v] o Hk _ IH]; [reflexivity |].
  cbn [indexed_entries fst] in *. now rewrite Hk.
Qed.

Lemma named_entries_named (o : object) :
  Forall (fun p => array_index (fst p) = None) o -> named_entries o = o.
Proof.
  unfold named_entries.
  induction 1 as [| [k v] o Hk _ IH]; [reflexivity |].
  cbn [filter fst] in *. now rewrite Hk, IH.
Qed.

(** Without array-index keys [Object.entries] lists the properties in
    creation order. *)
Lemma Object_entries_named (o : object) :
  Forall (fun p => array_index (fst p) = None) o -> Object_entries o = o.
Proof.
  intros H. unfold Object_entries.
  now rewrite indexed_entries_named, named_entries_named.
Qed.

Lemma count_where_cons {A : Type} (p : A -> bool) (x : A) (l : list A) :
  count_where p (x :: l) = (if p x then 1 else 0) + count_where p l.
Proof.
  unfold count_where. cbn [filter]. destruct (p x); cbn [List.length]; lia.
Qed.

Lemma count_where_nonneg {A : Type} (p : A -> bool) (l : list A) :
  0 <= count_where p l.
Proof. unfold count_where. lia. Qed.

Lemma count_where_le {A : Type} (p : A -> bool) (l : list A) :
  count_where p l <= Z.of_nat (List.length l).
Proof. unfold count_where. pose proof (filter_length_le p l). lia. Qed.

Lemma count_where_none {A : Type} (p : A -> bool) (l : list A) :
  (forall x, In x l -> p x = false) -> count_where p l = 0.
Proof.
  induction l as [| x l IH]; intros H; [reflexivity |].
  rewrite count_where_cons, (H x (or_introl eq_refl)), IH; [reflexivity |].
  intros y Hy. apply H. now right.
Qed.

Lemma occurrences_map {A : Type} (f : A -> string) (key : string) (l : list A) :
  occurrences key (map f l) = count_where (fun x => (f x =? key)%string) l.
Proof.
  induction l as [| x l IH]; [reflexivity |].
  cbn [map]. rewrite occurrences_cons, count_where_cons, IH. reflexivity.
Qed.

Lemma count_where_ext {A : Type} (p q : A -> bool) (l : list A) :
  (forall x, In x l -> p x = q x) -> count_where p l = count_where q l.
Proof.
  induction l as [| x l IH]; intros H; [reflexivity |].
  rewrite !count_where_cons, (H x (or_introl eq_refl)), IH; [reflexivity |].
  intros y Hy. apply H. now right.
Qed.

Lemma Zsum_cons (x : Z) (l : list Z) : Zsum (x :: l) = x + Zsum l.
Proof. reflexivity. Qed.

Lemma Zsum_indicator (j : Z) (from n : nat) :
  Zsum (map (fun i => if j =? Z.of_nat i then 1 else 0) (seq from n)) =
  if (Z.of_nat from <=? j) && (j <? Z.of_nat (from + n)) then 1 else 0.
Proof.
  revert from. induction n as [| n IH]; intros from; cbn [seq map].
  - destruct (Z.leb_spec (Z.of_nat from) j), (Z.ltb_spec j (Z.of_nat (from + 0)));
      cbn; lia.
  - rewrite Zsum_cons, IH.
    destruct (Z.eqb_spec j (Z.of_nat from)), (Z.leb_spec (Z.of_nat (S from)) j),
      (Z.ltb_spec j (Z.of_nat (S from + n))), (Z.leb_spec (Z.of_nat from) j),
      (Z.ltb_spec j (Z.of_nat (from + S n))); cbn; lia.
Qed.

Lemma buckets_partition {A : Type} (index : A -> option Z) (n : nat) (l : list A) :
  Forall (fun x => exists j, index x = Some j /\ 0 <= j < Z.of_nat n) l ->
  Zsum (map (fun i => count_where (falls_in index (Z.of_nat i)) l) (seq 0 n)) =
  Z.of_nat (List.length l).
Proof.
  induction 1 as [| x l (j & Hj & Hrange) _ IH].
  - induction (seq 0 n) as [| i s IHs]; [reflexivity |].
    cbn [map]. rewrite Zsum_cons, IHs. reflexivity.
  - transitivity
      (Zsum (map (fun i => if j =? Z.of_nat i then 1 else 0) (seq 0 n)) +
       Zsum (map (fun i => count_where (falls_in index (Z.of_nat i)) l) (seq 0 n))).
    + clear IH. induction (seq 0 n) as [| i s IHs]; [reflexivity |].
      cbn [map]. rewrite !Zsum_cons, IHs, count_where_cons.
      unfold falls_in at 1. rewrite Hj. lia.
    + rewrite IH, Zsum_indicator.
      destruct (Z.leb_spec (Z.of_nat 0) j), (Z.ltb_spec j (Z.of_nat (0 + n)));
        cbn [andb List.length]; lia.
Qed.

(* ================================================================== *)
(** * The calendar                                                       *)
(* ================================================================== *)

Lemma year_of_era_spec (doe : Z) :
  0 <= doe < daysPerEra ->
  let yoe := (doe - doe / 1460 + doe / 36524 - doe / 146096) / 365 in
  0 <= yoe <= 399 /\
  days_before_year yoe <= doe /\
  (doe < days_before_year (yoe + 1) \/ doe = 146096).
Proof.
  intros H yoe. subst yoe. unfold daysPerEra, days_before_year in *.
  destruct (Z.eq_dec doe 146096) as [-> | Hne].
  - Z.div_mod_to_equations. lia.
  - assert (doe < 146096) by lia. Z.div_mod_to_equations. lia.
Qed.

(** Month and day inside a March-based year. *)
Lemma month_of_year_day (doy : Z) :
  0 <= doy <= 365 ->
  let mp := (5 * doy + 2) / 153 in
  let d := doy - (153 * mp + 2) / 5 + 1 in
  0 <= mp <= 11 /\ 1 <= d <= 31 /\ (mp = 11 -> d <= 29) /\
  doy < (153 * (mp + 1) + 2) / 5.
Proof.
  intros H mp d. subst d mp. Z.div_mod_to_equations. lia.
Qed.

Lemma date_of_era_day_spec (doe : Z) :
  0 <= doe < daysPerEra ->
  exists yoe mp d,
    date_of_era_day doe = (yoe, (if mp <? 10 then mp + 3 else mp - 9), d) /\
    0 <= yoe <= 399 /\ 0 <= mp <= 11 /\ 1 <= d <= 31 /\ (mp = 11 -> d <= 29) /\
    doe = days_before_year yoe + (153 * mp + 2) / 5 + d - 1 /\
    (doe < days_before_year (yoe + 1) \/ doe = 146096) /\
    (153 * mp + 2) / 5 + d - 1 < (153 * (mp + 1) + 2) / 5.
Proof.
  intros H. destruct (year_of_era_spec doe H) as (Hy & Hlo & Hhi).
  set (yoe := (doe - doe / 1460 + doe / 36524 - doe / 146096) / 365) in *.
  set (doy := doe - days_before_year yoe).
  assert (Hdoy : 0 <= doy <= 365).
  { subst doy. unfold days_before_year in *. split; [lia |].
    destruct Hhi as [Hhi | ->].
    - Z.div_mod_to_equations. lia.
    - subst yoe. Z.div_mod_to_equations. lia. }
  destruct (month_of_year_day doy Hdoy) as (Hmp & Hd & Hfeb & Hlen).
  exists yoe, ((5 * doy + 2) / 153), (doy - (153 * ((5 * doy + 2) / 153) + 2) / 5 + 1).
  repeat split; try lia; try tauto.
Qed.

Lemma month_range (day : Z) : 1 <= snd (fst (civil day)) <= 12.
Proof.
  unfold civil.
  assert (H : 0 <= (day + epochShift) mod daysPerEra < daysPerEra)
    by (apply Z.mod_pos_bound; reflexivity).
  destruct (date_of_era_day_spec _ H) as (yoe & mp & d & -> & _ & Hmp & _).
  cbn [fst snd]. destruct (Z.ltb_spec mp 10); lia.
Qed.

Lemma MonthFromTime_range (t : Z) : 0 <= MonthFromTime t <= 11.
Proof. unfold MonthFromTime. pose proof (month_range (Day t)). lia. Qed.

Lemma WeekDay_range (t : Z) : 0 <= WeekDay t <= 6.
Proof. unfold WeekDay. pose proof (Z.mod_pos_bound (Day t + 4) 7). lia. Qed.

Lemma HourFromTime_range (t : Z) : 0 <= HourFromTime t <= 23.
Proof. unfold HourFromTime. pose proof (Z.mod_pos_bound (t / msPerHour) 24). lia. Qed.

(** [MakeDay] on the year and month of a day moves inside that month. *)
Lemma MakeDay_civil (day dt : Z) :
  let '(y, m, d) := civil day in MakeDay y (m - 1) dt = day + dt - d.
Proof.
  unfold civil.
  assert (H : 0 <= (day + epochShift) mod daysPerEra < daysPerEra)
    by (apply Z.mod_pos_bound; reflexivity).
  destruct (date_of_era_day_spec _ H)
    as (yoe & mp & d & -> & Hy & Hmp & Hd & _ & Hdoe & _).
  set (era := (day + epochShift) / daysPerEra) in *.
  assert (Hday : day + epochShift = daysPerEra * era + (day + epochShift) mod daysPerEra)
    by (apply Z.div_mod; discriminate).
  set (m := if mp <? 10 then mp + 3 else mp - 9).
  assert (Hm : 1 <= m <= 12) by (subst m; destruct (Z.ltb_spec mp 10); lia).
  unfold MakeDay.
  replace ((m - 1) / 12) with 0 by (symmetry; apply Z.div_small; lia).
  replace ((m - 1) mod 12 + 1) with m by (rewrite Z.mod_small; lia).
  set (y := if m <=? 2 then yoe + 400 * era + (if m <=? 2 then 1 else 0) + 0 - 1
            else yoe + 400 * era + (if m <=? 2 then 1 else 0) + 0).
  assert (Hyv : y = yoe + 400 * era) by (subst y; destruct (Z.leb_spec m 2); lia).
  rewrite Hyv.
  replace ((yoe + 400 * era) / 400) with era
    by (apply (Z.div_unique_pos _ 400 era yoe); lia).
  replace ((yoe + 400 * era) mod 400) with yoe
    by (apply (Z.mod_unique_pos _ 400 era yoe); lia).
  unfold era_day_of_date.
  replace (if 2 <? m then m - 3 else m + 9) with mp
    by (subst m; destruct (Z.ltb_spec mp 10);
        [destruct (Z.ltb_spec 2 (mp + 3)) | destruct (Z.ltb_spec 2 (mp - 9))]; lia).
  unfold days_before_year in Hdoe. lia.
Qed.

Lemma era_ymd_mono (doe1 doe2 : Z) :
  0 <= doe1 -> doe1 < doe2 -> doe2 < daysPerEra ->
  era_ymd doe1 < era_ymd doe2.
Proof.
  intros H0 Hlt H2.
  destruct (date_of_era_day_spec doe1 ltac:(lia))
    as (y1 & mp1 & d1 & E1 & Hy1 & Hmp1 & Hd1 & Hf1 & Hdoe1 & Hhi1 & _).
  destruct (date_of_era_day_spec doe2 ltac:(lia))
    as (y2 & mp2 & d2 & E2 & Hy2 & Hmp2 & Hd2 & Hf2 & Hdoe2 & Hhi2 & _).
  unfold era_ymd, ymd. rewrite E1, E2.
  unfold daysPerEra, days_before_year in *.
  assert (Hy : y1 <= y2).
  { destruct Hhi1 as [Hhi1 | ->]; [| lia].
    destruct (Z_le_gt_dec y1 y2) as [Hle | Hgt]; [exact Hle | exfalso].
    Z.div_mod_to_equations. lia. }
  destruct (Z.ltb_spec mp1 10), (Z.ltb_spec mp2 10);
    repeat match goal with
           | |- context [?a <=? 2] => destruct (Z.leb_spec a 2); try lia
           end;
    destruct (Z.eq_dec y1 y2) as [-> | Hne];
    try (Z.div_mod_to_equations; lia).
Qed.

Lemma era_ymd_bounds (doe : Z) :
  0 <= doe < daysPerEra -> 301 <= era_ymd doe <= 4000229.
Proof.
  intros H.
  assert (E0 : era_ymd 0 = 301) by reflexivity.
  assert (E1 : era_ymd 146096 = 4000229) by reflexivity.
  unfold daysPerEra in H.
  destruct (Z.eq_dec doe 0) as [-> | H0]; [lia |].
  destruct (Z.eq_dec doe 146096) as [-> | H1]; [lia |].
  pose proof (era_ymd_mono 0 doe ltac:(lia) ltac:(lia) ltac:(unfold daysPerEra; lia)).
  pose proof (era_ymd_mono doe 146096 ltac:(lia) ltac:(lia) ltac:(reflexivity)).
  lia.
Qed.

Lemma civil_ymd (day : Z) :
  ymd (civil day) =
  era_ymd ((day + epochShift) mod daysPerEra)
  + 4000000 * ((day + epochShift) / daysPerEra).
Proof.
  unfold civil, era_ymd, ymd.
  destruct (date_of_era_day ((day + epochShift) mod daysPerEra)) as [[yoe m] d].
  lia.
Qed.

(** Later days have later dates. *)
Lemma civil_ymd_mono (day1 day2 : Z) :
  day1 < day2 -> ymd (civil day1) < ymd (civil day2).
Proof.
  intros Hlt. rewrite !civil_ymd.
  pose proof (Z.mod_pos_bound (day1 + epochShift) daysPerEra eq_refl) as B1.
  pose proof (Z.mod_pos_bound (day2 + epochShift) daysPerEra eq_refl) as B2.
  pose proof (Z.div_mod (day1 + epochShift) daysPerEra ltac:(discriminate)) as D1.
  pose proof (Z.div_mod (day2 + epochShift) daysPerEra ltac:(discriminate)) as D2.
  pose proof (era_ymd_bounds _ B1). pose proof (era_ymd_bounds _ B2).
  set (e1 := (day1 + epochShift) / daysPerEra) in *.
  set (e2 := (day2 + epochShift) / daysPerEra) in *.
  set (r1 := (day1 + epochShift) mod daysPerEra) in *.
  set (r2 := (day2 + epochShift) mod daysPerEra) in *.
  unfold daysPerEra in *.
  destruct (Z.lt_trichotomy e1 e2) as [He | [He | He]]; [lia | | lia].
  rewrite He in *.
  pose proof (era_ymd_mono r1 r2 ltac:(lia) ltac:(lia) ltac:(unfold daysPerEra; lia)).
  lia.
Qed.

Lemma civil_ymd_compare (day1 day2 : Z) :
  Z.compare (ymd (civil day1)) (ymd (civil day2)) = Z.compare day1 day2.
Proof.
  destruct (Z.compare_spec day1 day2) as [-> | H | H].
  - apply Z.compare_refl.
  - apply Z.compare_lt_iff. now apply civil_ymd_mono.
  - apply Z.compare_gt_iff. now apply civil_ymd_mono.
Qed.

(** ** Agreement with the calendar of ECMAScript

    [YearFromTime t] is the year [y] with
    [DayFromYear y <= Day t < DayFromYear (y + 1)], and [MonthFromTime],
    [DateFromTime] split the day inside the year by the lengths of the
    months, February having 28 or 29 days. *)

Lemma YearFromTime_spec (t : Z) :
  DayFromYear (YearFromTime t) <= Day t < DayFromYear (YearFromTime t + 1).
Proof.
  unfold YearFromTime, civil. generalize (Day t) as day. clear t. intros day.
  assert (H : 0 <= (day + epochShift) mod daysPerEra < daysPerEra)
    by (apply Z.mod_pos_bound; reflexivity).
  destruct (date_of_era_day_spec _ H)
    as (yoe & mp & d & -> & Hy & Hmp & Hd & Hfeb & Hdoe & Hhi & _).
  pose proof (Z.div_mod (day + epochShift) daysPerEra ltac:(discriminate)) as Hday.
  set (era := (day + epochShift) / daysPerEra) in *.
  set (doe := (day + epochShift) mod daysPerEra) in *.
  cbn [fst snd]. unfold DayFromYear, days_before_year, epochShift, daysPerEra in *.
  destruct (Z.ltb_spec mp 10);
    [destruct (Z.leb_spec (mp + 3) 2) | destruct (Z.leb_spec (mp - 9) 2)]; try lia;
    Z.div_mod_to_equations; lia.
Qed.

Lemma MonthFromTime_spec (t : Z) :
  let leap := DaysInYear (YearFromTime t) - 365 in
  0 <= leap <= 1 /\
  days_before_month leap (MonthFromTime t) <= DayWithinYear t
    < days_before_month leap (MonthFromTime t + 1) /\
  DateFromTime t = DayWithinYear t - days_before_month leap (MonthFromTime t) + 1.
Proof.
  unfold DayWithinYear, DaysInYear, MonthFromTime, DateFromTime, YearFromTime, civil.
  generalize (Day t) as day. clear t. intros day.
  assert (H : 0 <= (day + epochShift) mod daysPerEra < daysPerEra)
    by (apply Z.mod_pos_bound; reflexivity).
  destruct (date_of_era_day_spec _ H)
    as (yoe & mp & d & -> & Hy & Hmp & Hd & Hfeb & Hdoe & Hhi & Hlen).
  pose proof (Z.div_mod (day + epochShift) daysPerEra ltac:(discriminate)) as Hday.
  set (era := (day + epochShift) / daysPerEra) in *.
  set (doe := (day + epochShift) mod daysPerEra) in *.
  cbn [fst snd]. unfold days_before_month.
  unfold DayFromYear, days_before_year, epochShift, daysPerEra in *.
  assert (Hc : mp = 0 \/ mp = 1 \/ mp = 2 \/ mp = 3 \/ mp = 4 \/ mp = 5 \/ mp = 6
               \/ mp = 7 \/ mp = 8 \/ mp = 9 \/ mp = 10 \/ mp = 11) by lia.
  decompose [or] Hc; subst mp; clear Hc; decide_closed_tests; cbv zeta;
    (Z.div_mod_to_equations; lia).
Qed.

Example civil_examples :
  civil 0 = (1970, 1, 1) /\ WeekDay 0 = 4 /\
  civil 11016 = (2000, 2, 29) /\ civil 11017 = (2000, 3, 1) /\
  civil 19797 = (2024, 3, 15) /\ WeekDay (19797 * msPerDay) = 5 /\
  civil (-1) = (1969, 12, 31) /\ civil 47540 = (2100, 2, 28) /\
  civil 47541 = (2100, 3, 1) /\
  isoDate (19797 * msPerDay + 10 * msPerHour) = "2024-03-15"%string.
Proof. repeat split. Qed.

Section HostDates.
Variable host : Host.

(** [d.setDate(d.getDate() - n)] moves the local time back by [n] days. *)
Lemma days_earlier_local (u n : Z) :
  days_earlier host (Some u) n =
  Some (UTC host (LocalTime host u - n * msPerDay)).
Proof.
  unfold days_earlier, setDate, getDate. cbn [option_map].
  set (t := LocalTime host u).
  unfold YearFromTime, MonthFromTime, DateFromTime.
  pose proof (MakeDay_civil (Day t) (snd (civil (Day t)) - n)) as HM.
  destruct (civil (Day t)) as [[y m] d]. cbn [fst snd] in *.
  rewrite HM. do 2 f_equal. unfold MakeDate, TimeWithinDay, Day.
  pose proof (Z.div_mod t msPerDay ltac:(discriminate)). lia.
Qed.

Lemma getMonth_index (s : string) (i : Z) :
  getMonth host (new_Date host s) = Some i -> 0 <= i <= 11.
Proof.
  unfold getMonth. destruct (new_Date host s); [| discriminate].
  intros [= <-]. apply MonthFromTime_range.
Qed.

(** The indices used on [dayCounts] and [hourCounts] are inside the
    arrays. *)
Lemma getDay_index (s : string) (i : Z) :
  getDay host (new_Date host s) = Some i -> 0 <= i <= 6.
Proof.
  unfold getDay. destruct (new_Date host s); [| discriminate].
  intros [= <-]. apply WeekDay_range.
Qed.

Lemma getHours_index (s : string) (i : Z) :
  getHours host (new_Date host s) = Some i -> 0 <= i <= 23.
Proof.
  unfold getHours. destruct (new_Date host s); [| discriminate].
  intros [= <-]. apply HourFromTime_range.
Qed.
End HostDates.

(* ================================================================== *)
(** * The fixed-dimension aggregators                                    *)
(* ================================================================== *)

Lemma name_key_cases (names : list string) (i : option Z) :
  name_key names i = "undefined"%string \/ In (name_key names i) names.
Proof.
  destruct i as [i |]; unfold name_key; [| now left].
  destruct (Z.leb_spec 0 i), (Z.ltb_spec i (Z.of_nat (List.length names)));
    cbn [andb]; auto.
  right. apply nth_In. lia.
Qed.

Lemma name_key_eqb (names : list string) (j : option Z) (i : nat) :
  NoDup names -> ~ In "undefined"%string names -> (i < List.length names)%nat ->
  (name_key names j =? nth i names "undefined")%string =
  match j with Some j => j =? Z.of_nat i | None => false end.
Proof.
  intros Hnd Hun Hi.
  assert (Hne : (("undefined" =? nth i names "undefined") = false)%string).
  { apply String.eqb_neq. intros E. apply Hun. rewrite E. now apply nth_In. }
  destruct j as [j |]; unfold name_key; [| exact Hne].
  destruct (Z.leb_spec 0 j), (Z.ltb_spec j (Z.of_nat (List.length names)));
    cbn [andb].
  - destruct (Z.eqb_spec j (Z.of_nat i)) as [-> | Hji].
    + rewrite Nat2Z.id. apply String.eqb_refl.
    + apply String.eqb_neq. intros E.
      apply (proj1 (NoDup_nth names "undefined"%string) Hnd) in E; lia.
  - rewrite Hne. symmetry. apply Z.eqb_neq. lia.
  - rewrite Hne. symmetry. apply Z.eqb_neq. lia.
  - rewrite Hne. symmetry. apply Z.eqb_neq. lia.
Qed.

Lemma monthNames_ordinary (key : string) :
  key = "undefined"%string \/ In key monthNames -> ordinary key.
Proof.
  intros [-> | H]; [reflexivity |].
  repeat (destruct H as [<- | H]; [reflexivity |]). destruct H.
Qed.

Lemma monthNames_NoDup : NoDup monthNames /\ ~ In "undefined"%string monthNames.
Proof.
  split.
  - repeat (constructor; [cbn; intuition discriminate |]). constructor.
  - cbn; intuition discriminate.
Qed.

Section Aggregators.
Variable host : Host.

(** Every month of [monthNames] is reported, with the number of events
    of that month. *)
Lemma processEventsByMonth_counts (E : list Event) :
  processEventsByMonth host E =
  map (fun i =>
         {| month := nth i monthNames "undefined"%string;
            month_count :=
              Prim (PNum (count_where (falls_in (month_of host) (Z.of_nat i)) E)) |})
      (seq 0 12).
Proof.
  unfold processEventsByMonth.
  set (init := fold_left (fun o m => set o m (PNum 0)) monthNames []).
  assert (Hnum0 : numeric init) by (repeat constructor; eexists; reflexivity).
  rewrite (fold_left_keys
             (fun event => name_key monthNames
                             (getMonth host (new_Date host (reported_at event))))).
  set (keys := map _ E).
  assert (Hord : Forall ordinary keys).
  { subst keys. apply Forall_forall. intros k Hk.
    apply in_map_iff in Hk. destruct Hk as (e & <- & _).
    apply monthNames_ordinary, name_key_cases. }
  destruct (count_all_ordinary keys Hord init Hnum0) as (Hnum & Hst & Hkeys & _).
  change monthNames with (map (fun i => nth i monthNames "undefined"%string) (seq 0 12)) at 1.
  rewrite map_map. apply map_ext_in. intros i Hi. apply in_seq in Hi.
  assert (Hin : In (nth i monthNames "undefined"%string) monthNames)
    by (apply nth_In; cbn; lia).
  f_equal. rewrite get_stored; [| exact Hnum | apply Hkeys; left; exact Hin].
  do 2 f_equal. rewrite Hst.
  replace (stored init (nth i monthNames "undefined"%string)) with 0.
  - subst keys. rewrite occurrences_map. cbn [Z.add].
    apply count_where_ext. intros e _.
    destruct monthNames_NoDup as [Hnd Hun].
    rewrite (name_key_eqb monthNames _ i Hnd Hun) by (cbn; lia). reflexivity.
  - clear - Hi. do 12 (destruct i as [| i]; [reflexivity |]). lia.
Qed.
End Aggregators.

(* ================================================================== *)
(** * Rounding to binary64                                               *)
(* ================================================================== *)

Lemma nearest_even_near (x : Q) :
  (x - (1 # 2) <= inject_Z (nearest_even x) /\ inject_Z (nearest_even x) <= x + (1 # 2))%Q.
Proof.
  unfold nearest_even.
  pose proof (Qfloor_le x) as Hlo. pose proof (Qlt_floor x) as Hhi.
  rewrite inject_Z_plus in Hhi. change (inject_Z 1) with 1%Q in Hhi.
  destruct (Qcompare_spec (x - inject_Z (Qfloor x)) (1 # 2)) as [E | L | G].
  - destruct (Z.even (Qfloor x)).
    + split; lra.
    + rewrite inject_Z_plus. change (inject_Z 1) with 1%Q. split; lra.
  - split; lra.
  - rewrite inject_Z_plus. change (inject_Z 1) with 1%Q. split; lra.
Qed.

Lemma nearest_even_below (x : Q) (z : Z) :
  (x <= inject_Z z)%Q -> nearest_even x <= z.
Proof.
  intros Hx. unfold nearest_even.
  pose proof (Qfloor_le x) as Hlo.
  assert (Hf : Qfloor x <= z) by (rewrite Zle_Qle; lra).
  destruct (Z.eq_dec (Qfloor x) z) as [E | E].
  - rewrite E in *.
    destruct (Qcompare_spec (x - inject_Z z) (1 # 2)) as [H | H | H]; try lra; lia.
  - destruct (Qcompare (x - inject_Z (Qfloor x)) (1 # 2)); try lia.
    destruct (Z.even (Qfloor x)); lia.
Qed.

Lemma nearest_even_above (x : Q) (z : Z) :
  (inject_Z z <= x)%Q -> z <= nearest_even x.
Proof.
  intros Hx. unfold nearest_even.
  pose proof (Qfloor_resp_le _ _ Hx) as Hf. rewrite Qfloor_Z in Hf.
  destruct (Qcompare (x - inject_Z (Qfloor x)) (1 # 2)); try lia.
  destruct (Z.even (Qfloor x)); lia.
Qed.

Lemma pow2_positive (k : Z) : (0 < pow2 k)%Q.
Proof.
  unfold pow2. destruct (0 <=? k) eqn:E.
  - apply Z.leb_le in E. unfold Qlt. cbn. pose proof (Z.pow_pos_nonneg 2 k). lia.
  - reflexivity.
Qed.

Lemma pow2_nonneg (k : Z) : 0 <= k -> pow2 k = inject_Z (2 ^ k).
Proof. intros H. unfold pow2. apply Z.leb_le in H. now rewrite H. Qed.

Lemma pow2_inverse (k k' : Z) : k + k' = 0 -> (pow2 k * pow2 k' == 1)%Q.
Proof.
  intros H.
  assert (Hpos : forall j, 0 < j -> (pow2 j * pow2 (- j) == 1)%Q).
  { intros j Hj. unfold pow2.
    destruct (Z.leb_spec 0 j); [| lia]. destruct (Z.leb_spec 0 (- j)); [lia |].
    rewrite Z.opp_involutive.
    pose proof (Z.pow_pos_nonneg 2 j ltac:(lia) ltac:(lia)) as Hp.
    unfold Qeq, Qmult. cbn [Qnum Qden]. rewrite Pos2Z.inj_mul, Z2Pos.id by exact Hp.
    lia. }
  destruct (Z.lt_trichotomy k 0) as [Hk | [Hk | Hk]].
  - replace k with (- k') by lia. rewrite Qmult_comm. apply Hpos. lia.
  - replace k with 0 by lia. replace k' with 0 by lia. reflexivity.
  - replace k' with (- k) by lia. apply Hpos. lia.
Qed.

(** The scaled value lies between 2^52 and 2^54. *)
Lemma scaled_range (a : Q) :
  (0 < a)%Q ->
  (inject_Z (2 ^ 52) < a * pow2 (53 - exponent_estimate a) /\
   a * pow2 (53 - exponent_estimate a) < inject_Z (2 ^ 54))%Q.
Proof.
  destruct a as [n d]. intros Hpos. unfold exponent_estimate. cbn [Qnum Qden].
  assert (Hn : 0 < n) by (unfold Qlt in Hpos; cbn in Hpos; lia).
  pose proof (Z.log2_spec n Hn) as [Hn1 Hn2].
  pose proof (Z.log2_spec (Z.pos d) eq_refl) as [Hd1 Hd2].
  pose proof (Z.log2_nonneg n) as Hln. pose proof (Z.log2_nonneg (Z.pos d)) as Hld.
  set (ln := Z.log2 n) in *. set (ld := Z.log2 (Z.pos d)) in *.
  rewrite Z.pow_succ_r in Hn2, Hd2 by assumption.
  pose proof (Z.pow_pos_nonneg 2 ln ltac:(lia) Hln) as HA.
  pose proof (Z.pow_pos_nonneg 2 ld ltac:(lia) Hld) as HB.
  unfold pow2. destruct (Z.leb_spec 0 (53 - (ln - ld))) as [Hs | Hs].
  - assert (Heq : 2 ^ (53 - (ln - ld)) * 2 ^ ln = 2 ^ 53 * 2 ^ ld).
    { rewrite <- !Z.pow_add_r by lia. f_equal. lia. }
    pose proof (Z.pow_pos_nonneg 2 (53 - (ln - ld)) ltac:(lia) Hs) as HP.
    set (P := 2 ^ (53 - (ln - ld))) in *. set (A := 2 ^ ln) in *. set (B := 2 ^ ld) in *.
    unfold Qlt, Qmult, inject_Z. cbn [Qnum Qden].
    rewrite Pos.mul_1_r. change (2 ^ 52) with 4503599627370496 in *.
    change (2 ^ 53) with 9007199254740992 in *. change (2 ^ 54) with 18014398509481984.
    split; nia.
  - assert (Heq : 2 ^ (- (53 - (ln - ld))) * 2 ^ 53 * 2 ^ ld = 2 ^ ln).
    { rewrite <- !Z.pow_add_r by lia. f_equal. lia. }
    pose proof (Z.pow_pos_nonneg 2 (- (53 - (ln - ld))) ltac:(lia) ltac:(lia)) as HP.
    set (P := 2 ^ (- (53 - (ln - ld)))) in *. set (A := 2 ^ ln) in *. set (B := 2 ^ ld) in *.
    unfold Qlt, Qmult, inject_Z. cbn [Qnum Qden].
    rewrite Pos2Z.inj_mul, Z2Pos.id by exact HP.
    change (2 ^ 52) with 4503599627370496 in *.
    change (2 ^ 53) with 9007199254740992 in *. change (2 ^ 54) with 18014398509481984.
    split; nia.
Qed.

Lemma pow2_negative_small (k : Z) : k < 0 -> (pow2 k <= 1 # 2)%Q.
Proof.
  intros Hk. unfold pow2. destruct (Z.leb_spec 0 k); [lia |].
  assert (H2 : 2 ^ 1 <= 2 ^ (- k)) by (apply Z.pow_le_mono_r; lia).
  change (2 ^ 1) with 2 in H2.
  unfold Qle. cbn [Qnum Qden]. rewrite Z2Pos.id by lia. lia.
Qed.

Lemma pow2_succ (k : Z) : 0 <= k -> (pow2 (k + 1) == 2 * pow2 k)%Q.
Proof.
  intros Hk. rewrite !pow2_nonneg by lia. rewrite Z.pow_add_r by lia.
  rewrite Z.mul_comm, inject_Z_mult. reflexivity.
Qed.

Section PositiveRounding.
Variable a : Q.
Hypothesis a_positive : (0 < a)%Q.

Lemma scaled_back :
  (a * pow2 (53 - exponent_estimate a) * pow2 (exponent_estimate a - 53) == a)%Q.
Proof.
  rewrite <- Qmult_assoc, (pow2_inverse (53 - _) (_ - 53)) by lia.
  apply Qmult_1_r.
Qed.

Lemma binary64_positive_error :
  (a - a * epsilon64 <= binary64_positive a /\
   binary64_positive a <= a + a * epsilon64)%Q.
Proof.
  pose proof (scaled_range a a_positive) as [Hlo Hhi].
  pose proof (pow2_positive (exponent_estimate a - 53)) as Hu.
  pose proof scaled_back as Hmu.
  change (inject_Z (2 ^ 52)) with (4503599627370496 # 1) in Hlo.
  unfold binary64_positive. cbv zeta.
  set (e := exponent_estimate a) in *.
  set (m := (a * pow2 (53 - e))%Q) in *. set (u := pow2 (e - 53)) in *.
  assert (Hscale : forall r : Q,
             (m - m * epsilon64 <= r -> r <= m + m * epsilon64 ->
              a - a * epsilon64 <= r * u /\ r * u <= a + a * epsilon64)%Q).
  { intros r H1 H2.
    setoid_replace (a - a * epsilon64)%Q with ((m - m * epsilon64) * u)%Q
      by (rewrite <- Hmu; ring).
    setoid_replace (a + a * epsilon64)%Q with ((m + m * epsilon64) * u)%Q
      by (rewrite <- Hmu; ring).
    split; apply Qmult_le_compat_r; try assumption; now apply Qlt_le_weak. }
  unfold epsilon64 in *.
  destruct (Qcompare_spec m (inject_Z (2 ^ 53))) as [E | L | G].
  - change (inject_Z (2 ^ 53)) with (9007199254740992 # 1) in E.
    pose proof (nearest_even_near (m * (1 # 2))) as [N1 N2].
    apply Hscale; rewrite inject_Z_mult; change (inject_Z 2) with 2%Q; lra.
  - pose proof (nearest_even_near m) as [N1 N2]. apply Hscale; lra.
  - change (inject_Z (2 ^ 53)) with (9007199254740992 # 1) in G.
    pose proof (nearest_even_near (m * (1 # 2))) as [N1 N2].
    apply Hscale; rewrite inject_Z_mult; change (inject_Z 2) with 2%Q; lra.
Qed.

Lemma scale_nonneg_of_small :
  (a < inject_Z (2 ^ 53))%Q -> 0 <= 53 - exponent_estimate a.
Proof.
  intros Ha. set (e := exponent_estimate a).
  destruct (Z.lt_ge_cases (53 - e) 0) as [Hneg | Hs]; [| exact Hs].
  exfalso.
  pose proof (scaled_range a a_positive) as [Hlo _]. fold e in Hlo.
  pose proof (pow2_negative_small _ Hneg) as Hp.
  pose proof (pow2_positive (53 - e)) as Hp0.
  assert (H : (a * pow2 (53 - e) <= a * (1 # 2))%Q).
  { rewrite !(Qmult_comm a). apply Qmult_le_compat_r; [exact Hp | now apply Qlt_le_weak]. }
  change (inject_Z (2 ^ 52)) with (4503599627370496 # 1) in Hlo.
  change (inject_Z (2 ^ 53)) with (9007199254740992 # 1) in Ha.
  lra.
Qed.

Lemma scale_positive_of_large :
  (a < inject_Z (2 ^ 53))%Q ->
  (inject_Z (2 ^ 53) <= a * pow2 (53 - exponent_estimate a))%Q ->
  0 <= 53 - exponent_estimate a - 1.
Proof.
  intros Ha Hm. pose proof (scale_nonneg_of_small Ha) as Hs.
  set (e := exponent_estimate a) in *.
  destruct (Z.eq_dec (53 - e) 0) as [H0 | H0]; [| lia].
  exfalso. rewrite H0 in Hm. change (pow2 0) with 1%Q in Hm.
  rewrite Qmult_1_r in Hm. apply (Qlt_not_le _ _ Ha Hm).
Qed.

(** No number of 53 bits lies between [a] and the result of rounding it:
    an integer below 2^53 that is above [a] is above the result, and one
    that is below [a] is below the result. *)
Lemma binary64_positive_below (z : Z) :
  (a <= inject_Z z)%Q -> z < 2 ^ 53 -> (binary64_positive a <= inject_Z z)%Q.
Proof.
  intros Haz Hz.
  assert (Ha53 : (a < inject_Z (2 ^ 53))%Q).
  { apply Qle_lt_trans with (inject_Z z); [exact Haz | now rewrite <- Zlt_Qlt]. }
  pose proof (scale_nonneg_of_small Ha53) as Hs.
  pose proof (scale_positive_of_large Ha53) as Hs1.
  set (e := exponent_estimate a) in *.
  set (m := (a * pow2 (53 - e))%Q) in *. set (u := pow2 (e - 53)) in *.
  pose proof (pow2_positive (53 - e)) as Hp0.
  pose proof (pow2_positive (e - 53)) as Hu. fold u in Hu.
  pose proof (pow2_inverse (53 - e) (e - 53) ltac:(lia)) as Hinv. fold u in Hinv.
  assert (Hm : (m <= inject_Z z * pow2 (53 - e))%Q).
  { subst m. apply Qmult_le_compat_r; [exact Haz | now apply Qlt_le_weak]. }
  assert (Hback : forall R : Z, R <= z * 2 ^ (53 - e) ->
                                (inject_Z R * u <= inject_Z z)%Q).
  { intros R HR.
    setoid_replace (inject_Z z) with (inject_Z (z * 2 ^ (53 - e)) * u)%Q
      by (rewrite inject_Z_mult, <- pow2_nonneg, <- Qmult_assoc, Hinv by exact Hs; ring).
    apply Qmult_le_compat_r; [now rewrite <- Zle_Qle | now apply Qlt_le_weak]. }
  assert (Hlarge : (inject_Z (2 ^ 53) <= m)%Q ->
                   (inject_Z (2 * nearest_even (m * (1 # 2))) * u <= inject_Z z)%Q).
  { intros Hge. specialize (Hs1 Hge).
    apply Hback.
    replace (53 - e) with (53 - e - 1 + 1) by lia.
    rewrite Z.pow_add_r by lia. change (2 ^ 1) with 2.
    enough (nearest_even (m * (1 # 2)) <= z * 2 ^ (53 - e - 1)) by lia.
    apply nearest_even_below. rewrite inject_Z_mult, <- pow2_nonneg by exact Hs1.
    pose proof (pow2_succ _ Hs1) as H2.
    replace (53 - e - 1 + 1) with (53 - e) in H2 by lia.
    rewrite H2 in Hm. lra. }
  unfold binary64_positive. cbv zeta. fold e. fold m. fold u.
  destruct (Qcompare_spec m (inject_Z (2 ^ 53))) as [E | L | G].
  - apply Hlarge. rewrite E. apply Qle_refl.
  - apply Hback. apply nearest_even_below.
    rewrite inject_Z_mult, <- pow2_nonneg by exact Hs. exact Hm.
  - apply Hlarge. now apply Qlt_le_weak.
Qed.

Lemma binary64_positive_above (z : Z) :
  (inject_Z z <= a)%Q -> (a < inject_Z (2 ^ 53))%Q ->
  (inject_Z z <= binary64_positive a)%Q.
Proof.
  intros Hza Ha53.
  pose proof (scale_nonneg_of_small Ha53) as Hs.
  pose proof (scale_positive_of_large Ha53) as Hs1.
  set (e := exponent_estimate a) in *.
  set (m := (a * pow2 (53 - e))%Q) in *. set (u := pow2 (e - 53)) in *.
  pose proof (pow2_positive (53 - e)) as Hp0.
  pose proof (pow2_positive (e - 53)) as Hu. fold u in Hu.
  pose proof (pow2_inverse (53 - e) (e - 53) ltac:(lia)) as Hinv. fold u in Hinv.
  assert (Hm : (inject_Z z * pow2 (53 - e) <= m)%Q).
  { subst m. apply Qmult_le_compat_r; [exact Hza | now apply Qlt_le_weak]. }
  assert (Hback : forall R : Z, z * 2 ^ (53 - e) <= R ->
                                (inject_Z z <= inject_Z R * u)%Q).
  { intros R HR.
    setoid_replace (inject_Z z) with (inject_Z (z * 2 ^ (53 - e)) * u)%Q
      by (rewrite inject_Z_mult, <- pow2_nonneg, <- Qmult_assoc, Hinv by exact Hs; ring).
    apply Qmult_le_compat_r; [now rewrite <- Zle_Qle | now apply Qlt_le_weak]. }
  assert (Hlarge : (inject_Z (2 ^ 53) <= m)%Q ->
                   (inject_Z z <= inject_Z (2 * nearest_even (m * (1 # 2))) * u)%Q).
  { intros Hge. specialize (Hs1 Hge).
    apply Hback.
    replace (53 - e) with (53 - e - 1 + 1) by lia.
    rewrite Z.pow_add_r by lia. change (2 ^ 1) with 2.
    enough (z * 2 ^ (53 - e - 1) <= nearest_even (m * (1 # 2))) by lia.
    apply nearest_even_above. rewrite inject_Z_mult, <- pow2_nonneg by exact Hs1.
    pose proof (pow2_succ _ Hs1) as H2.
    replace (53 - e - 1 + 1) with (53 - e) in H2 by lia.
    rewrite H2 in Hm. lra. }
  unfold binary64_positive. cbv zeta. fold e. fold m. fold u.
  destruct (Qcompare_spec m (inject_Z (2 ^ 53))) as [E | L | G].
  - apply Hlarge. rewrite E. apply Qle_refl.
  - apply Hback. apply nearest_even_above.
    rewrite inject_Z_mult, <- pow2_nonneg by exact Hs. exact Hm.
  - apply Hlarge. now apply Qlt_le_weak.
Qed.
End PositiveRounding.

(** ** Rounding a number that is not negative *)

Lemma binary64_error (q : Q) :
  (0 <= q)%Q ->
  (q - q * epsilon64 <= binary64 q /\ binary64 q <= q + q * epsilon64)%Q.
Proof.
  intros Hq. unfold binary64.
  destruct (Qcompare_spec q 0) as [E | L | G].
  - rewrite E. split; unfold epsilon64; lra.
  - exfalso. apply (Qlt_not_le _ _ L Hq).
  - now apply binary64_positive_error.
Qed.

Lemma binary64_nonneg (q : Q) : (0 <= q)%Q -> (0 <= binary64 q)%Q.
Proof.
  intros Hq. pose proof (binary64_error q Hq) as [H _].
  unfold epsilon64 in H. lra.
Qed.

Lemma binary64_positive_result (q : Q) : (0 < q)%Q -> (0 < binary64 q)%Q.
Proof.
  intros Hq. pose proof (binary64_error q (Qlt_le_weak _ _ Hq)) as [H _].
  unfold epsilon64 in H. lra.
Qed.

Lemma binary64_below (q : Q) (z : Z) :
  (0 <= q)%Q -> (q <= inject_Z z)%Q -> z < 2 ^ 53 -> (binary64 q <= inject_Z z)%Q.
Proof.
  intros Hq Hz Hz53. unfold binary64.
  destruct (Qcompare_spec q 0) as [E | L | G].
  - rewrite <- E. exact Hz.
  - exfalso. apply (Qlt_not_le _ _ L Hq).
  - now apply binary64_positive_below.
Qed.

Lemma binary64_above (q : Q) (z : Z) :
  (0 <= q)%Q -> (inject_Z z <= q)%Q -> (q < inject_Z (2 ^ 53))%Q ->
  (inject_Z z <= binary64 q)%Q.
Proof.
  intros Hq Hz Hq53. unfold binary64.
  destruct (Qcompare_spec q 0) as [E | L | G].
  - rewrite <- E. exact Hz.
  - exfalso. apply (Qlt_not_le _ _ L Hq).
  - now apply binary64_positive_above.
Qed.

(** An integer below 2^53 is a binary64 number. *)
Lemma binary64_integer (q : Q) (z : Z) :
  0 <= z < 2 ^ 53 -> (q == inject_Z z)%Q -> (binary64 q == inject_Z z)%Q.
Proof.
  intros Hz Hq.
  assert (H0 : (0 <= q)%Q)
    by (rewrite Hq; change 0%Q with (inject_Z 0); rewrite <- Zle_Qle; lia).
  apply Qle_antisym.
  - apply binary64_below; [exact H0 | rewrite Hq; apply Qle_refl | lia].
  - apply binary64_above; [exact H0 | rewrite Hq; apply Qle_refl |].
    rewrite Hq, <- Zlt_Qlt. lia.
Qed.

Lemma Qsign_inject_Z (z : Z) : Qsign (inject_Z z) = Z.compare z 0.
Proof. unfold Qsign, Qcompare, inject_Z. cbn. now rewrite Z.mul_1_r. Qed.

(** [toFixed(1)] of a number that is not negative. *)
Lemma toFixed1_nonneg (q : Q) :
  (0 <= q)%Q -> toFixed1 (Fin q) = Tenths false (Qfloor (q * 10 + (1 # 2))).
Proof.
  intros Hq. cbn [toFixed1]. f_equal.
  - unfold Qsign. destruct (Qcompare_spec q 0) as [? | Hlt | ?]; try reflexivity.
    exfalso. apply (Qlt_not_le _ _ Hlt Hq).
  - apply Qfloor_comp. now rewrite (Qabs_pos q Hq).
Qed.

(** The quotient of two integers, the second positive. *)
Lemma div_of_Z_positive (q : Q) (d : Z) :
  0 < d -> div (Fin q) (of_Z d) = Fin (binary64 (q / inject_Z d)).
Proof.
  intros Hd. unfold div, of_Z. rewrite Qsign_inject_Z.
  destruct (Z.compare_spec d 0); try lia; reflexivity.
Qed.

(** [((c / n) * 100).toFixed(1)] for a count [c] of [n]: the quotient and
    the product are each rounded to binary64, then the tenths are taken,
    halves upwards.  The result is within half a tenth, and three
    thousand units of the last place, of 1000 c / n. *)
Lemma rounded_percent (c n : Z) :
  0 <= c <= n -> 0 < n ->
  exists t,
    toFixed1 (mul (div (of_Z c) (of_Z n)) (of_Z 100)) = Tenths false t /\
    2 * 2 ^ 53 * Z.abs (n * t - 1000 * c) <= n * (2 ^ 53 + 6000) /\
    0 <= t <= 1000.
Proof.
  intros Hc Hn. unfold of_Z at 1. rewrite div_of_Z_positive by exact Hn.
  cbn [mul of_Z].
  set (x := (inject_Z c / inject_Z n)%Q).
  assert (HN : (0 < inject_Z n)%Q)
    by (change 0%Q with (inject_Z 0); rewrite <- Zlt_Qlt; exact Hn).
  assert (HC : (0 <= inject_Z c)%Q)
    by (change 0%Q with (inject_Z 0); rewrite <- Zle_Qle; lia).
  assert (HCN : (inject_Z c <= inject_Z n)%Q) by (rewrite <- Zle_Qle; lia).
  assert (HxN : (x * inject_Z n == inject_Z c)%Q).
  { subst x. field. intros E. rewrite E in HN. apply (Qlt_irrefl _ HN). }
  assert (Hx0 : (0 <= x)%Q).
  { subst x. apply Qle_shift_div_l; [exact HN |]. now rewrite Qmult_0_l. }
  assert (Hx1 : (x <= 1)%Q).
  { subst x. apply Qle_shift_div_r; [exact HN |]. now rewrite Qmult_1_l. }
  pose proof (binary64_error x Hx0) as Hy.
  pose proof (binary64_nonneg x Hx0) as Hy0.
  pose proof (binary64_below x 1 Hx0 Hx1 ltac:(reflexivity)) as Hy1.
  set (y := binary64 x) in *.
  change (inject_Z 1) with 1%Q in Hy1.
  assert (Hw0 : (0 <= y * inject_Z 100)%Q)
    by (apply Qmult_le_0_compat; [exact Hy0 | discriminate]).
  assert (Hw1 : (y * inject_Z 100 <= inject_Z 100)%Q).
  { change (inject_Z 100) with 100%Q. lra. }
  pose proof (binary64_error _ Hw0) as Hp.
  pose proof (binary64_nonneg _ Hw0) as Hp0.
  pose proof (binary64_below _ 100 Hw0 Hw1 ltac:(reflexivity)) as Hp1.
  set (p := binary64 (y * inject_Z 100)) in *.
  change (inject_Z 100) with 100%Q in *.
  unfold epsilon64 in *.
  rewrite (toFixed1_nonneg p Hp0).
  pose proof (Qfloor_le (p * 10 + (1 # 2))) as Hlo.
  pose proof (Qlt_floor (p * 10 + (1 # 2))) as Hhi.
  set (t := Qfloor (p * 10 + (1 # 2))) in *.
  rewrite inject_Z_plus in Hhi. change (inject_Z 1) with 1%Q in Hhi.
  exists t. split; [reflexivity |].
  assert (Ht0 : 0 <= t).
  { apply Z.lt_succ_r. rewrite Zlt_Qlt. rewrite <- Z.add_1_r, inject_Z_plus.
    change (inject_Z 0) with 0%Q. change (inject_Z 1) with 1%Q. lra. }
  assert (Ht1 : t <= 1000).
  { apply Z.lt_succ_r. rewrite Zlt_Qlt. change (inject_Z (Z.succ 1000)) with 1001%Q. lra. }
  split; [| split; assumption].
  (* the two sides in the rationals *)
  assert (Hup : (inject_Z t * inject_Z n
                 <= (1000 * x + 3000 * (1 # 9007199254740992) * x + (1 # 2)) * inject_Z n)%Q).
  { apply Qmult_le_compat_r; [| apply Qlt_le_weak; exact HN]. 
    (* p <= w (1+e) <= 100 y + 100 e ; y <= x + x e *)
    nra. }
  assert (Hdown : ((1000 * x - 3000 * (1 # 9007199254740992) * x - (1 # 2)) * inject_Z n
                   <= inject_Z t * inject_Z n)%Q).
  { apply Qmult_le_compat_r; [| apply Qlt_le_weak; exact HN]. nra. }
  assert (E1 : ((1000 * x + 3000 * (1 # 9007199254740992) * x + (1 # 2)) * inject_Z n
                == 1000 * (x * inject_Z n) + 3000 * (1 # 9007199254740992) * (x * inject_Z n)
                   + (1 # 2) * inject_Z n)%Q) by ring.
  assert (E2 : ((1000 * x - 3000 * (1 # 9007199254740992) * x - (1 # 2)) * inject_Z n
                == 1000 * (x * inject_Z n) - 3000 * (1 # 9007199254740992) * (x * inject_Z n)
                   - (1 # 2) * inject_Z n)%Q) by ring.
  rewrite E1, HxN in Hup. rewrite E2, HxN in Hdown.
  clear E1 E2.
  assert (Ha : 2 * 2 ^ 53 * (n * t - 1000 * c) <= n * (2 ^ 53 + 6000)).
  { rewrite Zle_Qle.
    rewrite !inject_Z_mult, inject_Z_plus. unfold Zminus.
    rewrite inject_Z_plus, inject_Z_opp, !inject_Z_mult.
    change (inject_Z 2) with 2%Q. change (inject_Z (2 ^ 53)) with 9007199254740992%Q.
    change (inject_Z 1000) with 1000%Q. change (inject_Z 6000) with 6000%Q.
    lra. }
  assert (Hb : - (n * (2 ^ 53 + 6000)) <= 2 * 2 ^ 53 * (n * t - 1000 * c)).
  { rewrite Zle_Qle.
    rewrite inject_Z_opp, !inject_Z_mult, inject_Z_plus. unfold Zminus.
    rewrite inject_Z_plus, inject_Z_opp, !inject_Z_mult.
    change (inject_Z 2) with 2%Q. change (inject_Z (2 ^ 53)) with 9007199254740992%Q.
    change (inject_Z 1000) with 1000%Q. change (inject_Z 6000) with 6000%Q.
    lra. }
  lia.
Qed.

Lemma code_name_eqb (a b : AlertCode) :
  (code_name a =? code_name b)%string = code_eqb a b.
Proof. destruct a, b; reflexivity. Qed.

(** The four severities are reported in the order of the literal, each
    with its number of events and its share of the total. *)
Lemma processEventsByAlertCode_counts (E : list Event) :
  processEventsByAlertCode E =
  map (fun c =>
         let count := count_where (has_code c) E in
         {| name := code_name c;
            value := PNum count;
            percentage :=
              toFixed1 (mul (div (of_Z count) (of_nat (length_or_1 E))) (of_Z 100));
            fill := ALERT_COLORS (code_name c) |})
      alert_codes.
Proof.
  unfold processEventsByAlertCode.
  set (init := [("GREEN", PNum 0); ("YELLOW", PNum 0); ("ORANGE", PNum 0);
                ("RED", PNum 0)]%string).
  assert (Hnum0 : numeric init) by (repeat constructor; eexists; reflexivity).
  rewrite (fold_left_keys (fun event => code_name (alert_code event))).
  set (keys := map _ E).
  assert (Hord : Forall ordinary keys).
  { subst keys. apply Forall_forall. intros k Hk.
    apply in_map_iff in Hk. destruct Hk as (e & <- & _).
    destruct (alert_code e); reflexivity. }
  assert (Hsub : incl keys (map fst init)).
  { subst keys. intros k Hk.
    apply in_map_iff in Hk. destruct Hk as (e & <- & _).
    destruct (alert_code e); cbn; tauto. }
  destruct (count_all_ordinary keys Hord init Hnum0) as (Hnum & Hst & _ & Hkeys & Hnd).
  specialize (Hkeys Hsub).
  assert (Hnd' : NoDup (map fst (fold_left count_up keys init))).
  { apply Hnd. repeat (constructor; [cbn; intuition discriminate |]). constructor. }
  rewrite (numeric_object_eq _ Hnum Hnd'), Hkeys.
  rewrite Object_entries_named by (repeat constructor).
  change (map fst init) with (map code_name alert_codes).
  rewrite !map_map. apply map_ext. intros c.
  assert (Hc : stored (fold_left count_up keys init) (code_name c)
               = count_where (has_code c) E).
  { rewrite Hst. subst keys. rewrite occurrences_map.
    replace (stored init (code_name c)) with 0 by (destruct c; reflexivity).
    cbn [Z.add]. apply count_where_ext. intros e _. apply code_name_eqb. }
  rewrite Hc. reflexivity.
Qed.

Lemma alert_counts_partition (E : list Event) :
  count_where (has_code GREEN) E + count_where (has_code YELLOW) E
  + count_where (has_code ORANGE) E + count_where (has_code RED) E
  = Z.of_nat (List.length E).
Proof.
  induction E as [| e E IH]; [reflexivity |].
  rewrite !count_where_cons. unfold has_code at 1 3 5 7.
  cbn [List.length]. destruct (alert_code e); cbn [code_eqb]; lia.
Qed.

(** ** The arrays of counters *)

Lemma increment_nth_length (counts : list Z) (i : nat) :
  List.length (increment_nth counts i) = List.length counts.
Proof.
  revert i. induction counts as [| c counts IH]; intros [| i]; cbn; auto.
Qed.

Lemma increment_nth_nth (counts : list Z) (i j : nat) :
  (j < List.length counts)%nat ->
  nth j (increment_nth counts i) 0 =
  nth j counts 0 + (if (j =? i)%nat then 1 else 0).
Proof.
  revert i j. induction counts as [| c counts IH]; intros i j Hj; cbn in Hj; [lia |].
  destruct i as [| i], j as [| j]; cbn [increment_nth nth Nat.eqb]; try lia.
  apply IH. lia.
Qed.

Lemma increment_length (counts : list Z) (i : option Z) :
  List.length (increment counts i) = List.length counts.
Proof.
  destruct i as [i |]; cbn; [| reflexivity].
  destruct (0 <=? i); [apply increment_nth_length | reflexivity].
Qed.

Lemma increment_nth_index (counts : list Z) (i : option Z) (j : nat) :
  (j < List.length counts)%nat ->
  nth j (increment counts i) 0 =
  nth j counts 0 +
  (if match i with Some i => i =? Z.of_nat j | None => false end then 1 else 0).
Proof.
  intros Hj. destruct i as [i |]; cbn [increment]; [| lia].
  destruct (Z.leb_spec 0 i).
  - rewrite increment_nth_nth by exact Hj.
    destruct (Nat.eqb_spec j (Z.to_nat i)), (Z.eqb_spec i (Z.of_nat j)); lia.
  - destruct (Z.eqb_spec i (Z.of_nat j)); lia.
Qed.

Lemma counters_fold {A : Type} (index : A -> option Z) (l : list A) :
  forall counts : list Z,
    let counts' := fold_left (fun cs x => increment cs (index x)) l counts in
    List.length counts' = List.length counts /\
    forall j, (j < List.length counts)%nat ->
              nth j counts' 0 =
              nth j counts 0 + count_where (falls_in index (Z.of_nat j)) l.
Proof.
  induction l as [| x l IH]; intros counts; cbn [fold_left].
  - split; [reflexivity |]. intros j _. unfold count_where. cbn. lia.
  - destruct (IH (increment counts (index x))) as [Hlen Hnth].
    rewrite increment_length in Hlen. split; [exact Hlen |].
    intros j Hj. rewrite Hnth by (rewrite increment_length; exact Hj).
    rewrite increment_nth_index by exact Hj.
    rewrite count_where_cons. unfold falls_in at 2. lia.
Qed.

Lemma combine_seq {A : Type} (d : A) (l : list A) (from : nat) :
  combine l (seq from (List.length l)) =
  map (fun i => (nth (i - from) l d, i)) (seq from (List.length l)).
Proof.
  revert from. induction l as [| x l IH]; intros from; [reflexivity |].
  cbn [List.length seq combine map]. rewrite Nat.sub_diag. cbn [nth]. f_equal.
  rewrite IH. apply map_ext_in. intros i Hi. apply in_seq in Hi.
  replace (i - from)%nat with (S (i - S from)) by lia. reflexivity.
Qed.

Section ArrayAggregators.
Variable host : Host.

Lemma processEventsByDayOfWeek_counts (E : list Event) :
  processEventsByDayOfWeek host E =
  map (fun i =>
         {| day := nth i dayNames "undefined"%string;
            day_count := count_where (falls_in (weekday_of host) (Z.of_nat i)) E |})
      (seq 0 7).
Proof.
  unfold processEventsByDayOfWeek.
  destruct (counters_fold (weekday_of host) E [0; 0; 0; 0; 0; 0; 0]) as [_ Hnth].
  change (combine dayNames (seq 0 (List.length dayNames)))
    with (map (fun i => (nth i dayNames "undefined"%string, i)) (seq 0 7)).
  rewrite map_map. apply map_ext_in. intros i Hi. apply in_seq in Hi.
  f_equal. unfold weekday_of in Hnth. rewrite Hnth by (cbn; lia).
  replace (nth i [0; 0; 0; 0; 0; 0; 0] 0) with 0; [reflexivity |].
  do 7 (destruct i as [| i]; [reflexivity |]). cbn in Hi. lia.
Qed.

Lemma processEventsByHour_counts (E : list Event) :
  processEventsByHour host E =
  map (fun i =>
         {| hour := nth i hourLabels "undefined"%string;
            hour_count := count_where (falls_in (hour_of host) (Z.of_nat i)) E |})
      (seq 0 24).
Proof.
  unfold processEventsByHour.
  destruct (counters_fold (hour_of host) E (repeat 0 24)) as [Hlen Hnth].
  unfold hour_of in Hlen, Hnth. cbv zeta in Hlen, Hnth.
  set (hourCounts := fold_left _ E (repeat 0 24)) in *.
  rewrite (combine_seq 0 hourCounts 0), Hlen.
  change (List.length (repeat 0 24)) with 24%nat in *.
  rewrite map_map. apply map_ext_in. intros i Hi. apply in_seq in Hi.
  rewrite Nat.sub_0_r, Hnth by lia. f_equal.
  - clear - Hi. do 24 (destruct i as [| i]; [reflexivity |]). lia.
  - replace (nth i (repeat 0 24) 0) with 0; [reflexivity |].
    clear - Hi. do 24 (destruct i as [| i]; [reflexivity |]). lia.
Qed.
End ArrayAggregators.

(* ================================================================== *)
(** * Bucket labels, bucket sums and percentages                         *)
(* ================================================================== *)

Lemma parseable_index (host : Host) (get : Host -> Date -> option Z) (n : Z) (E : list Event) :
  (forall s i, get host (new_Date host s) = Some i -> 0 <= i <= n - 1) ->
  (forall t, get host (Some t) <> None) ->
  Forall (parseable host) E ->
  Forall (fun e => exists j, get host (new_Date host (reported_at e)) = Some j
                             /\ 0 <= j < n) E.
Proof.
  intros Hrange Hsome HE. apply Forall_forall. intros e He.
  rewrite Forall_forall in HE. destruct (HE e He) as [t Ht].
  destruct (get host (new_Date host (reported_at e))) as [j |] eqn:Hj.
  - exists j. split; [reflexivity |]. specialize (Hrange _ _ Hj). lia.
  - rewrite Ht in Hj. now apply Hsome in Hj.
Qed.

(** C2.  When every [reported_at] can be read as a date, the counts of
    the twelve months, of the four severities, of the seven weekdays and
    of the twenty-four hours each add up to the number of events. *)
Theorem bucket_counts_sum (host : Host) (E : list Event) :
  Forall (parseable host) E ->
  let n := Z.of_nat (List.length E) in
  (exists counts, map month_count (processEventsByMonth host E)
                  = map (fun c => Prim (PNum c)) counts /\ Zsum counts = n) /\
  (exists counts, map value (processEventsByAlertCode E) = map PNum counts
                  /\ Zsum counts = n) /\
  Zsum (map day_count (processEventsByDayOfWeek host E)) = n /\
  Zsum (map hour_count (processEventsByHour host E)) = n.
Proof.
  intros HE n. subst n. repeat split.
  - exists (map (fun i => count_where (falls_in (month_of host) (Z.of_nat i)) E) (seq 0 12)).
    rewrite processEventsByMonth_counts, !map_map. split; [reflexivity |].
    apply (buckets_partition (month_of host) 12).
    apply (parseable_index host getMonth 12); [| discriminate | exact HE].
    intros s i H. pose proof (getMonth_index host s i H). lia.
  - exists [count_where (has_code GREEN) E; count_where (has_code YELLOW) E;
            count_where (has_code ORANGE) E; count_where (has_code RED) E].
    rewrite processEventsByAlertCode_counts. split; [reflexivity |].
    pose proof (alert_counts_partition E). cbn [Zsum fold_right]. lia.
  - rewrite processEventsByDayOfWeek_counts, map_map. cbn [day_count].
    apply (buckets_partition (weekday_of host) 7).
    apply (parseable_index host getDay 7); [| discriminate | exact HE].
    intros s i H. pose proof (getDay_index host s i H). lia.
  - rewrite processEventsByHour_counts, map_map. cbn [hour_count].
    apply (buckets_partition (hour_of host) 24).
    apply (parseable_index host getHours 24); [| discriminate | exact HE].
    intros s i H. pose proof (getHours_index host s i H). lia.
Qed.

Lemma bucket_counts_sum_witness :
  Zsum (map day_count (processEventsByDayOfWeek Sample.utc [Sample.fire; Sample.smoke])) = 2
  /\ Zsum (map hour_count (processEventsByHour Sample.utc [Sample.fire; Sample.smoke])) = 2.
Proof.
  assert (H : Forall (parseable Sample.utc) [Sample.fire; Sample.smoke]).
  { repeat constructor; eexists; vm_compute; reflexivity. }
  split; apply (bucket_counts_sum Sample.utc [Sample.fire; Sample.smoke] H).
Defined.

Lemma nth_map_seq {B : Type} (f : nat -> B) (n i : nat) (d : B) :
  (i < n)%nat -> nth i (map f (seq 0 n)) d = f i.
Proof.
  intros Hi. rewrite (nth_indep _ d (f 0%nat)) by (rewrite length_map, length_seq; exact Hi).
  rewrite (map_nth f). now rewrite seq_nth.
Qed.

Lemma bucket_empty {A : Type} (index : A -> option Z) (i : nat) (l : list A) :
  (forall x, In x l -> index x <> Some (Z.of_nat i)) ->
  count_where (falls_in index (Z.of_nat i)) l = 0.
Proof.
  intros H. apply count_where_none. intros x Hx. unfold falls_in.
  destruct (index x) as [j |] eqn:Hj; [| reflexivity].
  apply Z.eqb_neq. intros ->. now apply (H x Hx).
Qed.

(** C3.  Whatever the events are, and also when there are none, each
    fixed-dimension aggregator reports all its buckets in their fixed
    order: the twelve months Jan..Dec, the four severities, the seven
    weekdays from Sunday, the hours 00:00..23:00; a bucket no event falls
    into has count 0. *)
Theorem aggregators_report_all_buckets (host : Host) (E : list Event) :
  (map month (processEventsByMonth host E) =
     ["Jan"; "Feb"; "Mar"; "Apr"; "May"; "Jun";
      "Jul"; "Aug"; "Sep"; "Oct"; "Nov"; "Dec"]%string /\
   forall i, (i < 12)%nat ->
     (forall e, In e E -> month_of host e <> Some (Z.of_nat i)) ->
     nth i (map month_count (processEventsByMonth host E)) Undefined = Prim (PNum 0)) /\
  (map name (processEventsByAlertCode E) = ["GREEN"; "YELLOW"; "ORANGE"; "RED"]%string /\
   forall i c, nth_error [GREEN; YELLOW; ORANGE; RED] i = Some c ->
     (forall e, In e E -> alert_code e <> c) ->
     nth i (map value (processEventsByAlertCode E)) (PStr "") = PNum 0) /\
  (map day (processEventsByDayOfWeek host E) =
     ["Sunday"; "Monday"; "Tuesday"; "Wednesday"; "Thursday"; "Friday";
      "Saturday"]%string /\
   forall i, (i < 7)%nat ->
     (forall e, In e E -> weekday_of host e <> Some (Z.of_nat i)) ->
     nth i (map day_count (processEventsByDayOfWeek host E)) (-1) = 0) /\
  (map hour (processEventsByHour host E) =
     ["00:00"; "01:00"; "02:00"; "03:00"; "04:00"; "05:00"; "06:00"; "07:00";
      "08:00"; "09:00"; "10:00"; "11:00"; "12:00"; "13:00"; "14:00"; "15:00";
      "16:00"; "17:00"; "18:00"; "19:00"; "20:00"; "21:00"; "22:00"; "23:00"]%string /\
   forall i, (i < 24)%nat ->
     (forall e, In e E -> hour_of host e <> Some (Z.of_nat i)) ->
     nth i (map hour_count (processEventsByHour host E)) (-1) = 0).
Proof.
  rewrite processEventsByMonth_counts, processEventsByAlertCode_counts,
    processEventsByDayOfWeek_counts, processEventsByHour_counts.
  rewrite !map_map. cbn [month month_count name value day day_count hour hour_count].
  repeat split; try reflexivity.
  - intros i Hi Hnone. rewrite nth_map_seq by exact Hi.
    now rewrite bucket_empty.
  - intros i c Hc Hnone.
    assert (H0 : count_where (has_code c) E = 0).
    { apply count_where_none. intros e He. unfold has_code.
      specialize (Hnone e He). destruct (alert_code e), c; try reflexivity; congruence. }
    do 4 (destruct i as [| i]; [injection Hc as <-; cbn; now rewrite H0 |]).
    destruct i; discriminate.
  - intros i Hi Hnone. rewrite nth_map_seq by exact Hi. now apply bucket_empty.
  - intros i Hi Hnone. rewrite nth_map_seq by exact Hi. now apply bucket_empty.
Qed.

Lemma aggregators_report_all_buckets_witness :
  nth 0 (map month_count (processEventsByMonth Sample.utc [Sample.fire; Sample.smoke]))
      Undefined = Prim (PNum 0) /\
  nth 1 (map value (processEventsByAlertCode [Sample.fire; Sample.smoke])) (PStr "")
  = PNum 0.
Proof.
  pose proof (aggregators_report_all_buckets Sample.utc [Sample.fire; Sample.smoke])
    as ((_ & Hmonth) & (_ & Halert) & _).
  split.
  - apply (Hmonth 0%nat); [lia |].
    intros e [<- | [<- | []]]; vm_compute; discriminate.
  - apply (Halert 1%nat YELLOW); [reflexivity |].
    intros e [<- | [<- | []]]; vm_compute; discriminate.
Defined.

(** With no events every bucket is there, with count 0. *)
Lemma aggregators_empty (host : Host) :
  processEventsByMonth host [] =
    map (fun m => {| month := m; month_count := Prim (PNum 0) |}) monthNames /\
  processEventsByAlertCode [] =
    map (fun c => {| name := code_name c; value := PNum 0;
                     percentage := Tenths false 0;
                     fill := ALERT_COLORS (code_name c) |}) alert_codes /\
  processEventsByDayOfWeek host [] =
    map (fun d => {| day := d; day_count := 0 |}) dayNames /\
  processEventsByHour host [] =
    map (fun h => {| hour := h; hour_count := 0 |}) hourLabels.
Proof. repeat split. Qed.

(** Four shares that are each within the rounding of their part of the
    total add up to 1000 tenths within two tenths. *)
Lemma rounded_shares_sum (n c1 c2 c3 c4 t1 t2 t3 t4 : Z) :
  0 < n -> c1 + c2 + c3 + c4 = n ->
  2 * 2 ^ 53 * Z.abs (n * t1 - 1000 * c1) <= n * (2 ^ 53 + 6000) ->
  2 * 2 ^ 53 * Z.abs (n * t2 - 1000 * c2) <= n * (2 ^ 53 + 6000) ->
  2 * 2 ^ 53 * Z.abs (n * t3 - 1000 * c3) <= n * (2 ^ 53 + 6000) ->
  2 * 2 ^ 53 * Z.abs (n * t4 - 1000 * c4) <= n * (2 ^ 53 + 6000) ->
  998 <= t1 + t2 + t3 + t4 <= 1002.
Proof.
  intros Hn Hsum H1 H2 H3 H4.
  change (2 ^ 53) with 9007199254740992 in *.
  set (s := t1 + t2 + t3 + t4).
  assert (Hs : n * t1 + n * t2 + n * t3 + n * t4 = n * s) by (subst s; ring).
  assert (H : 2 * 9007199254740992 * Z.abs (n * s - 1000 * n)
              <= 4 * (n * (9007199254740992 + 6000))) by lia.
  destruct (Z.le_gt_cases s 997) as [Hlow | Hlow].
  { exfalso. assert (n * s <= n * 997) by (apply Z.mul_le_mono_nonneg_l; lia). lia. }
  destruct (Z.le_gt_cases 1003 s) as [Hhigh | Hhigh].
  { exfalso. assert (n * 1003 <= n * s) by (apply Z.mul_le_mono_nonneg_l; lia). lia. }
  lia.
Qed.

(** Below 2^32 events the rounding to binary64 does not show: the tenths
    are within half a tenth of the exact share. *)
Lemma rounded_percent_small (n c t : Z) :
  0 < n < 2 ^ 32 ->
  2 * 2 ^ 53 * Z.abs (n * t - 1000 * c) <= n * (2 ^ 53 + 6000) ->
  2 * Z.abs (n * t - 1000 * c) <= n.
Proof.
  change (2 ^ 53) with 9007199254740992. change (2 ^ 32) with 4294967296. lia.
Qed.

(** C4.  With at least one event, each percentage of
    [processEventsByAlertCode] is the share of its severity, computed in
    binary64 and rounded to a tenth: it lies between 0.0 and 100.0, within
    half a tenth and a rounding error of the exact share (within half a
    tenth for fewer than 2^32 events), so the four percentages add up to
    100 within the rounding: between 99.8 and 100.2.  With no event the
    divisor is 1 and the four percentages are 0.  No percentage is the
    text of NaN or of an infinity. *)
Theorem alert_percentages (E : list Event) :
  (E = [] ->
   map percentage (processEventsByAlertCode E) =
     [Tenths false 0; Tenths false 0; Tenths false 0; Tenths false 0]) /\
  (E <> [] ->
   exists tenths : list Z,
     map percentage (processEventsByAlertCode E) = map (Tenths false) tenths /\
     998 <= Zsum tenths <= 1002 /\
     Forall2 (fun t c =>
                let n := Z.of_nat (List.length E) in
                let count := count_where (has_code c) E in
                0 <= t <= 1000 /\
                2 * 2 ^ 53 * Z.abs (n * t - 1000 * count) <= n * (2 ^ 53 + 6000) /\
                (n < 2 ^ 32 -> 2 * Z.abs (n * t - 1000 * count) <= n))
             tenths [GREEN; YELLOW; ORANGE; RED]).
Proof.
  split.
  - intros ->. reflexivity.
  - intros Hne. rewrite processEventsByAlertCode_counts.
    set (n := Z.of_nat (List.length E)).
    assert (Hn : 0 < n) by (subst n; destruct E; [congruence | cbn; lia]).
    assert (Htotal : of_nat (length_or_1 E) = of_Z n).
    { unfold length_or_1, of_nat. subst n. destruct E; [congruence | reflexivity]. }
    pose proof (alert_counts_partition E) as Hsum. fold n in Hsum.
    assert (Hshare : forall c, exists t,
               toFixed1 (mul (div (of_Z (count_where (has_code c) E)) (of_Z n)) (of_Z 100))
               = Tenths false t /\
               2 * 2 ^ 53 * Z.abs (n * t - 1000 * count_where (has_code c) E)
               <= n * (2 ^ 53 + 6000) /\
               0 <= t <= 1000).
    { intros c. apply rounded_percent; [| exact Hn].
      split; [apply count_where_nonneg |].
      pose proof (count_where_nonneg (has_code GREEN) E).
      pose proof (count_where_nonneg (has_code YELLOW) E).
      pose proof (count_where_nonneg (has_code ORANGE) E).
      pose proof (count_where_nonneg (has_code RED) E).
      destruct c; lia. }
    destruct (Hshare GREEN) as (g & Eg & Hg & Hg').
    destruct (Hshare YELLOW) as (y & Ey & Hy & Hy').
    destruct (Hshare ORANGE) as (o & Eo & Ho & Ho').
    destruct (Hshare RED) as (r & Er & Hr & Hr').
    exists [g; y; o; r]. split; [| split].
    + cbn [map alert_codes percentage]. rewrite Htotal, Eg, Ey, Eo, Er. reflexivity.
    + cbn [Zsum fold_right]. rewrite Z.add_0_r.
      pose proof (rounded_shares_sum n _ _ _ _ g y o r Hn Hsum Hg Hy Ho Hr). lia.
    + repeat (constructor;
              [cbv zeta; fold n;
               split; [assumption | split; [assumption |]];
               intros Hsmall; apply rounded_percent_small; [lia | assumption] |]).
      constructor.
Qed.

Lemma alert_percentages_witness :
  map percentage (processEventsByAlertCode []) =
    [Tenths false 0; Tenths false 0; Tenths false 0; Tenths false 0] /\
  exists tenths : list Z,
    map percentage (processEventsByAlertCode [Sample.fire; Sample.smoke])
    = map (Tenths false) tenths /\ 998 <= Zsum tenths <= 1002.
Proof.
  split.
  - apply (proj1 (alert_percentages [])). reflexivity.
  - destruct (proj2 (alert_percentages [Sample.fire; Sample.smoke]) ltac:(discriminate))
      as (tenths & H1 & H2 & _).
    exists tenths. split; assumption.
Defined.

(** The lower end is reached: of 400 events, 29 green, 57 yellow, 113
    orange and 201 red are shown as 7.2, 14.2, 28.2 and 50.2 per cent,
    99.8 in all; the exact shares 7.25, 14.25, 28.25 and 50.25 would each
    be shown a tenth higher. *)
Example alert_percentages_400 :
  map percentage
      (processEventsByAlertCode
         (repeat (Sample.event GREEN [] "2024-03-15T10:00") 29 ++
          repeat (Sample.event YELLOW [] "2024-03-15T10:00") 57 ++
          repeat (Sample.event ORANGE [] "2024-03-15T10:00") 113 ++
          repeat (Sample.event RED [] "2024-03-15T10:00") 201))
  = map (Tenths false) [72; 142; 282; 502].
Proof. vm_compute. reflexivity. Qed.

(* ================================================================== *)
(** * The statistics                                                     *)
(* ================================================================== *)

Lemma ge_of_Z (a b : Z) : ge (of_Z a) (of_Z b) = (b <=? a).
Proof.
  unfold ge, of_Z, Qcompare, inject_Z. cbn. rewrite !Z.mul_1_r.
  destruct (Z.compare_spec a b), (Z.leb_spec b a); try reflexivity; lia.
Qed.

Lemma Math_min2_of_Z (a b : Z) : Math_min2 (of_Z a) (of_Z b) = of_Z (Z.min a b).
Proof.
  unfold Math_min2. change (of_Z a) with (Fin (inject_Z a)) at 1.
  change (of_Z b) with (Fin (inject_Z b)) at 1.
  cbv beta iota. fold (of_Z a). fold (of_Z b). rewrite ge_of_Z.
  destruct (Z.leb_spec b a); f_equal; lia.
Qed.

Lemma Math_max2_of_Z (a b : Z) : Math_max2 (of_Z a) (of_Z b) = of_Z (Z.max a b).
Proof.
  unfold Math_max2. change (of_Z a) with (Fin (inject_Z a)) at 1.
  change (of_Z b) with (Fin (inject_Z b)) at 1.
  cbv beta iota. fold (of_Z a). fold (of_Z b). rewrite ge_of_Z.
  destruct (Z.leb_spec b a); f_equal; lia.
Qed.

Lemma Math_min_of_Z (t : Z) (ts : list Z) :
  exists m, Math_min (map of_Z (t :: ts)) = of_Z m.
Proof.
  unfold Math_min. cbn [map fold_left].
  change (Math_min2 PosInf (of_Z t)) with (of_Z t).
  revert t. induction ts as [| u ts IH]; intros t; cbn [map fold_left].
  - now exists t.
  - rewrite Math_min2_of_Z. apply IH.
Qed.

Lemma Math_max_of_Z (t : Z) (ts : list Z) :
  exists m, Math_max (map of_Z (t :: ts)) = of_Z m.
Proof.
  unfold Math_max. cbn [map fold_left].
  change (Math_max2 NegInf (of_Z t)) with (of_Z t).
  revert t. induction ts as [| u ts IH]; intros t; cbn [map fold_left].
  - now exists t.
  - rewrite Math_max2_of_Z. apply IH.
Qed.

(** A quotient by a non-zero integer is finite. *)
Lemma div_of_Z_finite (q : Q) (d : Z) :
  d <> 0 -> exists r, div (Fin q) (of_Z d) = Fin r.
Proof.
  intros Hd. unfold div, of_Z. rewrite Qsign_inject_Z.
  destruct (Z.compare_spec d 0); [contradiction | |]; eexists; reflexivity.
Qed.

Lemma toFixed1_finite (q : Q) : exists negative n, toFixed1 (Fin q) = Tenths negative n.
Proof. cbn. eauto. Qed.

Section Statistics.
Variable host : Host.

Lemma dates_of_parseable (E : list Event) :
  Forall (parseable host) E ->
  exists ts, map (fun e => getTime (new_Date host (reported_at e))) E
             = map of_Z ts /\ List.length ts = List.length E.
Proof.
  induction 1 as [| e E [t Ht] _ (ts & IH & Hlen)].
  - now exists [].
  - exists (t :: ts). cbn [map List.length]. rewrite Ht, IH, Hlen. split; reflexivity.
Qed.

(** The divisor of the average is a whole number of days, at least 1. *)
Lemma daysDiff_at_least_1 (E : list Event) :
  E <> [] -> Forall (parseable host) E ->
  exists d, daysDiff host E = of_Z d /\ 1 <= d.
Proof.
  intros Hne HE. unfold daysDiff.
  destruct (dates_of_parseable E HE) as (ts & -> & Hlen).
  destruct ts as [| t ts]; [destruct E; [congruence | discriminate] |].
  destruct (Math_min_of_Z t ts) as [lo ->].
  destruct (Math_max_of_Z t ts) as [hi ->].
  cbn [sub of_Z].
  destruct (div_of_Z_finite (binary64 (inject_Z hi - inject_Z lo)) (1000 * 60 * 60 * 24))
    as [r ->]; [discriminate |].
  cbn [Math_ceil]. rewrite Math_max2_of_Z. eexists. split; [reflexivity | lia].
Qed.

(** C6.  On no events [calculateStatistics] answers total 0, average 0,
    trend 0 and urgent share 0.  On events whose dates can be read,
    one or many and whatever the clock shows, the divisor of the
    average is at least 1 and every field shows a number: never NaN,
    never an infinity. *)
Theorem calculateStatistics_defined (clock : nat -> Z) (E : list Event) :
  calculateStatistics host clock [] =
    {| total := 0; avgPerDay := Num (of_Z 0); trend := Num (of_Z 0);
       urgentPercent := Num (of_Z 0) |} /\
  (Forall (parseable host) E ->
   let s := calculateStatistics host clock E in
   total s = List.length E /\
   shows_number (avgPerDay s) /\ shows_number (trend s) /\
   shows_number (urgentPercent s) /\
   (E <> [] -> exists d, daysDiff host E = of_Z d /\ 1 <= d)).
Proof.
  split; [reflexivity |].
  intros HE s. subst s.
  destruct E as [| e E']; [cbn; intuition congruence |].
  set (E := e :: E') in *.
  assert (Hne : E <> []) by discriminate.
  destruct (daysDiff_at_least_1 E Hne HE) as (d & Hd & Hd1).
  unfold calculateStatistics. fold E.
  change (match E with [] => _ | _ :: _ => ?s end) with s.
  cbv zeta. cbn [total avgPerDay trend urgentPercent].
  rewrite Hd. split; [reflexivity |]. split; [| split; [| split]].
  - unfold of_nat at 1. unfold of_Z at 1.
    destruct (div_of_Z_finite (inject_Z (Z.of_nat (List.length E))) d) as [r ->]; [lia |].
    exact I.
  - destruct (Nat.ltb_spec 0 (List.length
                (filter_clocked 2 (in_prevWeek host)
                   (fun k => clock (List.length E + k)%nat) E))) as [Hpos | _];
      [| exact I].
    set (prevWeek := List.length (filter_clocked 2 _ _ E)) in *.
    set (lastWeek := List.length (filter_clocked 1 _ _ E)).
    unfold of_nat. cbn [sub of_Z].
    destruct (div_of_Z_finite
                (binary64 (inject_Z (Z.of_nat lastWeek) - inject_Z (Z.of_nat prevWeek)))
                (Z.of_nat prevWeek)) as [r Hr]; [lia |].
    rewrite Hr. exact I.
  - unfold of_nat at 1. unfold of_Z at 1. unfold of_nat.
    destruct (div_of_Z_finite (inject_Z (Z.of_nat (List.length (filter is_urgent E))))
                              (Z.of_nat (List.length E))) as [r ->];
      [subst E; cbn; lia |].
    exact I.
  - intros _. exists d. split; [reflexivity | exact Hd1].
Qed.

(** One unreadable date is enough for the average to be the text NaN:
    the hypothesis of C6 on the dates cannot be dropped. *)
Lemma daysDiff_NaN (e : Event) :
  new_Date host (reported_at e) = None -> daysDiff host [e] = NaN.
Proof. intros H. unfold daysDiff. cbn. rewrite H. reflexivity. Qed.
End Statistics.

Lemma calculateStatistics_defined_witness :
  shows_number (avgPerDay (calculateStatistics Sample.utc (fun _ => 1710511200000)
                             [Sample.fire; Sample.smoke])) /\
  shows_number (trend (calculateStatistics Sample.utc (fun _ => 1710511200000)
                         [Sample.fire; Sample.smoke])) /\
  shows_number (urgentPercent (calculateStatistics Sample.utc (fun _ => 1710511200000)
                                 [Sample.fire; Sample.smoke])).
Proof.
  assert (H : Forall (parseable Sample.utc) [Sample.fire; Sample.smoke]).
  { constructor; [| constructor; [| constructor]]; eexists; vm_compute; reflexivity. }
  pose proof (proj2 (calculateStatistics_defined Sample.utc (fun _ => 1710511200000)
                       [Sample.fire; Sample.smoke]) H) as W.
  cbv zeta in W. destruct W as (_ & H2 & H3 & H4 & _).
  split; [exact H2 | split; [exact H3 | exact H4]].
Defined.

(* ================================================================== *)
(** * The time-range filter                                              *)
(* ================================================================== *)

Lemma Date_ge_cutoff (host : Host) (cutoff : Z) (e : Event) :
  Date_ge (new_Date host (reported_at e)) (Some cutoff) = reported_since host cutoff e.
Proof.
  unfold Date_ge, reported_since, getTime.
  destruct (new_Date host (reported_at e)) as [t |]; [apply ge_of_Z | reflexivity].
Qed.

(** The cutoff of [displayEvents] is the instant at which the local clock
    showed, [days] days before today, the time it shows now. *)
Lemma displayEvents_cutoff (host : Host) (now days : Z) (st : PageState) :
  daysMap (timeRange st) = Some days ->
  displayEvents host now st =
  filter (reported_since host (UTC host (LocalTime host now - days * msPerDay)))
         (events st).
Proof.
  intros Hd. unfold displayEvents. rewrite Hd, days_earlier_local.
  apply filter_ext. intros e. apply Date_ge_cutoff.
Qed.



(** The scenario, on a host in UTC and on a host whose summer time ended
    inside the week. *)
Example displayEvents_scenario :
  Date_parse Sample.utc (reported_at eight_days_old)
    = Some (late_october_now - 8 * msPerDay) /\
  Date_parse Sample.utc (reported_at almost_seven_days_old)
    = Some (late_october_now - (6 * 24 + 23) * msPerHour) /\
  displayEvents Sample.utc late_october_now scenario_page = [almost_seven_days_old] /\
  displayEvents Sample.bucharest late_october_now scenario_page = [almost_seven_days_old].
Proof. repeat split. Qed.


(* ================================================================== *)
(** * Sorting and [Object.entries]                                       *)
(* ================================================================== *)

Section SortFacts.
Context {A : Type} (comparefn : A -> A -> option Z).

Lemma sort_insert_Permutation (x : A) (l : list A) :
  Permutation (sort_insert comparefn x l) (x :: l).
Proof.
  induction l as [| y l IH]; cbn; [reflexivity |].
  destruct (before_or_equal comparefn x y); [reflexivity |].
  rewrite IH. apply perm_swap.
Qed.

Lemma sort_Permutation (l : list A) : Permutation (sort comparefn l) l.
Proof.
  induction l as [| x l IH]; cbn; [reflexivity |].
  rewrite sort_insert_Permutation. now constructor.
Qed.

(** A comparator under which any two elements are ordered one way or
    the other. *)
Hypothesis total : forall x y, ordered_by comparefn x y \/ ordered_by comparefn y x.

Lemma sort_insert_Sorted (x : A) (l : list A) :
  Sorted (ordered_by comparefn) l -> Sorted (ordered_by comparefn) (sort_insert comparefn x l).
Proof.
  induction 1 as [| y l Hl IH Hy]; cbn.
  - repeat constructor.
  - destruct (before_or_equal comparefn x y) eqn:Hxy.
    + repeat constructor; assumption.
    + constructor; [exact IH |].
      assert (Hyx : ordered_by comparefn y x).
      { destruct (total x y) as [H | H]; [unfold ordered_by in H; congruence | exact H]. }
      destruct Hy as [| z l Hyz]; cbn.
      * now constructor.
      * destruct (before_or_equal comparefn x z); now constructor.
Qed.

Lemma sort_Sorted (l : list A) : Sorted (ordered_by comparefn) (sort comparefn l).
Proof.
  induction l as [| x l IH]; cbn; [constructor | now apply sort_insert_Sorted].
Qed.
End SortFacts.

Lemma Sorted_weaken {A : Type} (R R' : A -> A -> Prop) (l : list A) :
  (forall x y, In x l -> In y l -> R x y -> R' x y) ->
  Sorted R l -> Sorted R' l.
Proof.
  intros Himp. induction 1 as [| x l Hl IH Hx]; constructor.
  - apply IH. intros a b Ha Hb. apply Himp; now right.
  - destruct Hx as [| y l Hxy]; constructor.
    apply Himp; [now left | right; now left | exact Hxy].
Qed.

Lemma StronglySorted_firstn {A : Type} (R : A -> A -> Prop) (n : nat) (l : list A) :
  StronglySorted R l -> StronglySorted R (firstn n l).
Proof.
  intros H. revert n. induction H as [| x l Hl IH Hx]; intros [| n]; cbn;
    try constructor.
  - apply IH.
  - rewrite Forall_forall in *. intros y Hy. apply Hx.
    rewrite <- (firstn_skipn n l). apply in_or_app. now left.
Qed.

Lemma StronglySorted_skipn {A : Type} (R : A -> A -> Prop) (n : nat) (l : list A) :
  StronglySorted R l -> StronglySorted R (skipn n l).
Proof.
  intros H. revert n. induction H as [| x l Hl IH Hx]; intros [| n]; cbn;
    try constructor; auto.
Qed.

Lemma StronglySorted_split {A : Type} (R : A -> A -> Prop) (n : nat) (l : list A) :
  StronglySorted R l ->
  forall x y, In x (firstn n l) -> In y (skipn n l) -> R x y.
Proof.
  intros H. revert n. induction H as [| a l Hl IH Ha]; intros [| n] x y; cbn;
    try tauto.
  intros [<- | Hx] Hy.
  - rewrite Forall_forall in Ha. apply Ha.
    rewrite <- (firstn_skipn n l). apply in_or_app. now right.
  - now apply (IH n).
Qed.

Lemma StronglySorted_map {A B : Type} (f : A -> B) (R : B -> B -> Prop) (l : list A) :
  StronglySorted (fun a b => R (f a) (f b)) l -> StronglySorted R (map f l).
Proof.
  induction 1 as [| x l Hl IH Hx]; cbn [map]; constructor; [exact IH |].
  rewrite Forall_forall in *. intros b Hb. apply in_map_iff in Hb.
  destruct Hb as (a & <- & Ha). now apply Hx.
Qed.

Lemma insert_index_Permutation (i : N) (p : string * prim)
    (l : list (N * (string * prim))) :
  Permutation (insert_index i p l) ((i, p) :: l).
Proof.
  induction l as [| [j q] l IH]; cbn; [reflexivity |].
  destruct (i <=? j)%N; [reflexivity |].
  rewrite IH. apply perm_swap.
Qed.

(** [Object.entries] lists every own property once. *)
Lemma Object_entries_Permutation (o : object) : Permutation (Object_entries o) o.
Proof.
  unfold Object_entries, named_entries.
  induction o as [| [k v] o IH]; cbn [indexed_entries filter fst]; [reflexivity |].
  destruct (array_index k) as [i |].
  - rewrite insert_index_Permutation. cbn. now constructor.
  - rewrite <- Permutation_middle. now constructor.
Qed.

(** ** Counting tags *)

Lemma tagCounts_all_tags (E : list Event) :
  tagCounts E = fold_left count_up (all_tags E) [].
Proof.
  unfold tagCounts, all_tags. generalize (@nil (string * prim)) as o.
  induction E as [| e E IH]; intros o; cbn [fold_left map List.concat]; [reflexivity |].
  now rewrite fold_left_app, IH.
Qed.

(** [b[1] - a[1] <= 0] on two numeric entries. *)
Lemma before_or_equal_counts (k k' : string) (n n' : Z) :
  before_or_equal (fun a b : string * prim => minus (snd b) (snd a))
                  (k, PNum n) (k', PNum n') = (n' <=? n).
Proof.
  unfold before_or_equal. cbn.
  destruct (Z.leb_spec (n' - n) 0), (Z.leb_spec n' n); try reflexivity; lia.
Qed.

Lemma minus_total (x y : string * prim) :
  before_or_equal (fun a b : string * prim => minus (snd b) (snd a)) x y = true \/
  before_or_equal (fun a b : string * prim => minus (snd b) (snd a)) y x = true.
Proof.
  destruct x as [k [n | s]], y as [k' [n' | s']]; unfold before_or_equal; cbn; auto.
  destruct (Z.leb_spec (n' - n) 0), (Z.leb_spec (n - n') 0); auto. lia.
Qed.

(** When no tag is the name of a member of [Object.prototype], the list
    of [processTopTags] is what it is meant to be: at most ten distinct
    tags, each with the number of its occurrences over all events, in
    non-increasing order of that number, and no tag left out occurs more
    often than a listed one. *)
Lemma processTopTags_ordinary (E : list Event) :
  Forall ordinary (all_tags E) ->
  let out := processTopTags E in
  (List.length out <= 10)%nat /\
  NoDup (map tag out) /\
  Forall (fun b => In (tag b) (all_tags E) /\
                   tag_count b = PNum (occurrences (tag b) (all_tags E))) out /\
  StronglySorted (fun a b => occurrences (tag b) (all_tags E)
                             <= occurrences (tag a) (all_tags E)) out /\
  (forall t, In t (all_tags E) -> ~ In t (map tag out) ->
             forall b, In b out ->
                       occurrences t (all_tags E) <= occurrences (tag b) (all_tags E)).
Proof.
  intros Hord out. subst out. unfold processTopTags. rewrite tagCounts_all_tags.
  set (keys := all_tags E) in *.
  destruct (count_all_ordinary keys Hord [] ltac:(constructor))
    as (Hnum & Hst & Hkeys & _ & Hnd).
  set (o := fold_left count_up keys []) in *.
  specialize (Hnd ltac:(constructor)).
  set (cmp := fun a b : string * prim => minus (snd b) (snd a)).
  set (L := sort cmp (Object_entries o)).
  assert (HP : Permutation L o).
  { subst L. rewrite sort_Permutation. apply Object_entries_Permutation. }
  assert (Hentry : forall p, In p L ->
             In (fst p) keys /\ snd p = PNum (occurrences (fst p) keys)).
  { intros [k v] Hp. apply (Permutation_in _ HP) in Hp. cbn [fst snd]. split.
    - apply (in_map fst) in Hp. apply Hkeys in Hp. cbn in Hp. tauto.
    - pose proof (own_first o k v Hnd Hp) as Hown.
      specialize (Hst k). unfold stored in Hst. rewrite Hown in Hst.
      destruct (own_numeric o k v Hnum Hown) as [n ->]. cbn in Hst. f_equal. lia. }
  assert (HndL : NoDup (map fst L)).
  { apply (Permutation_NoDup (l := map fst o)); [| exact Hnd].
    apply Permutation_map. now symmetry. }
  assert (Hsorted : StronglySorted
                      (fun a b => occurrences (fst b) keys <= occurrences (fst a) keys) L).
  { apply Sorted_StronglySorted; [intros a b c Hab Hbc; lia |].
    apply (Sorted_weaken (fun x y => before_or_equal cmp x y = true)).
    - intros [k v] [k' v'] Hx Hy.
      destruct (Hentry _ Hx) as [_ Hv], (Hentry _ Hy) as [_ Hv']. cbn [fst snd] in *.
      subst v v'. subst cmp. rewrite before_or_equal_counts. apply Z.leb_le.
    - apply sort_Sorted. apply minus_total. }
  unfold slice_first.
  assert (Hin10 : forall p, In p (firstn 10 L) -> In p L).
  { intros p Hp. rewrite <- (firstn_skipn 10 L). apply in_or_app. now left. }
  assert (Htag : map tag (map (fun '(tag, count) => {| tag := tag; tag_count := count |})
                              (firstn 10 L)) = map fst (firstn 10 L)).
  { rewrite map_map. apply map_ext. now intros [k v]. }
  split; [| split; [| split; [| split]]].
  - rewrite length_map. apply firstn_le_length.
  - rewrite Htag, <- firstn_map.
    rewrite <- (firstn_skipn 10 (map fst L)) in HndL. now apply NoDup_app_remove_r in HndL.
  - apply Forall_forall. intros b Hb. apply in_map_iff in Hb.
    destruct Hb as ([k v] & <- & Hp). cbn [tag tag_count].
    apply (Hentry (k, v)). now apply Hin10.
  - apply StronglySorted_map. apply (StronglySorted_firstn _ 10) in Hsorted.
    revert Hsorted. apply StronglySorted_ind; constructor; auto.
    rewrite Forall_forall in *. intros [k' v'] Hp.
    destruct a as [k v]. cbn [tag]. apply (H1 (k', v') Hp).
  - intros t Ht Hout b Hb. rewrite Htag in Hout.
    apply in_map_iff in Hb. destruct Hb as ([k v] & <- & Hp). cbn [tag].
    assert (HtL : In t (map fst L)).
    { apply (Permutation_in (l := map fst o)); [apply Permutation_map; now symmetry |].
      apply Hkeys. now right. }
    apply in_map_iff in HtL. destruct HtL as ([t' w] & Heq & Htw). cbn in Heq. subst t'.
    rewrite <- (firstn_skipn 10 L) in Htw. apply in_app_or in Htw.
    destruct Htw as [Htw | Htw].
    + exfalso. apply Hout. apply in_map_iff. now exists (t, w).
    + apply (StronglySorted_split _ 10 L Hsorted (k, v) (t, w) Hp Htw).
Qed.

(* ================================================================== *)
(** * Date keys                                                          *)
(* ================================================================== *)

Lemma isoDate_civil (t : Z) : isoDate t = date_text (civil (Day t)).
Proof.
  unfold isoDate, YearFromTime, MonthFromTime, DateFromTime, date_text.
  destruct (civil (Day t)) as [[y m] d]. cbn [fst snd]. now rewrite Z.sub_add.
Qed.

Lemma day_of_month_range (day : Z) : 1 <= snd (civil day) <= 31.
Proof.
  unfold civil.
  assert (H : 0 <= (day + epochShift) mod daysPerEra < daysPerEra)
    by (apply Z.mod_pos_bound; reflexivity).
  destruct (date_of_era_day_spec _ H) as (yoe & mp & d & -> & _ & _ & Hd & _).
  cbn [snd]. exact Hd.
Qed.

Lemma compare_digit (a b : Z) (s s' : string) :
  0 <= a <= 9 -> 0 <= b <= 9 ->
  String.compare (String (digit_char a) s) (String (digit_char b) s') =
  match a ?= b with Eq => String.compare s s' | c => c end.
Proof.
  intros Ha Hb. digit_cases a; digit_cases b; reflexivity.
Qed.

Lemma digit_ordinary (a : Z) (s : string) :
  0 <= a <= 9 -> ordinary (String (digit_char a) s).
Proof. intros Ha. digit_cases a; reflexivity. Qed.

Lemma digits_value_hyphen (s rest : string) (acc : N) :
  digits_value (s ++ String "-" rest) acc = None.
Proof.
  revert acc. induction s as [| c s IH]; intros acc; cbn [append digits_value].
  - reflexivity.
  - destruct (digit_value c); [apply IH | reflexivity].
Qed.

Lemma array_index_hyphen (c c' : ascii) (s rest : string) :
  array_index (String c (String c' s ++ String "-" rest)) = None.
Proof.
  assert (H : digits_value (String c (String c' s ++ String "-" rest)) 0 = None)
    by apply (digits_value_hyphen (String c (String c' s))).
  unfold array_index. rewrite H.
  destruct c as [[] [] [] [] [] [] [] []]; reflexivity.
Qed.

Lemma pad_digits_4 (n : Z) (s : string) :
  pad_digits 4 n s =
  String (digit_char (n / 10 / 10 / 10 mod 10))
    (String (digit_char (n / 10 / 10 mod 10))
       (String (digit_char (n / 10 mod 10)) (String (digit_char (n mod 10)) s))).
Proof. reflexivity. Qed.

Lemma pad_digits_2 (n : Z) (s : string) :
  pad_digits 2 n s =
  String (digit_char (n / 10 mod 10)) (String (digit_char (n mod 10)) s).
Proof. reflexivity. Qed.

Lemma date_text_four_digits (y m d : Z) :
  0 <= y <= 9999 ->
  date_text (y, m, d) =
  (pad_digits 4 y "" ++ String "-" (pad_digits 2 m "" ++ String "-" (pad_digits 2 d "")))%string.
Proof.
  intros Hy. unfold date_text, iso_year.
  destruct (Z.leb_spec 0 y), (Z.leb_spec y 9999); try lia. reflexivity.
Qed.

(** Dates of four-digit years compare as texts the way they compare as
    dates. *)
Lemma date_text_compare (date1 date2 : Z * Z * Z) :
  four_digits date1 -> four_digits date2 ->
  String.compare (date_text date1) (date_text date2) = Z.compare (ymd date1) (ymd date2).
Proof.
  destruct date1 as [[y1 m1] d1], date2 as [[y2 m2] d2].
  intros (Hy1 & Hm1 & Hd1) (Hy2 & Hm2 & Hd2).
  rewrite !date_text_four_digits by assumption.
  rewrite !pad_digits_4, !pad_digits_2. cbn [append].
  assert (B : forall n, 0 <= n mod 10 <= 9) by (intros n; pose proof (Z.mod_pos_bound n 10); lia).
  rewrite !compare_digit by apply B.
  change (String.compare (String "-" ?s) (String "-" ?s')) with (String.compare s s').
  rewrite !compare_digit by apply B.
  change (String.compare (String "-" ?s) (String "-" ?s')) with (String.compare s s').
  rewrite !compare_digit by apply B.
  change (String.compare "" "") with Eq.
  unfold ymd.
  assert (Ey1 : y1 = 1000 * (y1 / 10 / 10 / 10 mod 10) + 100 * (y1 / 10 / 10 mod 10)
                     + 10 * (y1 / 10 mod 10) + y1 mod 10)
    by (Z.div_mod_to_equations; lia).
  assert (Ey2 : y2 = 1000 * (y2 / 10 / 10 / 10 mod 10) + 100 * (y2 / 10 / 10 mod 10)
                     + 10 * (y2 / 10 mod 10) + y2 mod 10)
    by (Z.div_mod_to_equations; lia).
  assert (Em1 : m1 = 10 * (m1 / 10 mod 10) + m1 mod 10) by (Z.div_mod_to_equations; lia).
  assert (Em2 : m2 = 10 * (m2 / 10 mod 10) + m2 mod 10) by (Z.div_mod_to_equations; lia).
  assert (Ed1 : d1 = 10 * (d1 / 10 mod 10) + d1 mod 10) by (Z.div_mod_to_equations; lia).
  assert (Ed2 : d2 = 10 * (d2 / 10 mod 10) + d2 mod 10) by (Z.div_mod_to_equations; lia).
  pose proof (B (y1 / 10 / 10 / 10)). pose proof (B (y1 / 10 / 10)). pose proof (B (y1 / 10)).
  pose proof (B y1). pose proof (B (m1 / 10)). pose proof (B m1).
  pose proof (B (d1 / 10)). pose proof (B d1).
  pose proof (B (y2 / 10 / 10 / 10)). pose proof (B (y2 / 10 / 10)). pose proof (B (y2 / 10)).
  pose proof (B y2). pose proof (B (m2 / 10)). pose proof (B m2).
  pose proof (B (d2 / 10)). pose proof (B d2).
  clear B.
  generalize dependent (y1 / 10 / 10 / 10 mod 10). generalize dependent (y1 / 10 / 10 mod 10).
  generalize dependent (y1 / 10 mod 10). generalize dependent (y1 mod 10).
  generalize dependent (m1 / 10 mod 10). generalize dependent (m1 mod 10).
  generalize dependent (d1 / 10 mod 10). generalize dependent (d1 mod 10).
  generalize dependent (y2 / 10 / 10 / 10 mod 10). generalize dependent (y2 / 10 / 10 mod 10).
  generalize dependent (y2 / 10 mod 10). generalize dependent (y2 mod 10).
  generalize dependent (m2 / 10 mod 10). generalize dependent (m2 mod 10).
  generalize dependent (d2 / 10 mod 10). generalize dependent (d2 mod 10).
  intros. symmetry.
  repeat match goal with
         | |- context [match ?x ?= ?y with _ => _ end] => destruct (Z.compare_spec x y)
         end;
    first [apply Z.compare_eq_iff | apply Z.compare_lt_iff | apply Z.compare_gt_iff]; lia.
Qed.

Lemma civil_four_digits (t : Z) :
  0 <= YearFromTime t <= 9999 -> four_digits (civil (Day t)).
Proof.
  unfold YearFromTime. intros Hy.
  pose proof (month_range (Day t)). pose proof (day_of_month_range (Day t)).
  destruct (civil (Day t)) as [[y m] d]. cbn [fst snd] in *. repeat split; lia.
Qed.

(** For years 0..9999 the date keys are ordered as the days are. *)
Lemma isoDate_compare (t1 t2 : Z) :
  0 <= YearFromTime t1 <= 9999 -> 0 <= YearFromTime t2 <= 9999 ->
  String.compare (isoDate t1) (isoDate t2) = Z.compare (Day t1) (Day t2).
Proof.
  intros H1 H2. rewrite !isoDate_civil.
  rewrite date_text_compare by now apply civil_four_digits.
  apply civil_ymd_compare.
Qed.

Lemma isoDate_ordinary_key (t : Z) :
  0 <= YearFromTime t <= 9999 ->
  ordinary (isoDate t) /\ array_index (isoDate t) = None.
Proof.
  intros Hy. rewrite isoDate_civil.
  pose proof (civil_four_digits t Hy) as H4.
  destruct (civil (Day t)) as [[y m] d]. destruct H4 as (Hy' & _ & _).
  rewrite date_text_four_digits by exact Hy'. rewrite pad_digits_4. cbn [append].
  split.
  - apply digit_ordinary. pose proof (Z.mod_pos_bound (y / 10 / 10 / 10) 10). lia.
  - apply (array_index_hyphen _ _
             (String (digit_char (y / 10 mod 10)) (String (digit_char (y mod 10)) ""))).
Qed.

(* ================================================================== *)
(** * The trend by date                                                  *)
(* ================================================================== *)

Lemma string_compare_refl (s : string) : String.compare s s = Eq.
Proof.
  pose proof (String.compare_antisym s s) as H.
  destruct (String.compare s s); [reflexivity | discriminate | discriminate].
Qed.

Lemma Day_of_day (d : Z) : Day (d * msPerDay) = d.
Proof. unfold Day. apply Z.div_mul. discriminate. Qed.

Lemma isoDate_isoDay (t : Z) : isoDate t = isoDay (Day t).
Proof. unfold isoDay. now rewrite !isoDate_civil, Day_of_day. Qed.

Lemma YearFromTime_day (t : Z) : YearFromTime (Day t * msPerDay) = YearFromTime t.
Proof. unfold YearFromTime. now rewrite Day_of_day. Qed.

Lemma isoDay_compare (d d' : Z) :
  0 <= YearFromTime (d * msPerDay) <= 9999 ->
  0 <= YearFromTime (d' * msPerDay) <= 9999 ->
  String.compare (isoDay d) (isoDay d') = Z.compare d d'.
Proof.
  intros H H'. unfold isoDay. rewrite (isoDate_compare _ _ H H').
  now rewrite !Day_of_day.
Qed.

Lemma isoDay_inj (d d' : Z) :
  0 <= YearFromTime (d * msPerDay) <= 9999 ->
  0 <= YearFromTime (d' * msPerDay) <= 9999 ->
  isoDay d = isoDay d' -> d = d'.
Proof.
  intros H H' Heq. apply Z.compare_eq_iff.
  rewrite <- (isoDay_compare d d' H H'), Heq. apply string_compare_refl.
Qed.

Lemma Forall_exists_Forall2 {A B : Type} (P : A -> B -> Prop) (l : list A) :
  Forall (fun x => exists y, P x y) l -> exists l', Forall2 P l l'.
Proof.
  induction 1 as [| x l [y Hy] _ [l' IH]].
  - exists []. constructor.
  - exists (y :: l'). now constructor.
Qed.

Lemma Forall2_map_eq {A B : Type} (f : B -> A) (l : list A) (l' : list B) :
  Forall2 (fun x y => x = f y) l l' -> l = map f l'.
Proof. induction 1; cbn; congruence. Qed.

Lemma Sorted_map_inv {A B : Type} (f : A -> B) (R : B -> B -> Prop) (l : list A) :
  Sorted R (map f l) -> Sorted (fun a b => R (f a) (f b)) l.
Proof.
  induction l as [| x l IH]; cbn [map]; intros H; [constructor |].
  inversion H as [| ? ? Hl Hx]; subst. constructor; [now apply IH |].
  destruct l as [| y l]; cbn [map] in *; constructor.
  now inversion Hx.
Qed.

Lemma StronglySorted_le_lt (l : list Z) :
  StronglySorted Z.le l -> NoDup l -> StronglySorted Z.lt l.
Proof.
  induction 1 as [| x l Hl IH Hx]; intros Hnd; constructor;
    inversion Hnd as [| ? ? Hnin Hnd']; subst.
  - now apply IH.
  - rewrite Forall_forall in *. intros y Hy.
    specialize (Hx y Hy). assert (x <> y) by congruence. lia.
Qed.

Section Trend.
Variable host : Host.

Lemma dateGroups_keys (E : list Event) :
  Forall (parseable host) E ->
  dateGroups host E = Some (fold_left count_up (map (date_key host) E) []).
Proof.
  intros HE. unfold dateGroups. generalize (@nil (string * prim)) as o.
  induction HE as [| e E [t Ht] _ IH]; intros o; cbn [fold_left map]; [reflexivity |].
  assert (Hk : date_key host e = isoDate t) by (unfold date_key; now rewrite Ht).
  now rewrite Ht, IH, Hk.
Qed.

(** An unreadable date makes [toISOString] throw. *)
Lemma processEventsTrend_throws (E : list Event) :
  (exists e, In e E /\ new_Date host (reported_at e) = None) ->
  processEventsTrend host E = None.
Proof.
  intros (e & He & Hnone). unfold processEventsTrend.
  enough (H : dateGroups host E = None) by now rewrite H.
  unfold dateGroups. generalize (Some (@nil (string * prim))) as acc.
  induction E as [| x E IH]; intros acc; [destruct He |].
  cbn [fold_left]. destruct He as [-> | He].
  - rewrite Hnone. destruct acc; clear.
    + induction E as [| y E IH]; [reflexivity | exact IH].
    + induction E as [| y E IH]; [reflexivity | exact IH].
  - now apply IH.
Qed.

Lemma four_digit_year_parseable (E : list Event) :
  Forall (four_digit_year host) E -> Forall (parseable host) E.
Proof.
  apply Forall_impl. intros e (t & Ht & _). now exists t.
Qed.

Lemma date_key_day (e : Event) (d : Z) :
  four_digit_year host e -> 0 <= YearFromTime (d * msPerDay) <= 9999 ->
  (date_key host e =? isoDay d)%string = on_day host d e.
Proof.
  intros (t & Ht & Hy) Hd. unfold date_key, on_day, falls_in, day_of.
  rewrite Ht. cbn [option_map]. unfold isoDay.
  pose proof (isoDate_compare t (d * msPerDay) Hy Hd) as Hc.
  rewrite Day_of_day in Hc.
  destruct (String.eqb_spec (isoDate t) (isoDate (d * msPerDay))) as [E | E],
    (Z.eqb_spec (Day t) d) as [E' | E']; try reflexivity.
  - rewrite E in Hc. rewrite string_compare_refl in Hc.
    symmetry in Hc. apply Z.compare_eq_iff in Hc. contradiction.
  - rewrite E', Z.compare_refl in Hc. apply String.compare_eq_iff in Hc. contradiction.
Qed.

(** C8, as amended.  When every [reported_at] reads as a date of a year
    0000..9999, [processEventsTrend] makes one bucket per UTC calendar
    day on which at least one event was reported, counting the events of
    that day, puts the buckets in ascending order of the day and keeps
    the last 30 of them: all of them when there are at most 30, and not
    the last 30 days of the calendar. *)
Theorem processEventsTrend_recent_buckets (E : list Event) :
  Forall (four_digit_year host) E ->
  exists (days : list Z) (groups : object),
    StronglySorted Z.lt days /\
    (forall d, In d days <-> exists e, In e E /\ day_of host e = Some d) /\
    dateGroups host E = Some groups /\
    let bucket d := (isoDay d, PNum (count_where (on_day host d) E)) in
    let kept := skipn (List.length days - 30) days in
    trendBuckets groups = map bucket kept /\
    (List.length days <= 30 -> kept = days)%nat /\
    List.length kept = Nat.min 30 (List.length days) /\
    processEventsTrend host E =
      Some (map (fun d =>
                   {| date := toLocaleDateString_day_month host (new_Date host (isoDay d));
                      date_count := PNum (count_where (on_day host d) E) |})
                kept).
Proof.
  intros H4.
  pose proof (four_digit_year_parseable E H4) as Hparse.
  pose proof (dateGroups_keys E Hparse) as Hgroups.
  set (keys := map (date_key host) E) in *.
  assert (Hkey : forall k, In k keys ->
             exists d, k = isoDay d /\ 0 <= YearFromTime (d * msPerDay) <= 9999 /\
                       exists e, In e E /\ day_of host e = Some d).
  { intros k Hk. subst keys. apply in_map_iff in Hk. destruct Hk as (e & <- & He).
    rewrite Forall_forall in H4. destruct (H4 e He) as (t & Ht & Hy).
    exists (Day t). unfold date_key, day_of. rewrite Ht, YearFromTime_day.
    split; [apply isoDate_isoDay | split; [exact Hy |]].
    exists e. split; [exact He | now rewrite Ht]. }
  assert (Hord : Forall ordinary keys).
  { apply Forall_forall. intros k Hk. destruct (Hkey k Hk) as (d & -> & Hy & _).
    now apply isoDate_ordinary_key. }
  destruct (count_all_ordinary keys Hord [] ltac:(constructor))
    as (Hnum & Hst & Hkeys & _ & Hnd).
  set (o := fold_left count_up keys []) in *.
  specialize (Hnd ltac:(constructor)).
  assert (Hinkeys : forall k, In k (map fst o) <-> In k keys).
  { intros k. rewrite Hkeys. cbn. tauto. }
  assert (Hentries : Object_entries o = o).
  { apply Object_entries_named. apply Forall_forall. intros [k v] Hp. cbn [fst].
    apply (in_map fst) in Hp. apply Hinkeys in Hp.
    destruct (Hkey k Hp) as (d & -> & Hy & _). now apply isoDate_ordinary_key. }
  set (cmp := fun a b : string * prim => localeCompare (fst a) (fst b)).
  set (L := sort cmp o).
  assert (HP : Permutation L o) by apply sort_Permutation.
  set (bucket := fun d => (isoDay d, PNum (count_where (on_day host d) E))).
  assert (HL : Forall (fun p => exists d,
                         p = bucket d /\ 0 <= YearFromTime (d * msPerDay) <= 9999 /\
                         exists e, In e E /\ day_of host e = Some d) L).
  { apply Forall_forall. intros [k v] Hp. apply (Permutation_in _ HP) in Hp.
    pose proof (in_map fst _ _ Hp) as Hk. cbn [fst] in Hk. apply Hinkeys in Hk.
    destruct (Hkey k Hk) as (d & -> & Hy & He). exists d.
    split; [| split; assumption]. subst bucket. cbv beta. f_equal.
    pose proof (own_first o _ v Hnd Hp) as Hown.
    specialize (Hst (isoDay d)). unfold stored in Hst. rewrite Hown in Hst.
    destruct (own_numeric o _ v Hnum Hown) as [n ->]. f_equal.
    rewrite Hst. cbn [own Z.add]. subst keys. rewrite occurrences_map.
    apply count_where_ext. intros e Hin. apply date_key_day; [| exact Hy].
    rewrite Forall_forall in H4. now apply H4. }
  destruct (Forall_exists_Forall2 _ L HL) as [days Hdays].
  assert (HLmap : L = map bucket days).
  { apply Forall2_map_eq. revert Hdays. apply Forall2_impl. tauto. }
  assert (Hrange : forall d, In d days ->
             0 <= YearFromTime (d * msPerDay) <= 9999 /\
             exists e, In e E /\ day_of host e = Some d).
  { clear - Hdays. induction Hdays as [| p d L days Hpd _ IH]; intros x []; subst; tauto || auto. }
  assert (Hinj : forall d d', In d days -> In d' days -> isoDay d = isoDay d' -> d = d').
  { intros d d' Hd Hd'. apply isoDay_inj; [apply (Hrange d Hd) | apply (Hrange d' Hd')]. }
  assert (Hkeysdays : map fst L = map isoDay days).
  { rewrite HLmap, map_map. reflexivity. }
  assert (HndL : NoDup (map isoDay days)).
  { rewrite <- Hkeysdays. apply (Permutation_NoDup (l := map fst o)); [| exact Hnd].
    apply Permutation_map. now symmetry. }
  assert (Hnddays : NoDup days) by now apply NoDup_map_inv in HndL.
  assert (Hsorted : StronglySorted Z.lt days).
  { apply StronglySorted_le_lt; [| exact Hnddays].
    apply Sorted_StronglySorted; [intros a b c; apply Z.le_trans |].
    assert (HS : Sorted (fun x y => before_or_equal cmp x y = true) (map bucket days)).
    { rewrite <- HLmap. apply sort_Sorted. intros x y. subst cmp.
      unfold ordered_by, before_or_equal, localeCompare.
      rewrite (String.compare_antisym (fst x) (fst y)).
      destruct (String.compare (fst y) (fst x)); cbn [CompOpp]; auto. }
    apply Sorted_map_inv in HS. revert HS. apply Sorted_weaken.
    intros d d' Hd Hd'. subst cmp bucket. unfold before_or_equal, localeCompare.
    cbn [fst].
    rewrite (isoDay_compare d d' (proj1 (Hrange d Hd)) (proj1 (Hrange d' Hd'))).
    destruct (Z.compare_spec d d'); intros Hle; [lia | lia | discriminate Hle]. }
  exists days, o. split; [exact Hsorted |]. split; [| split; [exact Hgroups |]].
  - intros d. split; [apply Hrange |].
    intros (e & He & Hd).
    assert (Hk : In (date_key host e) keys) by (subst keys; now apply in_map).
    apply Hinkeys in Hk.
    apply (Permutation_in (l' := map fst L)) in Hk; [| apply Permutation_map; now symmetry].
    rewrite Hkeysdays in Hk. apply in_map_iff in Hk. destruct Hk as (d' & Heq & Hd').
    rewrite Forall_forall in H4. destruct (H4 e He) as (t & Ht & Hy).
    unfold day_of in Hd. unfold date_key in Heq. rewrite Ht in Hd, Heq.
    cbn in Hd. injection Hd as <-.
    rewrite isoDate_isoDay in Heq.
    rewrite <- (isoDay_inj d' (Day t) (proj1 (Hrange d' Hd'))
                  ltac:(now rewrite YearFromTime_day) Heq).
    exact Hd'.
  - cbv zeta.
    assert (Hbuckets : trendBuckets o = map bucket (skipn (List.length days - 30) days)).
    { unfold trendBuckets, slice_last. rewrite Hentries. fold cmp. fold L.
      rewrite HLmap, length_map. apply skipn_map. }
    split; [exact Hbuckets |]. split; [| split].
    + intros Hle. replace (List.length days - 30)%nat with 0%nat by lia. reflexivity.
    + rewrite length_skipn. lia.
    + unfold processEventsTrend. rewrite Hgroups. cbn [option_map].
      rewrite Hbuckets, map_map. reflexivity.
Qed.
End Trend.

Lemma processEventsTrend_recent_buckets_witness :
  exists (days : list Z) (groups : object),
    StronglySorted Z.lt days /\
    dateGroups Sample.utc [Sample.fire; Sample.smoke] = Some groups /\
    trendBuckets groups =
      map (fun d => (isoDay d,
                     PNum (count_where (on_day Sample.utc d) [Sample.fire; Sample.smoke])))
          (skipn (List.length days - 30) days).
Proof.
  assert (H : Forall (four_digit_year Sample.utc) [Sample.fire; Sample.smoke]).
  { constructor; [| constructor; [| constructor]];
      eexists; (split; [vm_compute; reflexivity | vm_compute; split; discriminate]). }
  destruct (processEventsTrend_recent_buckets Sample.utc [Sample.fire; Sample.smoke] H)
    as (days & groups & H1 & _ & H3 & H4 & _).
  exists days, groups. split; [exact H1 | split; [exact H3 | exact H4]].
Defined.

(** C8 as stated fails beyond the year 9999: the text "+010000-01-01"
    sorts before "2024-03-15", so the later day comes first. *)
Lemma processEventsTrend_year_10000_counterexample :
  day_of Sample.utc Sample.fire = Some 19797 /\
  day_of Sample.utc year_10000 = Some 2932897 /\
  parseable Sample.utc Sample.fire /\ parseable Sample.utc year_10000 /\
  exists groups,
    dateGroups Sample.utc [Sample.fire; year_10000] = Some groups /\
    trendBuckets groups = [("+010000-01-01", PNum 1); ("2024-03-15", PNum 1)]%string /\
    map fst (trendBuckets groups) = [isoDay 2932897; isoDay 19797] /\
    processEventsTrend Sample.utc [Sample.fire; year_10000] =
      Some [ {| date := "Jan 01"; date_count := PNum 1 |};
             {| date := "Mar 15"; date_count := PNum 1 |} ]%string.
Proof.
  split; [vm_compute; reflexivity |].
  split; [vm_compute; reflexivity |].
  split; [eexists; vm_compute; reflexivity |].
  split; [eexists; vm_compute; reflexivity |].
  eexists. split; [vm_compute; reflexivity |].
  split; [vm_compute; reflexivity |].
  split; vm_compute; reflexivity.
Qed.

(* ================================================================== *)
(** * Tags that name members of [Object.prototype]                       *)
(* ================================================================== *)

(** C5.  [processTopTags] is to list at most ten tags, in non-increasing
    order of their counts, each with the number of its occurrences.  For
    tags [Object.prototype] does not define this is
    [processTopTags_ordinary].  For the tag "constructor" the counter
    starts from the inherited function instead of 0: one occurrence is
    listed with the string "function Object() { [native code] }1" as its
    count, not with 1. *)
Theorem processTopTags_constructor_tag :
  processTopTags [Sample.event RED ["constructor"]%string "2024-03-15T10:00"] =
  [ {| tag := "constructor";
       tag_count := PStr "function Object() { [native code] }1" |} ]%string.
Proof. reflexivity. Qed.

(** C10.  A tag repeated inside one event is to be counted once per
    occurrence: [processTopTags_repeated_tag] for the tags
    [Object.prototype] does not define.  The tag "constructor" twice in
    one event is listed with the string
    "function Object() { [native code] }11", not with the count 2. *)
Theorem processTopTags_constructor_twice :
  processTopTags
    [Sample.event RED ["constructor"; "constructor"]%string "2024-03-15T10:00"] =
  [ {| tag := "constructor";
       tag_count := PStr "function Object() { [native code] }11" |} ]%string.
Proof. reflexivity. Qed.

(** The tag "__proto__" is never counted: the assignment goes to the
    setter inherited from [Object.prototype], which ignores a primitive. *)
Lemma processTopTags_proto_tag :
  processTopTags [Sample.event RED ["__proto__"; "fire"]%string "2024-03-15T10:00"] =
  [ {| tag := "fire"; tag_count := PNum 1 |} ]%string.
Proof. reflexivity. Qed.

(** A tag [Object.prototype] does not define, listed [n] times by one
    event, is counted [n] times. *)
Lemma processTopTags_repeated_tag (e : Event) (t : string) (n : nat) :
  ordinary t -> tags e = repeat t (S n) ->
  processTopTags [e] = [ {| tag := t; tag_count := PNum (Z.of_nat (S n)) |} ].
Proof.
  intros Hord Htags. unfold processTopTags, tagCounts. cbn [fold_left]. rewrite Htags.
  assert (Hrep : forall m k, fold_left count_up (repeat t m) [(t, PNum k)]
                             = [(t, PNum (k + Z.of_nat m))]).
  { induction m as [| m IH]; intros k; cbn [repeat fold_left].
    - now rewrite Z.add_0_r.
    - rewrite (count_up_ordinary _ t Hord) by (repeat constructor; eexists; reflexivity).
      unfold stored. cbn [own put]. rewrite String.eqb_refl, IH. do 3 f_equal. lia. }
  assert (Ho : fold_left count_up (repeat t (S n)) [] = [(t, PNum (Z.of_nat (S n)))]).
  { cbn [repeat fold_left]. rewrite (count_up_ordinary [] t Hord) by constructor.
    change (put [] t (PNum (stored [] t + 1))) with [(t, PNum 1)].
    rewrite Hrep. do 3 f_equal. lia. }
  rewrite Ho. unfold Object_entries, named_entries. cbn [indexed_entries filter fst].
  destruct (array_index t); reflexivity.
Qed.

(* ================================================================== *)
(** * The scenario of the specification                                  *)
(* ================================================================== *)

(** Two events of 15 March 2024, one RED tagged fire at 10:00 and one
    GREEN tagged fire and smoke at 14:00. *)
Example two_fires :
  let E := [Sample.fire; Sample.smoke] in
  nth 2 (processEventsByMonth Sample.utc E) {| month := ""; month_count := Undefined |}
    = {| month := "Mar"; month_count := Prim (PNum 2) |} /\
  map (fun b => (name b, value b, fixed1_text (percentage b))) (processEventsByAlertCode E)
    = [("GREEN", PNum 1, "50.0"); ("YELLOW", PNum 0, "0.0");
       ("ORANGE", PNum 0, "0.0"); ("RED", PNum 1, "50.0")] /\
  processTopTags E = [ {| tag := "fire"; tag_count := PNum 2 |};
                       {| tag := "smoke"; tag_count := PNum 1 |} ] /\
  filter (fun b => negb (hour_count b =? 0)) (processEventsByHour Sample.utc E)
    = [ {| hour := "10:00"; hour_count := 1 |}; {| hour := "14:00"; hour_count := 1 |} ] /\
  processEventsTrend Sample.utc E = Some [ {| date := "Mar 15"; date_count := PNum 2 |} ] /\
  total (calculateStatistics Sample.utc (fun _ => 1710511200000) E) = 2%nat.
Proof. vm_compute. repeat split. Qed.

(* ================================================================== *)
(** * More on the paginated fetch                                        *)
(* ================================================================== *)

(** Every list of answers starts with full pages, followed by nothing,
    by a failure or by a short page. *)
Lemma backend_full_prefix (backend : list response) :
  exists (full : list (list Event)) (tail : list response),
    Forall full_page full /\ backend = map Data full ++ tail /\
    (tail = [] \/ (exists rest, tail = Rejected :: rest) \/
     (exists last rest, tail = Data last :: rest
                        /\ (List.length last < page_limit)%nat)).
Proof.
  induction backend as [| [page |] backend (full & tail & Hfull & -> & Htail)].
  - exists [], []. split; [constructor | split; [reflexivity | now left]].
  - destruct (Nat.ltb_spec (List.length page) page_limit) as [Hlt | Hge].
    + exists [], (Data page :: map Data full ++ tail).
      split; [constructor | split; [reflexivity |]].
      right; right. now exists page, (map Data full ++ tail).
    + exists (page :: full), tail.
      split; [constructor; assumption | split; [reflexivity | exact Htail]].
  - exists [], (Rejected :: map Data full ++ tail).
    split; [constructor | split; [reflexivity |]].
    right; left. now exists (map Data full ++ tail).
Qed.

(** X1.  Whatever the backend answers, one call of [getAllForAnalytics]
    reads some number of full pages and then ends in exactly one of three
    ways: a short page arrives and the promise resolves with all the pages
    read, in order; a request fails and the promise rejects; or the
    answers stop and the promise stays pending.  In each case one request
    more than the full pages read was sent, at offsets 0, 100, 200, ...,
    and nothing is requested after the end. *)
Theorem getAllForAnalytics_outcomes (backend : list response) :
  exists full : list (list Event),
    Forall full_page full /\
    requests (getAllForAnalytics backend) = page_requests 0 (S (List.length full)) /\
    ((exists last rest,
         backend = map Data full ++ Data last :: rest /\
         (List.length last < page_limit)%nat /\
         result (getAllForAnalytics backend) = Resolved (List.concat full ++ last) /\
         unread (getAllForAnalytics backend) = rest) \/
     (exists rest,
         backend = map Data full ++ Rejected :: rest /\
         result (getAllForAnalytics backend) = Thrown /\
         unread (getAllForAnalytics backend) = rest) \/
     (backend = map Data full /\
      result (getAllForAnalytics backend) = Pending /\
      unread (getAllForAnalytics backend) = [])).
Proof.
  destruct (backend_full_prefix backend) as (full & tail & Hfull & -> & Htail).
  exists full. split; [exact Hfull |].
  destruct Htail as [-> | [(rest & ->) | (last & rest & -> & Hlast)]].
  - rewrite app_nil_r.
    assert (H : getAllForAnalytics (map Data full) =
                {| result := Pending;
                   requests := page_requests 0 (S (List.length full));
                   unread := [] |}).
    { unfold getAllForAnalytics.
      pose proof (loop_full_pages full Hfull [] [] 0%nat []) as Hloop.
      change (0 * page_limit)%nat with 0%nat in Hloop. rewrite app_nil_r in Hloop.
      rewrite Hloop. cbn [getAllForAnalytics_loop].
      rewrite page_requests_snoc, <- app_assoc. reflexivity. }
    rewrite H. split; [reflexivity |]. right; right. repeat split.
  - rewrite (getAllForAnalytics_rejects full rest Hfull).
    split; [reflexivity |]. right; left. exists rest. repeat split.
  - rewrite (getAllForAnalytics_resolves full last rest Hfull Hlast).
    split; [reflexivity |]. left. exists last, rest. repeat split. exact Hlast.
Qed.

(** X2.  A load that succeeds after one that failed shows exactly the
    events of the second fetch and takes the message of the failure away:
    nothing of the failed attempt is left in the state. *)
Theorem loadEvents_retry
    (st : PageState) (full : list (list Event)) (rest : list response)
    (full' : list (list Event)) (last : list Event) (rest' : list response) :
  Forall full_page full -> Forall full_page full' ->
  (List.length last < page_limit)%nat ->
  let failed := fst (loadEvents st (map Data full ++ Rejected :: rest)) in
  let again := fst (loadEvents failed (map Data full' ++ Data last :: rest')) in
  error failed = Some "Could not load data from server"%string /\
  events failed = events st /\
  again = {| events := List.concat full' ++ last; loading := false; error := None;
             timeRange := timeRange st |}.
Proof.
  intros Hfull Hfull' Hlast failed again. subst again failed. unfold loadEvents.
  rewrite (getAllForAnalytics_rejects full rest Hfull).
  rewrite (getAllForAnalytics_resolves full' last rest' Hfull' Hlast).
  repeat split.
Qed.

Lemma loadEvents_retry_witness :
  fst (loadEvents
         (fst (loadEvents {| events := [Sample.fire]; loading := false; error := None;
                             timeRange := Range7d |}
                          (map Data [] ++ Rejected :: [])))
         (map Data [repeat Sample.fire 100] ++ Data [Sample.smoke] :: []))
  = {| events := List.concat [repeat Sample.fire 100] ++ [Sample.smoke];
       loading := false; error := None; timeRange := Range7d |}.
Proof.
  apply (loadEvents_retry
           {| events := [Sample.fire]; loading := false; error := None;
              timeRange := Range7d |}
           [] [] [repeat Sample.fire 100] [Sample.smoke] []).
  - constructor.
  - constructor; [| constructor]. unfold full_page. rewrite repeat_length.
    unfold page_limit. lia.
  - unfold page_limit. cbn. lia.
Defined.

(* ================================================================== *)
(** * More on the fixed-dimension aggregators                            *)
(* ================================================================== *)

Lemma count_where_app {A : Type} (p : A -> bool) (l1 l2 : list A) :
  count_where p (l1 ++ l2) = count_where p l1 + count_where p l2.
Proof. unfold count_where. rewrite filter_app, length_app. lia. Qed.

Lemma count_where_Permutation {A : Type} (p : A -> bool) (l l' : list A) :
  Permutation l l' -> count_where p l = count_where p l'.
Proof.
  induction 1; rewrite ?count_where_cons; lia.
Qed.

Lemma Zsum_zeros {A : Type} (l : list A) : Zsum (map (fun _ => 0) l) = 0.
Proof. induction l as [| x l IH]; [reflexivity |]. cbn [map]. now rewrite Zsum_cons, IH. Qed.

(** The buckets 0..n-1 hold between them the elements whose index is
    defined and inside 0..n-1. *)
Lemma buckets_partition_in_range {A : Type} (index : A -> option Z) (n : nat)
    (l : list A) :
  Zsum (map (fun i => count_where (falls_in index (Z.of_nat i)) l) (seq 0 n)) =
  count_where (fun x => match index x with
                        | Some j => (0 <=? j) && (j <? Z.of_nat n)
                        | None => false
                        end) l.
Proof.
  induction l as [| x l IH].
  - apply Zsum_zeros.
  - rewrite count_where_cons, <- IH.
    transitivity
      (Zsum (map (fun i => if falls_in index (Z.of_nat i) x then 1 else 0) (seq 0 n)) +
       Zsum (map (fun i => count_where (falls_in index (Z.of_nat i)) l) (seq 0 n))).
    + clear IH. induction (seq 0 n) as [| i s IHs]; [reflexivity |].
      cbn [map]. rewrite !Zsum_cons, IHs, count_where_cons. lia.
    + f_equal. unfold falls_in. destruct (index x) as [j |].
      * apply (Zsum_indicator j 0 n).
      * apply Zsum_zeros.
Qed.

Section MoreAggregators.
Variable host : Host.

Lemma readable_index (get : Host -> Date -> option Z) (n : nat) (e : Event) :
  (forall s i, get host (new_Date host s) = Some i -> 0 <= i < Z.of_nat n) ->
  (forall t, get host (Some t) <> None) ->
  get host None = None ->
  match get host (new_Date host (reported_at e)) with
  | Some j => (0 <=? j) && (j <? Z.of_nat n)
  | None => false
  end = readable host e.
Proof.
  intros Hrange Hsome Hnone. unfold readable.
  destruct (get host (new_Date host (reported_at e))) as [j |] eqn:Hj.
  - pose proof (Hrange _ _ Hj) as Hr.
    destruct (new_Date host (reported_at e)) as [t |]; [| congruence].
    destruct (Z.leb_spec 0 j), (Z.ltb_spec j (Z.of_nat n)); cbn; lia || reflexivity.
  - destruct (new_Date host (reported_at e)) as [t |]; [| reflexivity].
    now apply Hsome in Hj.
Qed.

Lemma month_counts_eq (E : list Event) :
  month_counts host E =
  map (fun i => count_where (falls_in (month_of host) (Z.of_nat i)) E) (seq 0 12).
Proof.
  unfold month_counts. rewrite processEventsByMonth_counts, map_map. reflexivity.
Qed.

Lemma alert_counts_eq (E : list Event) :
  alert_counts E = map (fun c => count_where (has_code c) E) alert_codes.
Proof.
  unfold alert_counts. rewrite processEventsByAlertCode_counts, map_map. reflexivity.
Qed.

Lemma weekday_counts_eq (E : list Event) :
  weekday_counts host E =
  map (fun i => count_where (falls_in (weekday_of host) (Z.of_nat i)) E) (seq 0 7).
Proof.
  unfold weekday_counts. rewrite processEventsByDayOfWeek_counts, map_map. reflexivity.
Qed.

Lemma hour_counts_eq (E : list Event) :
  hour_counts host E =
  map (fun i => count_where (falls_in (hour_of host) (Z.of_nat i)) E) (seq 0 24).
Proof.
  unfold hour_counts. rewrite processEventsByHour_counts, map_map. reflexivity.
Qed.

(** X3.  The charts by month, weekday and hour leave out the events
    whose [reported_at] cannot be read as a date, without a word: their
    counts add up to the number of events with a readable date.  The
    chart by severity counts every event.  So on one list of events the
    charts may disagree on the total. *)
Theorem date_charts_count_readable_events (E : list Event) :
  Zsum (month_counts host E) = count_where (readable host) E /\
  Zsum (weekday_counts host E) = count_where (readable host) E /\
  Zsum (hour_counts host E) = count_where (readable host) E /\
  Zsum (alert_counts E) = Z.of_nat (List.length E) /\
  Forall (fun b => exists n, month_count b = Prim (PNum n)) (processEventsByMonth host E) /\
  Forall (fun b => exists n, value b = PNum n) (processEventsByAlertCode E).
Proof.
  split; [| split; [| split; [| split; [| split]]]].
  - rewrite month_counts_eq, buckets_partition_in_range.
    apply count_where_ext. intros e _.
    apply (readable_index getMonth 12); [| discriminate | reflexivity].
    intros s i H. pose proof (getMonth_index host s i H). lia.
  - rewrite weekday_counts_eq, buckets_partition_in_range.
    apply count_where_ext. intros e _.
    apply (readable_index getDay 7); [| discriminate | reflexivity].
    intros s i H. pose proof (getDay_index host s i H). lia.
  - rewrite hour_counts_eq, buckets_partition_in_range.
    apply count_where_ext. intros e _.
    apply (readable_index getHours 24); [| discriminate | reflexivity].
    intros s i H. pose proof (getHours_index host s i H). lia.
  - rewrite alert_counts_eq. pose proof (alert_counts_partition E).
    cbn [map alert_codes Zsum fold_right]. lia.
  - rewrite processEventsByMonth_counts. apply Forall_forall. intros b Hb.
    apply in_map_iff in Hb. destruct Hb as (i & <- & _). eexists. reflexivity.
  - rewrite processEventsByAlertCode_counts. apply Forall_forall. intros b Hb.
    apply in_map_iff in Hb. destruct Hb as (c & <- & _). eexists. reflexivity.
Qed.

(** X4.  The four fixed-dimension aggregators do not depend on the order
    of the events: the same events in another order give the same
    buckets, counts and percentages. *)
Theorem aggregators_order_independent (E E' : list Event) :
  Permutation E E' ->
  processEventsByMonth host E = processEventsByMonth host E' /\
  processEventsByAlertCode E = processEventsByAlertCode E' /\
  processEventsByDayOfWeek host E = processEventsByDayOfWeek host E' /\
  processEventsByHour host E = processEventsByHour host E'.
Proof.
  intros HP.
  rewrite !processEventsByMonth_counts, !processEventsByAlertCode_counts,
    !processEventsByDayOfWeek_counts, !processEventsByHour_counts.
  assert (Hlen : length_or_1 E = length_or_1 E').
  { unfold length_or_1. now rewrite (Permutation_length HP). }
  repeat split; apply map_ext; intros i; cbv zeta;
    rewrite ?Hlen; now rewrite (count_where_Permutation _ E E' HP).
Qed.

Lemma pointwise_sum_map {A : Type} (f g : A -> Z) (l : list A) :
  pointwise_sum (map f l) (map g l) = map (fun x => f x + g x) l.
Proof.
  unfold pointwise_sum. induction l as [| x l IH]; [reflexivity |].
  cbn [map combine fst snd]. now rewrite <- IH.
Qed.

(** X5.  Counting is additive: the counts of each fixed-dimension chart
    for two lists of events put together are the counts for the one plus
    the counts for the other, bucket by bucket. *)
Theorem aggregators_additive (E1 E2 : list Event) :
  month_counts host (E1 ++ E2)
    = pointwise_sum (month_counts host E1) (month_counts host E2) /\
  alert_counts (E1 ++ E2) = pointwise_sum (alert_counts E1) (alert_counts E2) /\
  weekday_counts host (E1 ++ E2)
    = pointwise_sum (weekday_counts host E1) (weekday_counts host E2) /\
  hour_counts host (E1 ++ E2)
    = pointwise_sum (hour_counts host E1) (hour_counts host E2).
Proof.
  rewrite !month_counts_eq, !alert_counts_eq, !weekday_counts_eq, !hour_counts_eq.
  rewrite !pointwise_sum_map.
  repeat split; apply map_ext; intros i; apply count_where_app.
Qed.
End MoreAggregators.

Lemma aggregators_order_independent_witness :
  processEventsByHour Sample.utc [Sample.fire; Sample.smoke]
  = processEventsByHour Sample.utc [Sample.smoke; Sample.fire].
Proof.
  apply (aggregators_order_independent Sample.utc [Sample.fire; Sample.smoke]
           [Sample.smoke; Sample.fire]).
  apply perm_swap.
Defined.

(* ================================================================== *)
(** * More on the statistics                                             *)
(* ================================================================== *)






Lemma urgent_count (E : list Event) :
  Z.of_nat (List.length (filter is_urgent E)) =
  count_where (has_code ORANGE) E + count_where (has_code RED) E.
Proof.
  induction E as [| e E IH]; [reflexivity |].
  rewrite !count_where_cons. cbn [filter]. unfold is_urgent at 1, has_code at 1 3.
  destruct (alert_code e); cbn [code_eqb List.length]; lia.
Qed.

(** When every reading of a predicate is false nothing is kept. *)
Lemma filter_clocked_none {A : Type} (reads : nat) (f : (nat -> Z) -> A -> bool)
    (P : Z -> Prop) (l : list A) :
  (forall c x, In x l -> (forall k, P (c k)) -> f c x = false) ->
  forall clock, (forall k, P (clock k)) -> filter_clocked reads f clock l = [].
Proof.
  induction l as [| x l IH]; intros Hf clock Hclock; [reflexivity |].
  cbn [filter_clocked]. rewrite (Hf clock x (or_introl eq_refl) Hclock).
  apply IH.
  - intros c y Hy. apply Hf. now right.
  - intros k. apply Hclock.
Qed.

Section MoreStatistics.
Variable host : Host.


Lemma calculateStatistics_fields (clock : nat -> Z) (E : list Event) :
  E <> [] ->
  let n := List.length E in
  let prevWeek :=
    List.length (filter_clocked 2 (in_prevWeek host) (fun k => clock (n + k)%nat) E) in
  let lastWeek := List.length (filter_clocked 1 (in_lastWeek host) clock E) in
  calculateStatistics host clock E =
  {| total := n;
     avgPerDay := Text (toFixed1 (div (of_nat n) (daysDiff host E)));
     trend := Text (toFixed1
                      (if (0 <? prevWeek)%nat
                       then mul (div (sub (of_nat lastWeek) (of_nat prevWeek))
                                     (of_nat prevWeek)) (of_Z 100)
                       else of_Z 0));
     urgentPercent :=
       Text (toFixed1 (mul (div (of_nat (List.length (filter is_urgent E))) (of_nat n))
                           (of_Z 100))) |}.
Proof. destruct E; [congruence | reflexivity]. Qed.


(** X8.  When no event is older than the start of the last week, at any
    reading of the clock, the trend is "0.0": growth from an empty
    previous week is shown as no change, however many events the last
    week has. *)
Theorem trend_without_previous_week (clock : nat -> Z) (E : list Event) :
  E <> [] ->
  (forall k e t,
      In e E -> new_Date host (reported_at e) = Some t ->
      UTC host (LocalTime host (clock k) - 7 * msPerDay) <= t) ->
  trend (calculateStatistics host clock E) = Text (Tenths false 0).
Proof.
  intros Hne Hrecent.
  rewrite (calculateStatistics_fields clock E Hne). cbn [trend].
  rewrite (filter_clocked_none 2 (in_prevWeek host)
             (fun now => forall e t, In e E -> new_Date host (reported_at e) = Some t ->
                                     UTC host (LocalTime host now - 7 * msPerDay) <= t)).
  - reflexivity.
  - intros c e He Hc. unfold in_prevWeek. rewrite !days_earlier_local.
    unfold Date_ge, Date_lt, getTime.
    destruct (new_Date host (reported_at e)) as [t |] eqn:Ht; [| reflexivity].
    specialize (Hc 0%nat e t He Ht).
    unfold lt. change (of_Z t) with (Fin (inject_Z t)) at 2.
    cbv beta iota. fold (of_Z t).
    change (of_Z (UTC host (LocalTime host (c 0%nat) - 7 * msPerDay)))
      with (Fin (inject_Z (UTC host (LocalTime host (c 0%nat) - 7 * msPerDay)))) at 1.
    cbv beta iota. fold (of_Z (UTC host (LocalTime host (c 0%nat) - 7 * msPerDay))).
    rewrite (ge_of_Z t (UTC host (LocalTime host (c 0%nat) - 7 * msPerDay))).
    destruct (Z.leb_spec (UTC host (LocalTime host (c 0%nat) - 7 * msPerDay)) t);
      [apply andb_false_r | lia].
  - intros k e t. apply Hrecent.
Qed.
End MoreStatistics.


(** Three events over twenty days: 3 / 20 in binary64 is just below 0.15,
    and the card shows 0.1. *)
Example calculateStatistics_average_3_of_20 :
  avgPerDay (calculateStatistics Sample.utc (fun _ => 1710511200000)
               [Sample.event GREEN [] "2024-03-01T00:00";
                Sample.event GREEN [] "2024-03-10T00:00";
                Sample.event GREEN [] "2024-03-20T12:00"])
  = Text (Tenths false 1).
Proof. vm_compute. reflexivity. Qed.

(** The number of events of a severity depends on the severities only. *)
Lemma count_where_codes (c : AlertCode) (E E' : list Event) :
  map alert_code E' = map alert_code E ->
  count_where (has_code c) E' = count_where (has_code c) E.
Proof.
  revert E'. induction E as [| e E IH]; intros [| e' E'] H; try discriminate.
  - reflexivity.
  - cbn [map] in H. injection H as He HE.
    rewrite !count_where_cons, (IH E' HE). unfold has_code. now rewrite He.
Qed.

(** Three shares, the first of the sum of the other two parts: the first
    is the sum of the other two within a tenth. *)
Lemma rounded_shares_add (n c1 c2 u t1 t2 : Z) :
  0 < n ->
  2 * 2 ^ 53 * Z.abs (n * u - 1000 * (c1 + c2)) <= n * (2 ^ 53 + 6000) ->
  2 * 2 ^ 53 * Z.abs (n * t1 - 1000 * c1) <= n * (2 ^ 53 + 6000) ->
  2 * 2 ^ 53 * Z.abs (n * t2 - 1000 * c2) <= n * (2 ^ 53 + 6000) ->
  Z.abs (u - (t1 + t2)) <= 1.
Proof.
  intros Hn Hu H1 H2.
  change (2 ^ 53) with 9007199254740992 in *.
  set (s := u - (t1 + t2)).
  assert (Hs : n * u - n * t1 - n * t2 = n * s) by (subst s; ring).
  assert (H : 2 * 9007199254740992 * Z.abs (n * s)
              <= 3 * (n * (9007199254740992 + 6000))) by lia.
  destruct (Z.le_gt_cases s (-2)) as [Hlow | Hlow].
  { exfalso. assert (n * s <= n * (-2)) by (apply Z.mul_le_mono_nonneg_l; lia). lia. }
  destruct (Z.le_gt_cases 2 s) as [Hhigh | Hhigh].
  { exfalso. assert (n * 2 <= n * s) by (apply Z.mul_le_mono_nonneg_l; lia). lia. }
  lia.
Qed.

(** X7.  The share of urgent events shown on the card is, within one
    tenth of a percent, the sum of the ORANGE and RED percentages of the
    severity chart, and lies between 0.0 and 100.0.  It is the same for
    every host, every reading of the clock and every list of events with
    the same severities in the same order: it does not depend on the
    dates or on the clock. *)
Theorem urgentPercent_matches_severities (E : list Event) :
  E <> [] ->
  exists u g y o r : Z,
    (forall (host : Host) (clock : nat -> Z) (E' : list Event),
        map alert_code E' = map alert_code E ->
        urgentPercent (calculateStatistics host clock E') = Text (Tenths false u)) /\
    map percentage (processEventsByAlertCode E) = map (Tenths false) [g; y; o; r] /\
    Z.abs (u - (o + r)) <= 1 /\
    0 <= u <= 1000.
Proof.
  intros Hne.
  set (n := Z.of_nat (List.length E)).
  assert (Hn : 0 < n) by (subst n; destruct E; [congruence | cbn; lia]).
  assert (Htotal : of_nat (length_or_1 E) = of_Z n).
  { unfold length_or_1, of_nat. subst n. destruct E; [congruence | reflexivity]. }
  pose proof (count_where_nonneg (has_code ORANGE) E) as Ho.
  pose proof (count_where_nonneg (has_code RED) E) as Hr.
  pose proof (count_where_nonneg (has_code GREEN) E) as Hg.
  pose proof (count_where_nonneg (has_code YELLOW) E) as Hy.
  pose proof (alert_counts_partition E) as Hsum. fold n in Hsum.
  destruct (rounded_percent
              (count_where (has_code ORANGE) E + count_where (has_code RED) E) n)
    as (u & Eu & Hu & Hu'); [lia | exact Hn |].
  destruct (rounded_percent (count_where (has_code GREEN) E) n)
    as (g & Eg & Hg1 & Hg'); [lia | exact Hn |].
  destruct (rounded_percent (count_where (has_code YELLOW) E) n)
    as (y & Ey & Hy1 & Hy'); [lia | exact Hn |].
  destruct (rounded_percent (count_where (has_code ORANGE) E) n)
    as (o & Eo & Ho1 & Ho'); [lia | exact Hn |].
  destruct (rounded_percent (count_where (has_code RED) E) n)
    as (r & Er & Hr1 & Hr'); [lia | exact Hn |].
  exists u, g, y, o, r.
  split; [| split; [| split]].
  - intros host clock E' Hcodes.
    assert (Hne' : E' <> []) by (destruct E', E; try discriminate; congruence).
    rewrite (calculateStatistics_fields host clock E' Hne'). cbn [urgentPercent].
    unfold of_nat at 1. rewrite urgent_count.
    rewrite !(count_where_codes _ E E' Hcodes).
    unfold of_nat.
    replace (List.length E') with (List.length E)
      by (rewrite <- (length_map alert_code E), <- Hcodes; apply length_map).
    fold n. rewrite Eu. reflexivity.
  - rewrite processEventsByAlertCode_counts, map_map. cbn [map alert_codes percentage].
    rewrite Htotal, Eg, Ey, Eo, Er. reflexivity.
  - exact (rounded_shares_add n _ _ u o r Hn Hu Ho1 Hr1).
  - exact Hu'.
Qed.

Lemma urgentPercent_matches_severities_witness :
  exists u g y o r : Z,
    (forall (host : Host) (clock : nat -> Z) (E' : list Event),
        map alert_code E' = map alert_code [Sample.fire; Sample.smoke] ->
        urgentPercent (calculateStatistics host clock E') = Text (Tenths false u)) /\
    map percentage (processEventsByAlertCode [Sample.fire; Sample.smoke])
      = map (Tenths false) [g; y; o; r] /\
    Z.abs (u - (o + r)) <= 1 /\
    0 <= u <= 1000.
Proof.
  apply (urgentPercent_matches_severities [Sample.fire; Sample.smoke]).
  discriminate.
Defined.

Lemma trend_without_previous_week_witness :
  trend (calculateStatistics Sample.utc (fun _ => 1710511200000)
           [Sample.fire; Sample.smoke]) = Text (Tenths false 0).
Proof.
  apply (trend_without_previous_week Sample.utc (fun _ => 1710511200000)
           [Sample.fire; Sample.smoke]).
  - discriminate.
  - intros k e t [<- | [<- | []]] Ht; vm_compute in Ht; injection Ht as <-;
      vm_compute; discriminate.
Defined.

(* ================================================================== *)
(** * More on the time-range filter                                      *)
(* ================================================================== *)

Lemma reported_since_earlier (host : Host) (cutoff cutoff' : Z) (e : Event) :
  cutoff' <= cutoff ->
  reported_since host cutoff e = true -> reported_since host cutoff' e = true.
Proof.
  unfold reported_since. intros Hle.
  destruct (new_Date host (reported_at e)) as [t |]; [| discriminate].
  rewrite !Z.leb_le. lia.
Qed.

(** X9.  Choosing a longer range never hides an event: on a host whose
    local time is never more than a day away from UTC, what is shown
    under "7d" is shown under "30d", what is shown under "30d" is shown
    under "90d", and everything shown is shown under "all". *)
Theorem displayEvents_wider_range
    (host : Host) (now : Z) (st : PageState) (r r' : TimeRange) :
  (forall t, Z.abs (LocalTZA_at_local host t) <= msPerDay) ->
  range_within r r' = true ->
  incl (displayEvents host now (setTimeRange r st))
       (displayEvents host now (setTimeRange r' st)).
Proof.
  intros Htz Hr e He.
  destruct (daysMap r') as [d' |] eqn:Hd'.
  - destruct (daysMap r) as [d |] eqn:Hd.
    + rewrite (displayEvents_cutoff host now d) in He by exact Hd.
      rewrite (displayEvents_cutoff host now d') by exact Hd'.
      cbn [events setTimeRange] in *. rewrite filter_In in *.
      destruct He as [Hin Hsince]. split; [exact Hin |].
      revert Hsince. apply reported_since_earlier.
      unfold range_within in Hr. rewrite Hd, Hd' in Hr. apply Z.leb_le in Hr.
      pose proof (Htz (LocalTime host now - d * msPerDay)).
      pose proof (Htz (LocalTime host now - d' * msPerDay)).
      unfold UTC.
      destruct r, r'; cbn in Hd, Hd'; try discriminate;
        injection Hd as <-; injection Hd' as <-; unfold msPerDay in *; lia.
    + unfold range_within in Hr. rewrite Hd, Hd' in Hr. discriminate.
  - unfold displayEvents. cbn [timeRange setTimeRange]. rewrite Hd'.
    cbn [events]. unfold displayEvents in He. cbn [timeRange setTimeRange events] in He.
    destruct (daysMap r); [| exact He].
    apply filter_In in He. tauto.
Qed.

Lemma displayEvents_wider_range_witness :
  incl (displayEvents Sample.utc late_october_now (setTimeRange Range7d scenario_page))
       (displayEvents Sample.utc late_october_now (setTimeRange Range30d scenario_page)).
Proof.
  apply (displayEvents_wider_range Sample.utc late_october_now scenario_page
           Range7d Range30d).
  - intros t. cbn. discriminate.
  - reflexivity.
Defined.

(** X10.  An event whose [reported_at] cannot be read as a date is hidden
    by the ranges "7d", "30d" and "90d" and shown by "all".  So under a
    bounded range every event shown has a readable date and
    [processEventsTrend] returns; under "all" one such event is enough to
    make [processEventsTrend] throw on what is shown. *)
Theorem displayEvents_unreadable_dates (host : Host) (now : Z) (st : PageState) :
  (timeRange st <> RangeAll ->
   Forall (parseable host) (displayEvents host now st) /\
   processEventsTrend host (displayEvents host now st) <> None) /\
  (timeRange st = RangeAll ->
   forall e, In e (events st) -> new_Date host (reported_at e) = None ->
             In e (displayEvents host now st) /\
             processEventsTrend host (displayEvents host now st) = None).
Proof.
  split.
  - intros Hr.
    assert (Hd : exists d, daysMap (timeRange st) = Some d)
      by (destruct (timeRange st); cbn; eauto; congruence).
    destruct Hd as [d Hd].
    assert (HE : Forall (parseable host) (displayEvents host now st)).
    { rewrite (displayEvents_cutoff host now d st Hd). apply Forall_forall.
      intros e He. apply filter_In in He. destruct He as [_ He].
      unfold reported_since in He. unfold parseable.
      destruct (new_Date host (reported_at e)) as [t |]; [now exists t | discriminate]. }
    split; [exact HE |].
    unfold processEventsTrend. rewrite (dateGroups_keys host _ HE). discriminate.
  - intros Hall e He Hnone.
    assert (Hshown : displayEvents host now st = events st)
      by (unfold displayEvents; now rewrite Hall).
    rewrite Hshown. split; [exact He |].
    apply processEventsTrend_throws. now exists e.
Qed.

Lemma displayEvents_unreadable_dates_witness :
  let unreadable := Sample.event RED [] "yesterday" in
  processEventsTrend Sample.utc
    (displayEvents Sample.utc late_october_now
       {| events := [unreadable; almost_seven_days_old]; loading := false;
          error := None; timeRange := Range7d |}) <> None /\
  processEventsTrend Sample.utc
    (displayEvents Sample.utc late_october_now
       {| events := [unreadable; almost_seven_days_old]; loading := false;
          error := None; timeRange := RangeAll |}) = None.
Proof.
  intros unreadable.
  destruct (displayEvents_unreadable_dates Sample.utc late_october_now
              {| events := [unreadable; almost_seven_days_old]; loading := false;
                 error := None; timeRange := Range7d |}) as [H7 _].
  destruct (displayEvents_unreadable_dates Sample.utc late_october_now
              {| events := [unreadable; almost_seven_days_old]; loading := false;
                 error := None; timeRange := RangeAll |}) as [_ Hall].
  split.
  - assert (Hr : timeRange {| events := [unreadable; almost_seven_days_old];
                              loading := false; error := None; timeRange := Range7d |}
                 <> RangeAll) by (cbn; discriminate).
    destruct (H7 Hr) as [_ H]. exact H.
  - assert (Hin : In unreadable [unreadable; almost_seven_days_old]) by now left.
    assert (Hnone : new_Date Sample.utc (reported_at unreadable) = None)
      by reflexivity.
    destruct (Hall eq_refl unreadable Hin Hnone) as [_ H]. exact H.
Defined.

(* ================================================================== *)
(** * More on the tag list                                               *)
(* ================================================================== *)

Lemma count_up_keys (o : object) (k : string) :
  map fst (count_up o k) = map fst o \/
  (k <> "__proto__"%string /\ ~ In k (map fst o) /\
   map fst (count_up o k) = map fst o ++ [k]).
Proof.
  unfold count_up, set.
  destruct (String.eqb_spec k "__proto__") as [-> | Hk]; [now left |].
  destruct (in_dec string_dec k (map fst o)) as [Hin | Hnin].
  - left. now apply keys_put_own.
  - right. split; [exact Hk | split; [exact Hnin | now apply keys_put_new]].
Qed.

(** Counting keys of any kind creates properties only for the keys
    counted, never one named "__proto__", and never two of one name. *)
Lemma count_all_keys (keys : list string) :
  forall o : object,
    let o' := fold_left count_up keys o in
    (forall k, In k (map fst o') ->
               In k (map fst o) \/ (In k keys /\ k <> "__proto__"%string)) /\
    (NoDup (map fst o) -> NoDup (map fst o')).
Proof.
  induction keys as [| k keys IH]; intros o; cbn [fold_left].
  - split; [intros k Hk; now left | auto].
  - destruct (IH (count_up o k)) as [Hin Hnd]. split.
    + intros k' Hk'. destruct (Hin k' Hk') as [H | [H Hne]].
      * destruct (count_up_keys o k) as [Heq | (Hk & _ & Heq)];
          rewrite Heq in H; [now left |]. apply in_app_or in H. destruct H as [H | [<- | []]].
        -- now left.
        -- right. split; [now left | exact Hk].
      * right. split; [now right | exact Hne].
    + intros Ho. apply Hnd.
      destruct (count_up_keys o k) as [-> | (_ & Hnin & ->)]; [exact Ho |].
      apply NoDup_app; [exact Ho | repeat constructor; cbn; tauto |].
      intros x Hx [<- | []]. contradiction.
Qed.

Lemma map_tag_buckets (l : list (string * prim)) :
  map tag (map (fun '(tag, count) => {| tag := tag; tag_count := count |}) l)
  = map fst l.
Proof. rewrite map_map. apply map_ext. now intros [k v]. Qed.

(** X11.  Whatever the tags are, [processTopTags] lists at most ten
    tags, no tag twice, only tags that some event carries, and never the
    tag "__proto__". *)
Theorem processTopTags_listed (E : list Event) :
  let out := processTopTags E in
  (List.length out <= 10)%nat /\
  NoDup (map tag out) /\
  Forall (fun b => In (tag b) (all_tags E) /\ tag b <> "__proto__"%string) out.
Proof.
  intros out. subst out. unfold processTopTags. rewrite tagCounts_all_tags.
  destruct (count_all_keys (all_tags E) []) as [Hin Hnd]. cbv zeta in *.
  set (o := fold_left count_up (all_tags E) []) in *.
  specialize (Hnd ltac:(constructor)).
  set (cmp := fun a b : string * prim => minus (snd b) (snd a)).
  set (L := sort cmp (Object_entries o)).
  assert (HP : Permutation (map fst L) (map fst o)).
  { apply Permutation_map. subst L. rewrite sort_Permutation.
    apply Object_entries_Permutation. }
  unfold slice_first. split; [| split].
  - rewrite length_map. apply firstn_le_length.
  - rewrite map_tag_buckets, <- firstn_map.
    assert (HndL : NoDup (map fst L))
      by (apply (Permutation_NoDup (l := map fst o)); [now symmetry | exact Hnd]).
    rewrite <- (firstn_skipn 10 (map fst L)) in HndL.
    now apply NoDup_app_remove_r in HndL.
  - apply Forall_forall. intros b Hb. apply (in_map tag) in Hb.
    rewrite map_tag_buckets, <- firstn_map in Hb.
    assert (HbL : In (tag b) (map fst L)).
    { rewrite <- (firstn_skipn 10 (map fst L)). apply in_or_app. now left. }
    apply (Permutation_in _ HP) in HbL.
    destruct (Hin _ HbL) as [[] | H]. exact H.
Qed.

(** X12.  When no tag is the name of a member of [Object.prototype],
    [processTopTags] lists the tags by how often they occur over all
    events, a tag repeated in one event counting each time: at most ten
    distinct tags, each with the number of its occurrences, the more
    frequent first, no tag left out that occurs more often than a listed
    one; and when there are at most ten distinct tags every tag is
    listed. *)
Theorem processTopTags_top_ten (E : list Event) :
  Forall ordinary (all_tags E) ->
  let out := processTopTags E in
  (List.length out <= 10)%nat /\
  NoDup (map tag out) /\
  Forall (fun b => In (tag b) (all_tags E) /\
                   tag_count b = PNum (occurrences (tag b) (all_tags E))) out /\
  StronglySorted (fun a b => occurrences (tag b) (all_tags E)
                             <= occurrences (tag a) (all_tags E)) out /\
  (forall t, In t (all_tags E) -> ~ In t (map tag out) ->
             forall b, In b out ->
                       occurrences t (all_tags E) <= occurrences (tag b) (all_tags E)) /\
  ((List.length (nodup string_dec (all_tags E)) <= 10)%nat ->
   forall t, In t (all_tags E) -> In t (map tag out)).
Proof.
  intros Hord out.
  destruct (processTopTags_ordinary E Hord) as (H1 & H2 & H3 & H4 & H5).
  fold out in H1, H2, H3, H4, H5.
  split; [exact H1 | split; [exact H2 | split; [exact H3 | split; [exact H4 |
    split; [exact H5 |]]]]].
  intros Hfew t Ht. subst out. unfold processTopTags. rewrite tagCounts_all_tags.
  destruct (count_all_ordinary (all_tags E) Hord [] ltac:(constructor))
    as (_ & _ & Hkeys & _ & Hnd).
  cbv zeta in *. set (o := fold_left count_up (all_tags E) []) in *.
  specialize (Hnd ltac:(constructor)).
  set (cmp := fun a b : string * prim => minus (snd b) (snd a)).
  set (L := sort cmp (Object_entries o)).
  assert (HP : Permutation (map fst L) (map fst o)).
  { apply Permutation_map. subst L. rewrite sort_Permutation.
    apply Object_entries_Permutation. }
  assert (Hlen : (List.length L <= 10)%nat).
  { rewrite <- (length_map fst L), (Permutation_length HP).
    etransitivity; [| exact Hfew].
    apply NoDup_incl_length; [exact Hnd |].
    intros k Hk. apply nodup_In. apply Hkeys in Hk. destruct Hk as [[] | Hk]. exact Hk. }
  unfold slice_first. rewrite firstn_all2 by exact Hlen.
  rewrite map_tag_buckets. apply (Permutation_in (l := map fst o)); [now symmetry |].
  apply Hkeys. now right.
Qed.

Lemma processTopTags_top_ten_witness :
  In "smoke"%string (map tag (processTopTags [Sample.fire; Sample.smoke])).
Proof.
  assert (Hord : Forall ordinary (all_tags [Sample.fire; Sample.smoke]))
    by (repeat constructor).
  destruct (processTopTags_top_ten [Sample.fire; Sample.smoke] Hord)
    as (_ & _ & _ & _ & _ & Hall).
  apply Hall.
  - vm_compute. lia.
  - vm_compute. tauto.
Defined.

(** X13.  When no tag is the name of a member of [Object.prototype],
    every bar of the tag list has a width above 0 and of at most 100
    percent, and the first bar is 100 percent wide. *)
Theorem bar_width_range (E : list Event) :
  Forall ordinary (all_tags E) ->
  let out := processTopTags E in
  Forall (fun b => exists q, AnalyticsView.bar_width out b = Fin q
                             /\ (0 < q)%Q /\ (q <= 100)%Q) out /\
  (forall b rest, out = b :: rest ->
                  exists q, AnalyticsView.bar_width out b = Fin q /\ (q == 100)%Q).
Proof.
  intros Hord out.
  destruct (processTopTags_ordinary E Hord) as (_ & _ & Hcount & Hsorted & _).
  fold out in Hcount, Hsorted.
  assert (Hwidth : forall b0 rest b,
             out = b0 :: rest -> In b out ->
             let c := occurrences (tag b) (all_tags E) in
             let c0 := occurrences (tag b0) (all_tags E) in
             0 < c <= c0 /\
             AnalyticsView.bar_width out b
             = Fin (binary64 (binary64 (inject_Z c / inject_Z c0) * inject_Z 100))).
  { intros b0 rest b Hout Hb c c0. rewrite Forall_forall in Hcount.
    assert (Hb0 : In b0 out) by (rewrite Hout; now left).
    destruct (Hcount b Hb) as [Hin Hc], (Hcount b0 Hb0) as [Hin0 Hc0].
    apply occurrences_pos in Hin, Hin0. fold c in Hin, Hc. fold c0 in Hin0, Hc0.
    assert (Hle : c <= c0).
    { rewrite Hout in Hsorted, Hb. inversion Hsorted as [| ? ? _ Hall]; subst.
      destruct Hb as [<- | Hb]; [subst c c0; lia |].
      rewrite Forall_forall in Hall. apply (Hall b Hb). }
    split; [lia |].
    unfold AnalyticsView.bar_width, AnalyticsView.first_count_or_1.
    rewrite Hout, Hc, Hc0.
    destruct (Z.eqb_spec c0 0) as [? | _]; [lia |].
    cbn [to_number]. unfold of_Z, div. rewrite Qsign_inject_Z.
    destruct (Z.compare_spec c0 0) as [? | ? | _]; try lia. reflexivity. }
  assert (Hpos : forall z, 0 < z -> (0 < inject_Z z)%Q).
  { intros z Hz. change 0%Q with (inject_Z 0). now rewrite <- Zlt_Qlt. }
  split.
  - apply Forall_forall. intros b Hb.
    destruct out as [| b0 rest] eqn:Hout; [destruct Hb |].
    destruct (Hwidth b0 rest b eq_refl Hb) as [Hc ->].
    eexists. split; [reflexivity |].
    set (x := (inject_Z (occurrences (tag b) (all_tags E))
               / inject_Z (occurrences (tag b0) (all_tags E)))%Q).
    assert (Hx0 : (0 < x)%Q).
    { subst x. apply Qlt_shift_div_l; [apply Hpos; lia |].
      rewrite Qmult_0_l. apply Hpos. lia. }
    assert (Hx1 : (x <= inject_Z 1)%Q).
    { subst x. apply Qle_shift_div_r; [apply Hpos; lia |].
      change (inject_Z 1) with 1%Q. rewrite Qmult_1_l, <- Zle_Qle. lia. }
    pose proof (binary64_positive_result x Hx0) as Hy0.
    pose proof (binary64_below x 1 (Qlt_le_weak _ _ Hx0) Hx1 ltac:(reflexivity)) as Hy1.
    set (y := binary64 x) in *.
    assert (Hw0 : (0 < y * inject_Z 100)%Q)
      by (apply Qmult_lt_0_compat; [exact Hy0 | reflexivity]).
    assert (Hw1 : (y * inject_Z 100 <= inject_Z 100)%Q).
    { setoid_replace (inject_Z 100) with (1 * inject_Z 100)%Q at 2 by reflexivity.
      apply Qmult_le_compat_r; [exact Hy1 | discriminate]. }
    split.
    + now apply binary64_positive_result.
    + apply (binary64_below _ 100 (Qlt_le_weak _ _ Hw0) Hw1). reflexivity.
  - intros b rest Hout.
    destruct (Hwidth b rest b Hout ltac:(rewrite Hout; now left)) as [Hc ->].
    eexists. split; [reflexivity |].
    assert (Hne : ~ (inject_Z (occurrences (tag b) (all_tags E)) == 0)%Q).
    { intros H0. pose proof (Hpos _ (proj1 Hc)) as Hlt. rewrite H0 in Hlt.
      now apply Qlt_irrefl in Hlt. }
    assert (Hy : (binary64 (inject_Z (occurrences (tag b) (all_tags E))
                            / inject_Z (occurrences (tag b) (all_tags E)))
                  == inject_Z 1)%Q).
    { apply binary64_integer; [split; [discriminate | reflexivity] |].
      change (inject_Z 1) with 1%Q. field. exact Hne. }
    apply (binary64_integer _ 100); [split; [discriminate | reflexivity] |].
    rewrite Hy. reflexivity.
Qed.

Lemma bar_width_range_witness :
  exists q, AnalyticsView.bar_width (processTopTags [Sample.fire; Sample.smoke])
              {| tag := "fire"; tag_count := PNum 2 |} = Fin q /\ (q == 100)%Q.
Proof.
  assert (Hord : Forall ordinary (all_tags [Sample.fire; Sample.smoke]))
    by (repeat constructor).
  apply (proj2 (bar_width_range [Sample.fire; Sample.smoke] Hord)
               {| tag := "fire"; tag_count := PNum 2 |}
               [ {| tag := "smoke"; tag_count := PNum 1 |} ]).
  reflexivity.
Defined.

(* ================================================================== *)
(** * Addresses                                                          *)
(* ================================================================== *)

Lemma append_assoc (a b c : string) : ((a ++ b) ++ c = a ++ b ++ c)%string.
Proof. induction a as [| x a IH]; cbn; [reflexivity | now rewrite IH]. Qed.

Lemma append_nil_r (a : string) : (a ++ "" = a)%string.
Proof. induction a as [| x a IH]; cbn; [reflexivity | now rewrite IH]. Qed.

Lemma prefix_spec (p s : string) :
  String.prefix p s = true <-> exists y, s = (p ++ y)%string.
Proof.
  revert s. induction p as [| a p IH]; intros s.
  - destruct s; cbn; split; eauto.
  - destruct s as [| b s]; cbn.
    + split; [discriminate | intros [y Hy]; discriminate].
    + destruct (ascii_dec a b) as [-> | Hne].
      * rewrite IH. split; intros [y Hy]; exists y; congruence.
      * split; [discriminate | intros [y Hy]; congruence].
Qed.



Lemma includes_unfold (s q : string) :
  JSString.includes s q =
  String.prefix q s ||
  match s with
  | String _ rest => JSString.includes rest q
  | EmptyString => false
  end.
Proof. destruct s; reflexivity. Qed.

(** [s.includes(q)] holds exactly when [q] occurs inside [s]. *)
Lemma includes_spec (s q : string) :
  JSString.includes s q = true <-> exists x y, s = (x ++ q ++ y)%string.
Proof.
  induction s as [| c s IH]; rewrite includes_unfold, orb_true_iff, prefix_spec.
  - split.
    + intros [[y Hy] | H]; [| discriminate]. now exists ""%string, y.
    + intros (x & y & H). left. destruct x; [now exists y | discriminate].
  - rewrite IH. split.
    + intros [[y Hy] | (x & y & Hy)].
      * now exists ""%string, y.
      * exists (String c x), y. cbn. now rewrite Hy.
    + intros (x & y & H). destruct x as [| a x]; cbn in H.
      * left. now exists y.
      * right. injection H as _ H. now exists x, y.
Qed.





(* ================================================================== *)
(** * Signing in and out                                                 *)
(* ================================================================== *)

(** X15.  [login] stores the token of the answer before it asks for the
    profile, so the profile request already carries the new token.  When
    the profile request succeeds the user is set.  When it fails the
    promise rejects and the user is left as before, but the new token
    stays in [localStorage].  When the login request itself fails nothing
    is stored, the user is left as before and no profile request is
    sent. *)
Theorem login_stores_token
    (email password : string) (st : AuthContext.AuthState) (w : ApiClient.World) :
  let run := AuthContext.login email password st w in
  let st' := snd (fst run) in
  let w' := snd run in
  (forall access_token logins,
      ApiClient.login_answers w = Some access_token :: logins ->
      ApiClient.token w' = Some access_token /\
      ApiClient.sent w' =
        ApiClient.sent w ++
        [ ApiClient.interceptor w (ApiClient.POST_auth_login email password);
          {| ApiClient.target := ApiClient.GET_auth_me;
             ApiClient.Authorization :=
               if (access_token =? "")%string then None
               else Some ("Bearer " ++ access_token)%string |} ] /\
      (forall userData mes,
          ApiClient.me_answers w = Some userData :: mes ->
          fst (fst run) = Resolved tt /\ AuthContext.user st' = Some userData) /\
      (forall mes,
          ApiClient.me_answers w = None :: mes ->
          fst (fst run) = Thrown /\ st' = st)) /\
  (forall logins,
      ApiClient.login_answers w = None :: logins ->
      fst (fst run) = Thrown /\ st' = st /\
      ApiClient.token w' = ApiClient.token w /\
      ApiClient.sent w' =
        ApiClient.sent w ++
        [ ApiClient.interceptor w (ApiClient.POST_auth_login email password) ]).
Proof.
  intros run st' w'. subst st' w' run.
  unfold AuthContext.login, ApiClient.login, ApiClient.getMe. split.
  - intros access_token logins Hlogin. rewrite Hlogin. cbn [hd_error ApiClient.answer].
    cbv zeta.
    cbn [ApiClient.me_answers ApiClient.setItem_token ApiClient.token ApiClient.sent
         ApiClient.login_answers].
    destruct (ApiClient.me_answers w) as [| [userData |] mes] eqn:Hme;
      cbn [hd_error ApiClient.answer fst snd ApiClient.token ApiClient.sent];
      (split; [reflexivity |]);
      (split; [rewrite <- app_assoc; reflexivity |]);
      split; intros; try discriminate; try (split; reflexivity).
    match goal with H : _ :: _ = _ :: _ |- _ => injection H as <- _ end.
    split; reflexivity.
  - intros logins Hlogin. rewrite Hlogin. cbn. repeat split.
Qed.

Lemma login_stores_token_witness :
  let w := {| ApiClient.token := None; ApiClient.sent := [];
              ApiClient.login_answers := [Some "t0k3n"%string];
              ApiClient.me_answers := [None] |} in
  let run := AuthContext.login "ana@example.org" "secret" AuthContext.mounted w in
  ApiClient.token (snd run) = Some "t0k3n"%string /\
  fst (fst run) = Thrown /\
  snd (fst run) = AuthContext.mounted.
Proof.
  intros w run.
  destruct (proj1 (login_stores_token "ana@example.org" "secret" AuthContext.mounted w)
                  "t0k3n"%string [] eq_refl) as (Htoken & _ & _ & Hfail).
  destruct (Hfail [] eq_refl) as [Hthrown Hst].
  split; [exact Htoken | split; [exact Hthrown | exact Hst]].
Defined.

(** X16.  When the provider starts with a stored token that the backend
    no longer accepts, [checkAuth] sends one profile request carrying
    that token, removes the token and ends loading with no user set.
    With no stored token, or an empty one, it sends nothing.  After
    [logout] there is no user and no stored token, whatever the state
    was, so a provider started afterwards sends no request and stays
    signed out. *)
Theorem checkAuth_stale_token (st : AuthContext.AuthState) (w : ApiClient.World) :
  (forall stored mes,
      ApiClient.token w = Some stored -> stored <> ""%string ->
      ApiClient.me_answers w = None :: mes ->
      let st' := fst (AuthContext.checkAuth st w) in
      let w' := snd (AuthContext.checkAuth st w) in
      ApiClient.token w' = None /\
      AuthContext.user st' = AuthContext.user st /\
      AuthContext.isLoading st' = false /\
      ApiClient.sent w' =
        ApiClient.sent w ++
        [ {| ApiClient.target := ApiClient.GET_auth_me;
             ApiClient.Authorization := Some ("Bearer " ++ stored)%string |} ]) /\
  (ApiClient.token w = None \/ ApiClient.token w = Some ""%string ->
   AuthContext.checkAuth st w = (AuthContext.setIsLoading false st, w)) /\
  (let st1 := fst (AuthContext.logout st w) in
   let w1 := snd (AuthContext.logout st w) in
   AuthContext.isAuthenticated st1 = false /\
   ApiClient.token w1 = None /\
   ApiClient.sent w1 = ApiClient.sent w /\
   AuthContext.checkAuth AuthContext.mounted w1
   = ({| AuthContext.user := None; AuthContext.isLoading := false |}, w1)).
Proof.
  unfold AuthContext.checkAuth, ApiClient.getMe, ApiClient.interceptor.
  split; [| split].
  - intros stored mes Htoken Hne Hme. rewrite Htoken, Hme.
    destruct stored as [| c stored]; [congruence |].
    cbn. repeat split.
  - intros [-> | ->]; reflexivity.
  - repeat split.
Qed.

Lemma checkAuth_stale_token_witness :
  let w := {| ApiClient.token := Some "old"%string; ApiClient.sent := [];
              ApiClient.login_answers := []; ApiClient.me_answers := [None] |} in
  ApiClient.token (snd (AuthContext.checkAuth AuthContext.mounted w)) = None /\
  AuthContext.isLoading (fst (AuthContext.checkAuth AuthContext.mounted w)) = false.
Proof.
  intros w.
  destruct (proj1 (checkAuth_stale_token AuthContext.mounted w) "old"%string []
                  eq_refl ltac:(discriminate) eq_refl) as (H1 & _ & H3 & _).
  split; [exact H1 | exact H3].
Defined.

(* ================================================================== *)
(** * The events page                                                    *)
(* ================================================================== *)

Lemma with_code_count (c : AlertCode) (evts : list Event) :
  Z.of_nat (HomePage.with_code (code_name c) evts) = count_where (has_code c) evts.
Proof.
  unfold HomePage.with_code, count_where. do 2 f_equal.
  apply filter_ext. intros e. apply code_name_eqb.
Qed.

(** X17.  The four numbers of [getAlertStats] add up to the number of
    events, and they are the numbers the analytics page shows for the
    same events in its chart by severity. *)
Theorem getAlertStats_totals (evts : list Event) :
  let s := HomePage.getAlertStats evts in
  (HomePage.RED_events s + HomePage.ORANGE_events s + HomePage.YELLOW_events s
   + HomePage.GREEN_events s = List.length evts)%nat /\
  map value (processEventsByAlertCode evts) =
  map (fun n => PNum (Z.of_nat n))
      [HomePage.GREEN_events s; HomePage.YELLOW_events s; HomePage.ORANGE_events s;
       HomePage.RED_events s].
Proof.
  intros s. subst s. unfold HomePage.getAlertStats.
  cbn [HomePage.RED_events HomePage.ORANGE_events HomePage.YELLOW_events
       HomePage.GREEN_events].
  pose proof (with_code_count RED evts) as Hr.
  pose proof (with_code_count ORANGE evts) as Ho.
  pose proof (with_code_count YELLOW evts) as Hy.
  pose proof (with_code_count GREEN evts) as Hg.
  cbn [code_name] in Hr, Ho, Hy, Hg.
  split.
  - pose proof (alert_counts_partition evts). lia.
  - rewrite processEventsByAlertCode_counts, map_map.
    cbn [map alert_codes value]. now rewrite Hr, Ho, Hy, Hg.
Qed.

Lemma civil_inj (day1 day2 : Z) : civil day1 = civil day2 -> day1 = day2.
Proof.
  intros H. apply Z.compare_eq. rewrite <- civil_ymd_compare, H. apply Z.compare_refl.
Qed.

(** [isEventFromToday] holds exactly when [reported_at] can be read as a
    date and that instant falls on the same local calendar day as now. *)
Lemma isEventFromToday_local_day (host : Host) (now : Z) (e : Event) :
  HomePage.isEventFromToday host now e = true <->
  local_day host e = Some (Day (LocalTime host now)).
Proof.
  unfold HomePage.isEventFromToday, HomePage.getFullYear, getMonth, getDate, local_day.
  cbv zeta.
  destruct (new_Date host (reported_at e)) as [t |]; cbn [option_map HomePage.strict_eq].
  - rewrite !andb_true_iff, !Z.eqb_eq.
    unfold YearFromTime, MonthFromTime, DateFromTime.
    split.
    + intros [[Hy Hm] Hd]. f_equal. apply civil_inj.
      destruct (civil (Day (LocalTime host t))) as [[y m] d],
        (civil (Day (LocalTime host now))) as [[y' m'] d'].
      cbn [fst snd] in *. f_equal; [f_equal |]; lia.
    + intros [= ->]. repeat split.
  - split; discriminate.
Qed.

(** When what a predicate answers does not depend on the readings, the
    clocked filter is a filter. *)
Lemma filter_clocked_filter {A : Type} (reads : nat) (f : (nat -> Z) -> A -> bool)
    (P : Z -> Prop) (g : A -> bool) (l : list A) :
  (forall c x, In x l -> (forall k, P (c k)) -> f c x = g x) ->
  forall clock, (forall k, P (clock k)) -> filter_clocked reads f clock l = filter g l.
Proof.
  induction l as [| x l IH]; intros Hf clock Hclock; [reflexivity |].
  cbn [filter_clocked filter]. rewrite (Hf clock x (or_introl eq_refl) Hclock).
  rewrite IH; [reflexivity | | intros k; apply Hclock].
  intros c y Hy. apply Hf. now right.
Qed.

Lemma filter_true {A : Type} (l : list A) : filter (fun _ => true) l = l.
Proof. induction l as [| x l IH]; [reflexivity |]. cbn. now rewrite IH. Qed.

(** X18.  [isEventFromToday] holds exactly when [reported_at] can be read
    as a date and that instant falls on the same local calendar day as
    now, whatever the time of day; an unreadable date is never from
    today.  So the map shows, under "all", every event of the search and,
    under "today", while the clock stays within one local day, exactly
    the events of that day, in their order. *)
Theorem mapEvents_local_day (host : Host) (clock : nat -> Z) (found : list Event) :
  (forall now e,
      HomePage.isEventFromToday host now e = true <->
      exists t, new_Date host (reported_at e) = Some t /\
                Day (LocalTime host t) = Day (LocalTime host now)) /\
  HomePage.mapEvents host HomePage.date_all clock found = found /\
  (forall D,
      (forall k, Day (LocalTime host (clock k)) = D) ->
      HomePage.mapEvents host HomePage.date_today clock found
      = filter (falls_in (local_day host) D) found).
Proof.
  split; [| split].
  - intros now e. rewrite isEventFromToday_local_day. unfold local_day.
    destruct (new_Date host (reported_at e)) as [t |]; cbn [option_map].
    + split.
      * intros [= H]. now exists t.
      * intros (t' & [= <-] & ->). reflexivity.
    + split; [discriminate | intros (t & H & _); discriminate].
  - unfold HomePage.mapEvents.
    rewrite (filter_clocked_filter 1 _ (fun _ => True) (fun _ => true));
      [apply filter_true | reflexivity | exact (fun _ => I)].
  - intros D HD. unfold HomePage.mapEvents.
    apply (filter_clocked_filter 1 _ (fun now => Day (LocalTime host now) = D));
      [| exact HD].
    intros c e _ Hc. unfold falls_in.
    destruct (HomePage.isEventFromToday host (c 0%nat) e) eqn:He.
    + apply isEventFromToday_local_day in He. rewrite He, Hc. symmetry. apply Z.eqb_refl.
    + destruct (local_day host e) as [d |] eqn:Hd; [| reflexivity].
      symmetry. apply Z.eqb_neq. intros ->.
      rewrite <- (Hc 0%nat) in Hd. apply isEventFromToday_local_day in Hd. congruence.
Qed.

Lemma mapEvents_local_day_witness :
  HomePage.mapEvents Sample.utc HomePage.date_today (fun _ => 1710511200000)
    [Sample.fire; year_10000; Sample.smoke]
  = filter (falls_in (local_day Sample.utc) 19797) [Sample.fire; year_10000; Sample.smoke].
Proof.
  apply (proj2 (proj2 (mapEvents_local_day Sample.utc (fun _ => 1710511200000)
                         [Sample.fire; year_10000; Sample.smoke])) 19797).
  intros k. reflexivity.
Defined.

Lemma includes_trans (s a b : string) :
  JSString.includes s a = true -> JSString.includes a b = true ->
  JSString.includes s b = true.
Proof.
  rewrite !includes_spec. intros (x & y & ->) (x' & y' & ->).
  exists (x ++ x')%string, (y' ++ y)%string.
  now rewrite !append_assoc.
Qed.

(** X19.  Whatever [toLowerCase] does to a text, the search of the web
    events page and the search of the mobile list keep the same events
    for every query, and all events for the empty query.  A query that
    is not empty and whose lower-cased text contains the lower-cased text
    of another query keeps no event the other one drops: typing more
    never brings an event back, as long as the lower-cased text typed so
    far stays inside the lower-cased text typed in the end. *)
Theorem search_narrows (toLowerCase : string -> string) (events : list Event) :
  (forall q : string,
      HomePage.searchFilteredEvents toLowerCase events q
      = EventsListScreen.filteredEvents toLowerCase events q) /\
  HomePage.searchFilteredEvents toLowerCase events "" = events /\
  (forall q q' : string,
      q' <> ""%string ->
      JSString.includes (toLowerCase q') (toLowerCase q) = true ->
      incl (HomePage.searchFilteredEvents toLowerCase events q')
           (HomePage.searchFilteredEvents toLowerCase events q)).
Proof.
  unfold HomePage.searchFilteredEvents, EventsListScreen.filteredEvents.
  split; [| split].
  - intros q. apply filter_ext. intros e. destruct (q =? "")%string; cbn.
    + reflexivity.
    + reflexivity.
  - cbn [String.eqb orb]. induction events as [| e events IH]; [reflexivity |].
    cbn [filter]. now rewrite IH.
  - intros q q' Hq' Hinside e He. apply filter_In in He. destruct He as [Hin He].
    apply filter_In. split; [exact Hin |].
    destruct (String.eqb_spec q' "") as [E | _]; [contradiction |].
    cbn [orb] in He.
    destruct (q =? "")%string; [reflexivity |]. cbn [orb].
    rewrite orb_true_iff in *.
    destruct He as [He | He].
    + left. exact (includes_trans _ _ _ He Hinside).
    + right. rewrite existsb_exists in *. destruct He as (t & Ht & He).
      exists t. split; [exact Ht |]. exact (includes_trans _ _ _ He Hinside).
Qed.

Lemma search_narrows_witness :
  incl (HomePage.searchFilteredEvents JSString.toLowerCase_ASCII
          [Sample.fire; Sample.smoke] "SMOKE")
       (HomePage.searchFilteredEvents JSString.toLowerCase_ASCII
          [Sample.fire; Sample.smoke] "Smo").
Proof.
  apply (proj2 (proj2 (search_narrows JSString.toLowerCase_ASCII
                         [Sample.fire; Sample.smoke]))).
  - discriminate.
  - reflexivity.
Defined.

(* ================================================================== *)
(** * The tags of a report                                               *)
(* ================================================================== *)

Lemma Array_includes_In (a : list string) (x : string) :
  JSString.Array_includes a x = true <-> In x a.
Proof.
  unfold JSString.Array_includes. rewrite existsb_exists. split.
  - intros (y & Hy & E). apply String.eqb_eq in E. now subst.
  - intros H. exists x. split; [exact H | apply String.eqb_refl].
Qed.

Section ReportTags.
Variable trim : string -> string.

Lemma addTag_cases (st : ReportPage.TagsState) :
  let t := trim (ReportPage.tagInput st) in
  (t <> ""%string /\ ~ In t (ReportPage.tags st) /\
   ReportPage.addTag trim st =
   {| ReportPage.tags := ReportPage.tags st ++ [t]; ReportPage.tagInput := "" |}) \/
  ((t = ""%string \/ In t (ReportPage.tags st)) /\ ReportPage.addTag trim st = st).
Proof.
  intros t. unfold ReportPage.addTag. fold t.
  destruct (String.eqb_spec t "") as [E | E]; cbn [negb andb].
  - right. split; [now left | reflexivity].
  - destruct (JSString.Array_includes (ReportPage.tags st) t) eqn:Hin; cbn [negb].
    + right. apply Array_includes_In in Hin. split; [now right | reflexivity].
    + left. split; [exact E | split; [| reflexivity]].
      intros H. apply Array_includes_In in H. congruence.
Qed.

Lemma step_keeps_tags_distinct (st : ReportPage.TagsState) (a : ReportPage.action) :
  NoDup (ReportPage.tags st) /\ ~ In ""%string (ReportPage.tags st) ->
  NoDup (ReportPage.tags (ReportPage.step trim st a)) /\
  ~ In ""%string (ReportPage.tags (ReportPage.step trim st a)).
Proof.
  intros [Hnd Hne]. destruct a as [text | | tag]; cbn [ReportPage.step].
  - split; assumption.
  - destruct (addTag_cases st) as [(Ht & Hnin & ->) | (_ & ->)]; [| now split].
    cbn [ReportPage.tags]. split.
    + apply NoDup_app; [exact Hnd | repeat constructor; cbn; tauto |].
      intros x Hx [<- | []]. contradiction.
    + rewrite in_app_iff. cbn. intuition congruence.
  - cbn [ReportPage.removeTag ReportPage.tags]. split.
    + now apply NoDup_filter.
    + rewrite filter_In. tauto.
Qed.

Lemma reachable_tags_distinct (actions : list ReportPage.action) :
  forall st,
    NoDup (ReportPage.tags st) /\ ~ In ""%string (ReportPage.tags st) ->
    NoDup (ReportPage.tags (fold_left (ReportPage.step trim) actions st)) /\
    ~ In ""%string (ReportPage.tags (fold_left (ReportPage.step trim) actions st)).
Proof.
  induction actions as [| a actions IH]; intros st H; [exact H |].
  cbn [fold_left]. apply IH. now apply step_keeps_tags_distinct.
Qed.

(** X20.  However the user types, adds and deletes, starting from an
    empty form, the tags of the report never hold one tag twice and
    never hold the empty tag; and deleting a tag leaves a list without
    it. *)
Theorem tags_stay_distinct (actions : list ReportPage.action) (tag : string) :
  let st := fold_left (ReportPage.step trim) actions ReportPage.empty_form in
  NoDup (ReportPage.tags st) /\
  ~ In ""%string (ReportPage.tags st) /\
  ~ In tag (ReportPage.tags (ReportPage.removeTag tag st)).
Proof.
  intros st.
  destruct (reachable_tags_distinct actions ReportPage.empty_form) as [Hnd Hne].
  { split; [constructor | intros []]. }
  split; [exact Hnd | split; [exact Hne |]].
  cbn [ReportPage.removeTag ReportPage.tags]. rewrite filter_In.
  intros [_ H]. now rewrite String.eqb_refl in H.
Qed.

(** X21.  Pressing "add" on a text that is not blank leaves the trimmed
    text among the tags exactly once, whether it was already there or
    not, and in the latter case as the last tag, the field being
    emptied. *)
Theorem addTag_once (actions : list ReportPage.action) :
  let st := fold_left (ReportPage.step trim) actions ReportPage.empty_form in
  let t := trim (ReportPage.tagInput st) in
  t <> ""%string ->
  count_occ string_dec (ReportPage.tags (ReportPage.addTag trim st)) t = 1%nat /\
  (~ In t (ReportPage.tags st) ->
   ReportPage.addTag trim st
   = {| ReportPage.tags := ReportPage.tags st ++ [t]; ReportPage.tagInput := "" |}).
Proof.
  intros st t Ht.
  destruct (reachable_tags_distinct actions ReportPage.empty_form) as [Hnd _].
  { split; [constructor | intros []]. }
  fold st in Hnd.
  destruct (addTag_cases st) as [(_ & Hnin & Hadd) | ([E | Hin] & Hadd)];
    fold t in Hnin || fold t in Hin || idtac; fold t in Hadd.
  - split; [| intros _; exact Hadd].
    rewrite Hadd. cbn [ReportPage.tags]. rewrite count_occ_app.
    rewrite (proj1 (count_occ_not_In string_dec _ _) Hnin). cbn.
    destruct (string_dec t t); [reflexivity | congruence].
  - fold t in E. congruence.
  - split; [| intros Hnin; contradiction].
    rewrite Hadd. apply NoDup_count_occ'; assumption.
Qed.
End ReportTags.

Lemma addTag_once_witness :
  count_occ string_dec
    (ReportPage.tags
       (ReportPage.addTag (fun s => s)
          (fold_left (ReportPage.step (fun s => s))
             [ReportPage.type_text "fire"; ReportPage.press_add;
              ReportPage.type_text "fire"]
             ReportPage.empty_form)))
    "fire"%string = 1%nat.
Proof.
  pose proof (addTag_once (fun s => s)
                [ReportPage.type_text "fire"; ReportPage.press_add;
                 ReportPage.type_text "fire"]) as W.
  cbv zeta in W. apply W. discriminate.
Defined.

(* ================================================================== *)
(** * Sending a report                                                   *)
(* ================================================================== *)

Section SubmitFacts.
Variable trim : string -> string.

(** A form that is not blank is sent, before anything else. *)
Lemma handleSubmit_first_call (f : ReportSubmit.Form) (b : ReportSubmit.Backend) :
  trim (ReportSubmit.description f) <> ""%string ->
  exists more,
    ReportSubmit.calls (snd (ReportSubmit.handleSubmit trim f b))
    = ReportSubmit.calls b ++ ReportSubmit.create (ReportSubmit.eventData f) :: more.
Proof.
  intros Hne. apply String.eqb_neq in Hne.
  unfold ReportSubmit.handleSubmit. rewrite Hne. cbv zeta.
  change (ReportSubmit.eventData
            (ReportSubmit.setError "" (ReportSubmit.setLoading true f)))
    with (ReportSubmit.eventData f).
  unfold ReportSubmit.eventsApi_create, ReportSubmit.eventsApi_uploadImage.
  cbn [ReportSubmit.image ReportSubmit.setError ReportSubmit.setLoading].
  destruct (ReportSubmit.create_answers b) as [| [event | detail] rest];
    cbn [hd_error tl]; try (eexists; cbn; reflexivity).
  destruct (ReportSubmit.image f) as [file |]; [| eexists; cbn; reflexivity].
  cbn [ReportSubmit.upload_answers ReportSubmit.calls].
  destruct (ReportSubmit.upload_answers b) as [| [u | detail] rest'];
    cbn [hd_error tl snd ReportSubmit.calls]; rewrite <- app_assoc;
    eexists; cbn; reflexivity.
Qed.

Lemma handleSubmit_create_refused
    (f : ReportSubmit.Form) (b : ReportSubmit.Backend)
    (detail : option string) (rest : list (ReportSubmit.reply Event)) :
  trim (ReportSubmit.description f) <> ""%string ->
  ReportSubmit.create_answers b = ReportSubmit.Refused detail :: rest ->
  ReportSubmit.handleSubmit trim f b =
  (ReportSubmit.setLoading false
     (ReportSubmit.setError (ReportSubmit.detail_or_default detail)
        (ReportSubmit.setError "" (ReportSubmit.setLoading true f))),
   {| ReportSubmit.create_answers := rest;
      ReportSubmit.upload_answers := ReportSubmit.upload_answers b;
      ReportSubmit.calls :=
        ReportSubmit.calls b ++ [ReportSubmit.create (ReportSubmit.eventData f)] |}).
Proof.
  intros Hne Hcreate. apply String.eqb_neq in Hne.
  unfold ReportSubmit.handleSubmit, ReportSubmit.eventsApi_create.
  rewrite Hne, Hcreate. reflexivity.
Qed.

Lemma handleSubmit_upload_refused
    (f : ReportSubmit.Form) (b : ReportSubmit.Backend) (event : Event)
    (rest : list (ReportSubmit.reply Event)) (file : string)
    (detail : option string) (rest' : list (ReportSubmit.reply unit)) :
  trim (ReportSubmit.description f) <> ""%string ->
  ReportSubmit.create_answers b = ReportSubmit.Answered event :: rest ->
  ReportSubmit.image f = Some file ->
  ReportSubmit.upload_answers b = ReportSubmit.Refused detail :: rest' ->
  ReportSubmit.handleSubmit trim f b =
  (ReportSubmit.setLoading false
     (ReportSubmit.setError (ReportSubmit.detail_or_default detail)
        (ReportSubmit.setError "" (ReportSubmit.setLoading true f))),
   {| ReportSubmit.create_answers := rest;
      ReportSubmit.upload_answers := rest';
      ReportSubmit.calls :=
        (ReportSubmit.calls b ++ [ReportSubmit.create (ReportSubmit.eventData f)])
        ++ [ReportSubmit.uploadImage (id event) file] |}).
Proof.
  intros Hne Hcreate Himage Hupload. apply String.eqb_neq in Hne.
  unfold ReportSubmit.handleSubmit, ReportSubmit.eventsApi_create,
    ReportSubmit.eventsApi_uploadImage.
  rewrite Hne, Hcreate. cbv zeta. cbn [hd_error tl ReportSubmit.image
    ReportSubmit.setError ReportSubmit.setLoading ReportSubmit.upload_answers].
  rewrite Himage, Hupload. reflexivity.
Qed.
End SubmitFacts.

(** X22.  [handleSubmit] of the web report page.  A description that is
    blank is refused on the page, with the message "Description is
    required", and nothing is sent.  Otherwise the event is sent first,
    as typed, with the coordinates as longitude then latitude.  When the
    creation is refused the message of the answer or "Error submitting
    report" is shown and no image is sent.  When the creation succeeds
    and the upload of the image is refused, the page shows the error and
    no success although the event exists, and submitting the form again
    sends the same event a second time. *)
Theorem handleSubmit_outcomes
    (trim : string -> string) (f : ReportSubmit.Form) (b : ReportSubmit.Backend) :
  let f' := fst (ReportSubmit.handleSubmit trim f b) in
  let b' := snd (ReportSubmit.handleSubmit trim f b) in
  let data := ReportSubmit.eventData f in
  (trim (ReportSubmit.description f) = ""%string ->
   f' = ReportSubmit.setError "Description is required" f /\ b' = b) /\
  (trim (ReportSubmit.description f) <> ""%string ->
   coordinates (ReportSubmit.EventCreate.location data)
     = (snd (ReportSubmit.position f), fst (ReportSubmit.position f)) /\
   ReportSubmit.EventCreate.description data = ReportSubmit.description f /\
   (exists more, ReportSubmit.calls b'
                 = ReportSubmit.calls b ++ ReportSubmit.create data :: more) /\
   (forall detail rest,
       ReportSubmit.create_answers b = ReportSubmit.Refused detail :: rest ->
       ReportSubmit.calls b' = ReportSubmit.calls b ++ [ReportSubmit.create data] /\
       ReportSubmit.error f' = ReportSubmit.detail_or_default detail /\
       ReportSubmit.loading f' = false /\
       ReportSubmit.success f' = ReportSubmit.success f) /\
   (forall event rest file detail rest',
       ReportSubmit.create_answers b = ReportSubmit.Answered event :: rest ->
       ReportSubmit.image f = Some file ->
       ReportSubmit.upload_answers b = ReportSubmit.Refused detail :: rest' ->
       ReportSubmit.calls b'
         = ReportSubmit.calls b ++
           [ReportSubmit.create data; ReportSubmit.uploadImage (id event) file] /\
       ReportSubmit.error f' = ReportSubmit.detail_or_default detail /\
       ReportSubmit.loading f' = false /\
       ReportSubmit.success f' = ReportSubmit.success f /\
       exists more,
         ReportSubmit.calls (snd (ReportSubmit.handleSubmit trim f' b'))
         = ReportSubmit.calls b ++
           [ReportSubmit.create data; ReportSubmit.uploadImage (id event) file;
            ReportSubmit.create data] ++ more)).
Proof.
  intros f' b' data. subst f' b' data. split.
  - intros Hblank. unfold ReportSubmit.handleSubmit. rewrite Hblank. now split.
  - intros Hne.
    split; [reflexivity | split; [reflexivity | split; [| split]]].
    + now apply handleSubmit_first_call.
    + intros detail rest Hcreate.
      rewrite (handleSubmit_create_refused trim f b detail rest Hne Hcreate).
      repeat split.
    + intros event rest file detail rest' Hcreate Himage Hupload.
      rewrite (handleSubmit_upload_refused trim f b event rest file detail rest'
                 Hne Hcreate Himage Hupload).
      cbn [fst snd ReportSubmit.calls ReportSubmit.error ReportSubmit.loading
           ReportSubmit.success ReportSubmit.setLoading ReportSubmit.setError].
      split; [now rewrite <- app_assoc |].
      split; [reflexivity | split; [reflexivity | split; [reflexivity |]]].
      match goal with
      | |- context [ReportSubmit.handleSubmit trim ?g ?c] =>
          destruct (handleSubmit_first_call trim g c Hne) as [more Hmore]
      end.
      exists more. rewrite Hmore. cbn [ReportSubmit.calls].
      rewrite <- !app_assoc. reflexivity.
Qed.

Lemma handleSubmit_outcomes_witness :
  let f := {| ReportSubmit.position := (44.4268, 26.1025)%Q;
              ReportSubmit.address := "";
              ReportSubmit.alertCode := "RED";
              ReportSubmit.description := "Fire in the old mill";
              ReportSubmit.tags := ["fire"%string];
              ReportSubmit.image := Some "mill.jpg"%string;
              ReportSubmit.loading := false;
              ReportSubmit.error := "";
              ReportSubmit.success := false |} in
  let b := {| ReportSubmit.create_answers := [ReportSubmit.Answered Sample.fire];
              ReportSubmit.upload_answers := [ReportSubmit.Refused None];
              ReportSubmit.calls := [] |} in
  ReportSubmit.calls (snd (ReportSubmit.handleSubmit (fun s => s) f b))
  = [] ++ [ReportSubmit.create (ReportSubmit.eventData f);
           ReportSubmit.uploadImage (id Sample.fire) "mill.jpg"] /\
  ReportSubmit.error (fst (ReportSubmit.handleSubmit (fun s => s) f b))
  = "Error submitting report"%string /\
  ReportSubmit.success (fst (ReportSubmit.handleSubmit (fun s => s) f b)) = false.
Proof.
  intros f b.
  pose proof (handleSubmit_outcomes (fun s => s) f b) as W. cbv zeta in W.
  destruct W as [_ W].
  destruct W as (_ & _ & _ & _ & W); [discriminate |].
  destruct (W Sample.fire [] "mill.jpg"%string None [] eq_refl eq_refl eq_refl)
    as (H1 & H2 & _ & H4 & _).
  split; [exact H1 | split; [exact H2 | exact H4]].
Defined.

(* ================================================================== *)
(** * The image of a report, on the mobile client                        *)
(* ================================================================== *)

Lemma split_nonempty (sep : ascii) (s : string) : MobileApi.split sep s <> [].
Proof.
  destruct s as [| c s]; cbn; [discriminate |].
  destruct (Ascii.eqb c sep); [discriminate |].
  destruct (MobileApi.split sep s); discriminate.
Qed.

Lemma split_parts_without (sep : ascii) (s : string) :
  Forall (without sep) (MobileApi.split sep s).
Proof.
  induction s as [| c s IH]; cbn [MobileApi.split].
  - repeat constructor.
  - destruct (Ascii.eqb_spec c sep) as [-> | Hc].
    + constructor; [exact I | exact IH].
    + destruct (MobileApi.split sep s) as [| part parts].
      * repeat constructor. exact Hc.
      * inversion IH; subst. constructor; [split |]; assumption.
Qed.

Lemma split_without (sep : ascii) (s : string) :
  without sep s -> MobileApi.split sep s = [s].
Proof.
  induction s as [| c s IH]; cbn [MobileApi.split without]; [reflexivity |].
  intros [Hc Hs]. destruct (Ascii.eqb_spec c sep); [contradiction |].
  now rewrite IH.
Qed.

(** Splitting at a separator splits the text before it and the text
    after it. *)
Lemma split_at_separator (sep : ascii) (a b : string) :
  MobileApi.split sep (a ++ String sep b)
  = MobileApi.split sep a ++ MobileApi.split sep b.
Proof.
  induction a as [| c a IH]; cbn [append MobileApi.split].
  - now rewrite Ascii.eqb_refl.
  - rewrite IH. destruct (Ascii.eqb c sep); [reflexivity |].
    pose proof (split_nonempty sep a).
    destruct (MobileApi.split sep a); [contradiction | reflexivity].
Qed.

Lemma last_app_nonempty {A : Type} (l1 l2 : list A) (d : A) :
  l2 <> [] -> last (l1 ++ l2) d = last l2 d.
Proof.
  intros Hne. induction l1 as [| x l1 IH]; [reflexivity |].
  cbn [app last]. rewrite IH.
  destruct (l1 ++ l2) eqn:E; [| reflexivity].
  apply app_eq_nil in E. tauto.
Qed.

Lemma last_In {A : Type} (l : list A) (d : A) : l <> [] -> In (last l d) l.
Proof.
  intros Hne. rewrite (app_removelast_last d Hne) at 2.
  apply in_or_app. right. now left.
Qed.

(** X23.  The file type the mobile client sends with an image is the
    text after the last "." of the address of the image: it never holds a
    ".", and it is the extension when the address ends in one.  For an
    address without any "." it is the whole address, which then also
    follows "image/" as the type of the file. *)
Theorem fileType_extension (imageUri : string) :
  without "." (MobileApi.fileType imageUri) /\
  (forall stem ext,
      imageUri = (stem ++ "." ++ ext)%string -> without "." ext ->
      MobileApi.fileType imageUri = ext /\
      MobileApi.name (MobileApi.file_part imageUri) = ("image." ++ ext)%string /\
      MobileApi.type (MobileApi.file_part imageUri) = ("image/" ++ ext)%string) /\
  (without "." imageUri ->
   MobileApi.type (MobileApi.file_part imageUri) = ("image/" ++ imageUri)%string).
Proof.
  unfold MobileApi.file_part, MobileApi.fileType. cbn [MobileApi.name MobileApi.type].
  split; [| split].
  - pose proof (split_parts_without "." imageUri) as H. rewrite Forall_forall in H.
    apply H, last_In, split_nonempty.
  - intros stem ext -> Hext.
    assert (H : last (MobileApi.split "." (stem ++ "." ++ ext)) "undefined"%string = ext).
    { change ("." ++ ext)%string with (String "." ext).
      rewrite split_at_separator, last_app_nonempty by apply split_nonempty.
      now rewrite split_without. }
    rewrite H. repeat split.
  - intros H. now rewrite split_without.
Qed.

Lemma fileType_extension_witness :
  MobileApi.fileType "file:///cache/photo.v2.jpg" = "jpg"%string /\
  MobileApi.type (MobileApi.file_part "content://media/42")
  = "image/content://media/42"%string.
Proof.
  split.
  - apply (proj1 (proj2 (fileType_extension "file:///cache/photo.v2.jpg"))
                 "file:///cache/photo.v2"%string "jpg"%string).
    + reflexivity.
    + cbn. repeat split; discriminate.
  - apply (proj2 (proj2 (fileType_extension "content://media/42"))).
    cbn. repeat split; discriminate.
Defined.

(* ================================================================== *)
(** * The fetch against a backend that serves slices                     *)
(* ================================================================== *)

Lemma firstn_plus {A : Type} (a b : nat) (l : list A) :
  firstn (a + b) l = firstn a l ++ firstn b (skipn a l).
Proof.
  revert l. induction a as [| a IH]; intros l; [reflexivity |].
  destruct l as [| x l]; cbn [Nat.add firstn skipn app].
  - now rewrite firstn_nil.
  - now rewrite IH.
Qed.

Lemma concat_slices {A : Type} (size : nat) (l : list A) (k : nat) :
  List.concat (map (fun i => firstn size (skipn (i * size) l)) (seq 0 k))
  = firstn (k * size) l.
Proof.
  induction k as [| k IH]; [reflexivity |].
  rewrite seq_S, map_app, concat_app, IH. cbn [map List.concat Nat.add].
  rewrite app_nil_r. replace (S k * size)%nat with (k * size + size)%nat by lia.
  now rewrite firstn_plus.
Qed.

(** X24.  Against a backend that holds a list of events and answers each
    request with the events asked for, [getAllForAnalytics] returns the
    whole list, every event once and in the order of the backend.  For a
    list of n events it sends n / 100 + 1 requests (the quotient rounded
    down): when n is a multiple of 100, also when there are no events,
    the last request is answered with an empty page. *)
Theorem getAllForAnalytics_whole_list (db : list Event) (rest : list response) :
  let k := (List.length db / 100)%nat in
  getAllForAnalytics (map (serve db) (page_requests 0 (S k)) ++ rest) =
  {| result := Resolved db;
     requests := page_requests 0 (S k);
     unread := rest |} /\
  nth k (map (serve db) (page_requests 0 (S k))) Rejected
  = Data (skipn (k * 100) db) /\
  List.length (skipn (k * 100) db) = (List.length db mod 100)%nat.
Proof.
  intros k.
  pose proof (Nat.div_mod_eq (List.length db) 100) as Hdiv. fold k in Hdiv.
  pose proof (Nat.mod_upper_bound (List.length db) 100 ltac:(discriminate)) as Hmod.
  set (slice := fun i => firstn 100 (skipn (i * 100) db)).
  assert (Hserve : map (serve db) (page_requests 0 (S k))
                   = map Data (map slice (seq 0 k)) ++ [Data (slice k)]).
  { rewrite page_requests_snoc, map_app. unfold page_requests.
    rewrite !map_map. reflexivity. }
  assert (Hlast : slice k = skipn (k * 100) db).
  { subst slice. cbv beta. apply firstn_all2. rewrite length_skipn. lia. }
  split; [| split].
  - rewrite Hserve, <- app_assoc. cbn [app].
    rewrite getAllForAnalytics_resolves.
    + rewrite length_map, length_seq. f_equal. f_equal.
      subst slice. rewrite (concat_slices 100 db k), Hlast. apply firstn_skipn.
    + apply Forall_forall. intros page Hpage. apply in_map_iff in Hpage.
      destruct Hpage as (i & <- & Hi). apply in_seq in Hi.
      unfold full_page, page_limit. subst slice. cbv beta.
      rewrite length_firstn, length_skipn. lia.
    + unfold page_limit. rewrite Hlast, length_skipn. lia.
  - rewrite Hserve, <- Hlast.
    rewrite app_nth2; rewrite !length_map, length_seq; [| lia].
    now rewrite Nat.sub_diag.
  - rewrite length_skipn. lia.
Qed.

(* ================================================================== *)
(** * Tags that occur equally often                                      *)
(* ================================================================== *)

Section Stable.
Context {A : Type} (comparefn : A -> A -> option Z) (key : A -> Z)
        (before : A -> A -> Prop).

Lemma sort_insert_stable (x : A) (s : list A) :
  (forall y, In y s -> before x y) ->
  (forall y, In y s -> before_or_equal comparefn x y = (key y <=? key x)) ->
  StronglySorted (larger_then_earlier key before) s ->
  StronglySorted (larger_then_earlier key before) (sort_insert comparefn x s).
Proof.
  intros Hbefore Hcmp Hs. induction Hs as [| y s Hs IH Hy]; cbn [sort_insert].
  - repeat constructor.
  - rewrite (Hcmp y (or_introl eq_refl)).
    rewrite Forall_forall in Hy.
    destruct (Z.leb_spec (key y) (key x)) as [Hle | Hlt].
    + constructor; [now constructor; [| apply Forall_forall] |].
      apply Forall_forall. intros z [<- | Hz].
      * unfold larger_then_earlier.
        destruct (Z.eq_dec (key y) (key x)) as [E | E]; [right | left; lia].
        split; [now symmetry | apply Hbefore; now left].
      * pose proof (Hy z Hz) as Hyz. unfold larger_then_earlier in *.
        destruct (Z.eq_dec (key z) (key x)) as [E | E]; [right | left; lia].
        split; [now symmetry | apply Hbefore; now right].
    + constructor.
      * apply IH; intros z Hz; [apply Hbefore | apply Hcmp]; now right.
      * apply Forall_forall. intros z Hz.
        apply (Permutation_in _ (sort_insert_Permutation comparefn x s)) in Hz.
        destruct Hz as [<- | Hz]; [left; lia | now apply Hy].
Qed.

(** The sort keeps elements of equal key in the order they had. *)
Lemma sort_stable (l : list A) :
  (forall a b, In a l -> In b l ->
               before_or_equal comparefn a b = (key b <=? key a)) ->
  StronglySorted before l ->
  StronglySorted (larger_then_earlier key before) (sort comparefn l).
Proof.
  intros Hcmp Hl. induction Hl as [| x l Hl IH Hx]; [constructor |].
  cbn [sort fold_right]. fold (sort comparefn l).
  rewrite Forall_forall in Hx.
  assert (Hin : forall y, In y (sort comparefn l) -> In y l)
    by (intros y; apply Permutation_in, sort_Permutation).
  apply sort_insert_stable.
  - intros y Hy. apply Hx. now apply Hin.
  - intros y Hy. apply Hcmp; [now left | right; now apply Hin].
  - apply IH. intros a b Ha Hb. apply Hcmp; now right.
Qed.
End Stable.

Lemma appears_before_snoc (keys : list string) (k x y : string) :
  appears_before keys x y -> appears_before (keys ++ [k]) x y.
Proof.
  intros (pre & post & -> & Hpre & Hne).
  exists pre, (post ++ [k]). now rewrite <- app_assoc.
Qed.

(** The properties of a counter are in the order in which the keys
    first appeared. *)
Lemma count_all_first_seen (keys : list string) :
  Forall ordinary keys ->
  StronglySorted (appears_before keys) (map fst (fold_left count_up keys [])).
Proof.
  induction keys as [| k keys IH] using rev_ind; intros Hord; [constructor |].
  apply Forall_app in Hord. destruct Hord as [Hord Hk].
  rewrite fold_left_app. cbn [fold_left].
  destruct (count_all_ordinary keys Hord [] ltac:(constructor))
    as (_ & _ & Hkeys & _ & _).
  cbv zeta in Hkeys. specialize (IH Hord).
  set (o := fold_left count_up keys []) in *.
  assert (Hmono : StronglySorted (appears_before (keys ++ [k])) (map fst o)).
  { revert IH. generalize (map fst o) as l.
    induction 1 as [| x l Hl IHl Hx]; constructor; [exact IHl |].
    revert Hx. apply Forall_impl. intros y. apply appears_before_snoc. }
  destruct (count_up_keys o k) as [-> | (_ & Hnin & ->)]; [exact Hmono |].
  clear IH. revert Hmono.
  assert (Hall : Forall (fun x => appears_before (keys ++ [k]) x k) (map fst o)).
  { apply Forall_forall. intros x Hx.
    assert (Hxk : In x keys) by (apply Hkeys in Hx; destruct Hx as [[] | Hx]; exact Hx).
    apply in_split in Hxk. destruct Hxk as (pre & post & ->).
    exists pre, (post ++ [k]). rewrite <- app_assoc. split; [reflexivity |].
    split.
    - intros Hpre. apply Hnin, Hkeys. right. apply in_or_app. now left.
    - intros ->. contradiction. }
  revert Hall. generalize (map fst o) as l.
  induction l as [| x l IHl]; intros Hall Hs; cbn [app].
  - repeat constructor.
  - inversion Hall; subst. inversion Hs; subst. constructor; [now apply IHl |].
    apply Forall_app. split; [assumption | now repeat constructor].
Qed.

Lemma StronglySorted_map_inv {A B : Type} (f : A -> B) (R : B -> B -> Prop)
    (l : list A) :
  StronglySorted R (map f l) -> StronglySorted (fun a b => R (f a) (f b)) l.
Proof.
  induction l as [| x l IH]; cbn [map]; intros H; [constructor |].
  inversion H as [| ? ? Hl Hx]; subst. constructor; [now apply IH |].
  rewrite Forall_forall in *. intros y Hy. apply Hx. now apply in_map.
Qed.

Lemma StronglySorted_impl {A : Type} (R R' : A -> A -> Prop) (l : list A) :
  (forall a b, R a b -> R' a b) -> StronglySorted R l -> StronglySorted R' l.
Proof.
  intros Himp. induction 1 as [| x l Hl IH Hx]; constructor; [exact IH |].
  revert Hx. apply Forall_impl. intros y. apply Himp.
Qed.

(** X25.  When no tag is the name of a member of [Object.prototype] and
    no tag is an array index (a whole number below 2^32 - 1 in its
    usual writing), [processTopTags] ranks the tags by falling number of
    occurrences and, among tags that occur equally often, in the order in
    which they first appear in the events, and keeps the first ten of
    that ranking: there is a list of all the tags, each once and with
    the number of its occurrences, in that order, of which the answer is
    the first ten. *)
Theorem processTopTags_ties (E : list Event) :
  Forall ordinary (all_tags E) ->
  Forall (fun t => array_index t = None) (all_tags E) ->
  exists ranking : list TagBucket,
    processTopTags E = firstn 10 ranking /\
    (forall t, In t (map tag ranking) <-> In t (all_tags E)) /\
    NoDup (map tag ranking) /\
    Forall (fun b => tag_count b = PNum (occurrences (tag b) (all_tags E))) ranking /\
    StronglySorted
      (larger_then_earlier (fun b => occurrences (tag b) (all_tags E))
                           (fun a b => appears_before (all_tags E) (tag a) (tag b)))
      ranking.
Proof.
  intros Hord Hnamed. unfold processTopTags. rewrite tagCounts_all_tags.
  set (keys := all_tags E) in *.
  destruct (count_all_ordinary keys Hord [] ltac:(constructor))
    as (Hnum & Hst & Hkeys & _ & Hnd).
  pose proof (count_all_first_seen keys Hord) as Hseen.
  cbv zeta in *. set (o := fold_left count_up keys []) in *.
  specialize (Hnd ltac:(constructor)).
  assert (Hentry : forall p, In p o ->
             In (fst p) keys /\ snd p = PNum (occurrences (fst p) keys)).
  { intros [k v] Hp. cbn [fst snd]. split.
    - apply (in_map fst) in Hp. apply Hkeys in Hp. cbn in Hp. tauto.
    - pose proof (own_first o k v Hnd Hp) as Hown.
      specialize (Hst k). unfold stored in Hst. rewrite Hown in Hst.
      destruct (own_numeric o k v Hnum Hown) as [n ->]. cbn in Hst. f_equal. lia. }
  rewrite Object_entries_named.
  2:{ apply Forall_forall. intros p Hp. rewrite Forall_forall in Hnamed.
      apply Hnamed. now apply Hentry. }
  unfold slice_first.
  set (L := sort (fun a b => minus (snd b) (snd a)) o).
  assert (HP : Permutation L o) by apply sort_Permutation.
  exists (map (fun '(tag, count) => {| tag := tag; tag_count := count |}) L).
  assert (Htag : map tag (map (fun '(tag, count) => {| tag := tag; tag_count := count |}) L)
                 = map fst L).
  { rewrite map_map. apply map_ext. intros [k v]. reflexivity. }
  split; [symmetry; apply firstn_map | split; [| split; [| split]]].
  - intros t. rewrite Htag. split.
    + intros Ht. apply (Permutation_in _ (Permutation_map fst HP)) in Ht.
      apply Hkeys in Ht. destruct Ht as [[] | Ht]. exact Ht.
    + intros Ht. apply (Permutation_in _ (Permutation_map fst (Permutation_sym HP))).
      apply Hkeys. now right.
  - rewrite Htag. apply (Permutation_NoDup (l := map fst o)); [| exact Hnd].
    apply Permutation_map. now symmetry.
  - apply Forall_forall. intros b Hb. apply in_map_iff in Hb.
    destruct Hb as ([k v] & <- & Hp). apply (Permutation_in _ HP) in Hp.
    destruct (Hentry _ Hp) as [_ Hv]. exact Hv.
  - apply StronglySorted_map.
    apply (StronglySorted_impl
             (larger_then_earlier (fun p => occurrences (fst p) keys)
                                  (fun a b => appears_before keys (fst a) (fst b)))).
    { intros [k v] [k' v'] H. exact H. }
    apply sort_stable.
    + intros [k v] [k' v'] Ha Hb.
      destruct (Hentry _ Ha) as [_ Hv], (Hentry _ Hb) as [_ Hv']. cbn [fst snd] in *.
      subst v v'. apply before_or_equal_counts.
    + now apply StronglySorted_map_inv.
Qed.

Lemma processTopTags_ties_witness :
  exists ranking : list TagBucket,
    processTopTags [Sample.event GREEN ["smoke"; "fire"]%string "2024-03-15T10:00";
                    Sample.event RED ["water"; "fire"]%string "2024-03-15T11:00"]
    = firstn 10 ranking /\
    map tag ranking = ["fire"; "smoke"; "water"]%string.
Proof.
  destruct (processTopTags_ties
              [Sample.event GREEN ["smoke"; "fire"]%string "2024-03-15T10:00";
               Sample.event RED ["water"; "fire"]%string "2024-03-15T11:00"])
    as (ranking & Hfirst & _); [repeat constructor | repeat constructor |].
  exists (firstn 10 ranking). split.
  - rewrite Hfirst. symmetry. apply firstn_firstn.
  - rewrite <- Hfirst. reflexivity.
Defined.

(** Eleven tags that occur once each: the ten that appear first are
    kept, in the order of their appearance. *)
Example processTopTags_eleven_tied :
  map tag (processTopTags
             [Sample.event GREEN ["t01"; "t02"; "t03"; "t04"; "t05"; "t06"]%string
                           "2024-03-15T10:00";
              Sample.event RED ["t07"; "t08"; "t09"; "t10"; "t11"]%string
                           "2024-03-15T11:00"])
  = ["t01"; "t02"; "t03"; "t04"; "t05"; "t06"; "t07"; "t08"; "t09"; "t10"]%string.
Proof. reflexivity. Qed.
